(** * Ping Pong Elo: the rating ledger of [main.py]

    A shallow embedding of the Streamlit dashboard: the rating engine
    ([get_or_create_player], [expected_score], [update_elo],
    [leaderboard_rows], and the two module-level blocks that record a match
    and reset the session), and around it [initialize_state],
    [load_credentials], [render_login] and the script of the page, as a
    function of what the widgets return.

    Python [float] is IEEE binary64; it is modelled by [spec_float] at
    precision 53, so every rounding of the program is part of the model.
    Python [int] is [Z].  The session state is threaded explicitly through
    a small state-and-exception monad. *)

From Stdlib Require Import ZArith List String Bool Lia.
From Stdlib Require Import Sorted Permutation.
From Stdlib Require Import Reals Lra.
From Stdlib Require Import SpecFloat.
Import ListNotations.
Local Open Scope Z_scope.

(** ** Binary64 arithmetic *)

Module F64.

Definition prec : Z := 53.
Definition emax : Z := 1024.

Definition float : Type := spec_float.

Definition add : float -> float -> float := SFadd prec emax.
Definition sub : float -> float -> float := SFsub prec emax.
Definition mul : float -> float -> float := SFmul prec emax.
Definition div : float -> float -> float := SFdiv prec emax.
Definition opp : float -> float := SFopp.
Definition eqb : float -> float -> bool := SFeqb.
Definition ltb : float -> float -> bool := SFltb.
Definition leb : float -> float -> bool := SFleb.

(** The nearest binary64 to an integer (ties to even); an integer beyond
    the range gives an infinity. *)
Definition of_Z (n : Z) : float := binary_normalize prec emax n 0 false.

(** The nearest binary64 to the quotient of two positive integers. *)
Definition of_quotient (s : bool) (a b : positive) : float :=
  let '(q, e, l) := SFdiv_core_binary prec emax (Zpos a) 0 (Zpos b) 0 in
  binary_round_aux prec emax s q e l.

Definition is_nan (x : float) : bool :=
  match x with S754_nan => true | _ => false end.

Definition is_inf (x : float) : bool :=
  match x with S754_infinity _ => true | _ => false end.

Definition is_zero (x : float) : bool :=
  match x with S754_zero _ => true | _ => false end.

Definition is_finite (x : float) : bool :=
  match x with S754_zero _ | S754_finite _ _ _ => true | _ => false end.

Definition sign (x : float) : bool :=
  match x with
  | S754_zero s | S754_infinity s | S754_finite s _ _ => s
  | S754_nan => false
  end.

Definition valid : float -> bool := valid_binary prec emax.

(** A float of the format that is neither NaN nor negative. *)
Definition is_nonneg (x : float) : bool :=
  valid x && negb (is_nan x) && negb (sign x).

Definition zero : float := S754_zero false.
Definition one : float := Eval vm_compute in of_Z 1.
Definition ten : float := Eval vm_compute in of_Z 10.
Definition f100 : float := Eval vm_compute in of_Z 100.
Definition f400 : float := Eval vm_compute in of_Z 400.
Definition f1200 : float := Eval vm_compute in of_Z 1200.
Definition half : float := Eval vm_compute in of_quotient false 1 2.
Definition inf : float := S754_infinity false.

End F64.

Abbreviation float := F64.float.

(** ** The Python operations the program uses *)

Module Py.

Inductive exn : Type :=
| ZeroDivisionError
| OverflowError
| KeyError (key : string).

Inductive result (A : Type) : Type :=
| Ok (a : A)
| Raise (e : exn).

Arguments Ok {A} a.
Arguments Raise {A} e.

Definition rbind {A B : Type} (c : result A) (k : A -> result B) : result B :=
  match c with
  | Ok a => k a
  | Raise e => Raise e
  end.

Notation "'try' x <- c ; k" := (rbind c (fun x => k))
  (at level 61, x pattern, c at next level, right associativity).

(** [int] to [float], as done for an [int] operand of a [float] operation:
    correctly rounded, [OverflowError] beyond the range. *)
Definition float_of_int (n : Z) : result float :=
  let x := F64.of_Z n in
  if F64.is_inf x then Raise OverflowError else Ok x.

(** [a / b] on floats. *)
Definition float_truediv (a b : float) : result float :=
  if F64.eqb b F64.zero then Raise ZeroDivisionError else Ok (F64.div a b).

(** [a / b] on ints: the correctly rounded quotient. *)
Definition int_truediv (a b : Z) : result float :=
  match b with
  | Z0 => Raise ZeroDivisionError
  | _ =>
      let negate := xorb (a <? 0) (b <? 0) in
      match a with
      | Z0 => Ok (S754_zero negate)
      | _ =>
          let x := F64.of_quotient negate (Z.to_pos (Z.abs a)) (Z.to_pos (Z.abs b)) in
          if F64.is_inf x then Raise OverflowError else Ok x
      end
  end.

Section Pow.

(** The C library's [pow], which the interpreter calls once the special
    cases are sorted out. *)
Variable libm_pow : float -> float -> float.

(** [10 ** iw] for a float [iw]: the interpreter's [float_pow] at the base
    [10.0].  A zero exponent gives [1.0], a NaN exponent gives NaN, an
    infinite one gives [inf] or [0.0]; the other exponents go to the C
    library, and an infinite result there is an [OverflowError]. *)
Definition pow_ten (iw : float) : result float :=
  if F64.eqb iw F64.zero then Ok F64.one
  else if F64.is_nan iw then Ok iw
  else if F64.is_inf iw then
    Ok (if F64.ltb F64.zero iw then F64.inf else F64.zero)
  else
    let ix := libm_pow F64.ten iw in
    if F64.is_inf ix then Raise OverflowError else Ok ix.

End Pow.

(** The integer nearest to [10 * m * 2^e], ties to even. *)
Definition tenths (m : positive) (e : Z) : Z :=
  match e with
  | Zneg k =>
      let d := 2 ^ Zpos k in
      let a := 10 * Zpos m in
      let q := a / d in
      match 2 * (a mod d) ?= d with
      | Lt => q
      | Eq => if Z.even q then q else q + 1
      | Gt => q + 1
      end
  | _ => 10 * Zpos m * 2 ^ e
  end.

(** [round(x, 1)]: the decimal with one fractional digit nearest to the
    exact value of [x] (ties to even), converted back to the nearest float;
    infinities and NaN round to themselves and the sign of a zero result is
    that of [x]. *)
Definition round1 (x : float) : float :=
  match x with
  | S754_finite s m e =>
      match tenths m e with
      | Zpos n => F64.of_quotient s n 10
      | _ => S754_zero s
      end
  | _ => x
  end.

End Py.

Export Py.

(** ** Session state *)

(** A value of [st.session_state.players]: one player's rating and
    counters. *)
Record player : Type := mkPlayer {
  rating : float;
  wins : Z;
  losses : Z;
  games : Z
}.

(** An entry of [st.session_state.matches]. *)
Record match_record : Type := mkMatch {
  m_time : string;
  m_winner : string;
  m_loser : string;
  m_delta : float;
  m_k : Z
}.

(** A dict keeps its keys in insertion order, and [leaderboard_rows] walks
    them in that order: the registry is an association list with one entry
    per name. *)
Definition registry : Type := list (string * player).

Record session_state : Type := mkState {
  players : registry;
  matches : list match_record;
  default_k : Z;
  authed : bool;
  auth_user : string
}.

Definition with_players (d : registry) (st : session_state) : session_state :=
  mkState d (matches st) (default_k st) (authed st) (auth_user st).

Definition with_matches (l : list match_record) (st : session_state) : session_state :=
  mkState (players st) l (default_k st) (authed st) (auth_user st).

(** The state [initialize_state] builds in a fresh session. *)
Definition initial_state : session_state := mkState [] [] 32 false EmptyString.

(** [name in d] and [d[name]]. *)
Fixpoint lookup (name : string) (d : registry) : option player :=
  match d with
  | [] => None
  | (n, p) :: d' => if String.eqb name n then Some p else lookup name d'
  end.

Definition mem (name : string) (d : registry) : bool :=
  match lookup name d with Some _ => true | None => false end.

(** [d[name] = p]: the entry is replaced where it stands, a new key goes
    last. *)
Fixpoint store (name : string) (p : player) (d : registry) : registry :=
  match d with
  | [] => [(name, p)]
  | (n, q) :: d' =>
      if String.eqb name n then (n, p) :: d' else (n, q) :: store name p d'
  end.

(** ** State and exceptions *)

Definition M (A : Type) : Type := session_state -> session_state * result A.

Definition ret {A : Type} (a : A) : M A := fun st => (st, Ok a).

Definition bind {A B : Type} (c : M A) (k : A -> M B) : M B :=
  fun st =>
    match c st with
    | (st', Ok a) => k a st'
    | (st', Raise e) => (st', Raise e)
    end.

Definition lift {A : Type} (r : result A) : M A := fun st => (st, r).

Notation "x <- c ;; k" := (bind c (fun x => k))
  (at level 61, c at next level, right associativity).
Notation "c ;; k" := (bind c (fun _ => k))
  (at level 61, right associativity).

(** [st.session_state.players[name]]: the player's dict, or [KeyError]. *)
Definition get_player (name : string) : M player :=
  fun st =>
    match lookup name (players st) with
    | Some p => (st, Ok p)
    | None => (st, Raise (KeyError name))
    end.

(** An assignment to a key of [st.session_state.players[name]]: the
    player's dict is mutated in place. *)
Definition modify_player (name : string) (f : player -> player) : M unit :=
  p <- get_player name ;;
  fun st => (with_players (store name (f p) (players st)) st, Ok tt).

Definition set_rating (r : float) (p : player) : player :=
  mkPlayer r (wins p) (losses p) (games p).
Definition incr_wins (p : player) : player :=
  mkPlayer (rating p) (wins p + 1) (losses p) (games p).
Definition incr_losses (p : player) : player :=
  mkPlayer (rating p) (wins p) (losses p + 1) (games p).
Definition incr_games (p : player) : player :=
  mkPlayer (rating p) (wins p) (losses p) (games p + 1).

(** ** Elo utilities *)

Definition new_player : player := mkPlayer F64.f1200 0 0 0.

Definition get_or_create_player (name : string) : M unit :=
  fun st =>
    if mem name (players st) then (st, Ok tt)
    else (with_players (store name new_player (players st)) st, Ok tt).

Section Elo.

Variable libm_pow : float -> float -> float.

Definition expected_score (rating_a rating_b : float) : result float :=
  try y <- float_truediv (F64.sub rating_b rating_a) F64.f400 ;
  try p <- pow_ten libm_pow y ;
  float_truediv F64.one (F64.add F64.one p).

(** The four assignments [ea], [eb], [delta_w], [delta_l] of [update_elo]:
    the two rating changes of a match. *)
Definition rating_deltas (ra rb : float) (k_factor : Z) : result (float * float) :=
  try ea <- expected_score ra rb ;
  let eb := F64.sub F64.one ea in
  try kw <- float_of_int k_factor ;
  let delta_w := F64.mul kw (F64.sub F64.one ea) in
  try kl <- float_of_int k_factor ;
  let delta_l := F64.mul kl (F64.sub F64.zero eb) in
  Ok (delta_w, delta_l).

Definition update_elo (winner loser : string) (k_factor : Z)
  : M (float * float * float) :=
  get_or_create_player winner ;;
  get_or_create_player loser ;;
  pw <- get_player winner ;;
  let ra := rating pw in
  pl <- get_player loser ;;
  let rb := rating pl in
  d <- lift (rating_deltas ra rb k_factor) ;;
  let delta_w := fst d in
  let delta_l := snd d in
  modify_player winner (set_rating (F64.add ra delta_w)) ;;
  modify_player loser (set_rating (F64.add rb delta_l)) ;;
  modify_player winner incr_wins ;;
  modify_player winner incr_games ;;
  modify_player loser incr_losses ;;
  modify_player loser incr_games ;;
  ret (F64.add ra delta_w, F64.add rb delta_l, delta_w).

(** The block run by the "Record Match" button once the names are
    stripped and checked: [new_ra, new_rb, delta = update_elo(...)] and
    [st.session_state.matches.insert(0, {...})].  [now] is the formatted
    clock reading. *)
Definition record_match (now : string) (win_name lose_name : string) (k_factor : Z)
  : M (float * float * float) :=
  r <- update_elo win_name lose_name k_factor ;;
  let delta := snd r in
  (fun st =>
     (with_matches
        (mkMatch now win_name lose_name (round1 delta) k_factor :: matches st) st,
      Ok tt)) ;;
  ret r.

End Elo.

(** The guard of the "Record Match" button on the stripped names. *)
Definition can_submit (a b : string) : bool :=
  negb (String.eqb a EmptyString) && negb (String.eqb b EmptyString)
  && negb (String.eqb a b).

(** The block run by the "Reset all data" button. *)
Definition reset : M unit :=
  fun st => (with_matches [] (with_players [] st), Ok tt).

(** ** Leaderboard *)

(** A row of the leaderboard: the dict built in the loop of
    [leaderboard_rows]. *)
Record row : Type := mkRow {
  r_player : string;
  r_rating : float;
  r_games : Z;
  r_wins : Z;
  r_losses : Z;
  r_win_pct : float
}.

(** The body of the loop: the row of one item of the registry. *)
Definition row_of (name : string) (info : player) : result row :=
  let games := if Z.eqb (games info) 0 then 0 else games info in
  let wins := if Z.eqb (wins info) 0 then 0 else wins info in
  try win_rate <-
    (if 0 <? games
     then try q <- int_truediv wins games ; Ok (F64.mul q F64.f100)
     else Ok F64.zero) ;
  Ok (mkRow name
        (round1 (rating info))
        games
        wins
        (if Z.eqb (losses info) 0 then 0 else losses info)
        (round1 win_rate)).

Fixpoint rows_of (items : registry) : result (list row) :=
  match items with
  | [] => Ok []
  | (name, info) :: items' =>
      try r <- row_of name info ;
      try rs <- rows_of items' ;
      Ok (r :: rs)
  end.

(** The sort key [(r["Rating"], r["Wins"], -r["Losses"])] and the order of
    tuples: the first component where the two differ decides. *)
Definition sort_key (r : row) : float * Z * Z :=
  (r_rating r, r_wins r, - r_losses r).

Definition key_lt (a b : float * Z * Z) : bool :=
  let '(ra, wa, la) := a in
  let '(rb, wb, lb) := b in
  if negb (F64.eqb ra rb) then F64.ltb ra rb
  else if negb (Z.eqb wa wb) then Z.ltb wa wb
  else Z.ltb la lb.

Definition row_lt (x y : row) : bool := key_lt (sort_key x) (sort_key y).

(** [list.sort] is stable; it is modelled by the insertion sort that puts
    each element behind the elements not greater than it, which is what
    the library's sort computes whenever the keys are totally ordered. *)
Fixpoint insert_sorted {A : Type} (lt : A -> A -> bool) (x : A) (l : list A) : list A :=
  match l with
  | [] => [x]
  | y :: l' => if lt x y then x :: l else y :: insert_sorted lt x l'
  end.

Definition stable_sort {A : Type} (lt : A -> A -> bool) (l : list A) : list A :=
  fold_left (fun acc x => insert_sorted lt x acc) l [].

(** [l.sort(key=..., reverse=True)]: the list is reversed, sorted upwards
    and reversed again, so that equal keys keep their order. *)
Definition sort_reverse {A : Type} (lt : A -> A -> bool) (l : list A) : list A :=
  rev (stable_sort lt (rev l)).

Definition leaderboard_rows : M (list row) :=
  fun st =>
    match rows_of (players st) with
    | Ok rows => (st, Ok (sort_reverse row_lt rows))
    | Raise e => (st, Raise e)
    end.

(** ** Running a session *)

(** A pending click on "Record Match". *)
Record call : Type := mkCall {
  c_time : string;
  c_winner : string;
  c_loser : string;
  c_k : Z
}.

Section Run.

Variable libm_pow : float -> float -> float.

(** The state after a sequence of recorded matches; a match that raises
    leaves the state where the exception left it. *)
Fixpoint run (calls : list call) (st : session_state) : session_state :=
  match calls with
  | [] => st
  | c :: calls' =>
      run calls' (fst (record_match libm_pow (c_time c) (c_winner c) (c_loser c) (c_k c) st))
  end.

End Run.

(** ** Dicts of strings *)

(** A dict with string keys, in insertion order, as [registry] is for the
    players: here for the credentials. *)
Module Dict.

Section Dict.

Context {V : Type}.

Fixpoint get (key : string) (d : list (string * V)) : option V :=
  match d with
  | [] => None
  | (k, v) :: d' => if String.eqb key k then Some v else get key d'
  end.

Fixpoint set (key : string) (v : V) (d : list (string * V)) : list (string * V) :=
  match d with
  | [] => [(key, v)]
  | (k, w) :: d' =>
      if String.eqb key k then (k, v) :: d' else (k, w) :: set key v d'
  end.

(** The dict a comprehension builds from the pairs it is given, in their
    order: a key met again gets the later value. *)
Definition of_items (items : list (string * V)) : list (string * V) :=
  fold_left (fun d kv => set (fst kv) (snd kv) d) items [].

End Dict.

End Dict.

(** ** Session bootstrap *)

(** [st.session_state] as a script run finds it: each of the five keys is
    there or not. *)
Record raw_session : Type := mkRaw {
  raw_players : option registry;
  raw_matches : option (list match_record);
  raw_default_k : option Z;
  raw_authed : option bool;
  raw_auth_user : option string
}.

Definition new_session : raw_session := mkRaw None None None None None.

(** The session state a script run leaves for the next one. *)
Definition stored (st : session_state) : raw_session :=
  mkRaw (Some (players st)) (Some (matches st)) (Some (default_k st))
        (Some (authed st)) (Some (auth_user st)).

Definition or_default {A : Type} (o : option A) (a : A) : A :=
  match o with Some x => x | None => a end.

(** [initialize_state]: each key that is missing gets its default. *)
Definition initialize_state (s : raw_session) : session_state :=
  mkState (or_default (raw_players s) [])
          (or_default (raw_matches s) [])
          (or_default (raw_default_k s) 32)
          (or_default (raw_authed s) false)
          (or_default (raw_auth_user s) EmptyString).

(** ** Auth *)

Definition credentials : Type := list (string * string).

(** What the [try] block of [load_credentials] meets in [st.secrets]:
    an exception, in reading or in converting; no ["auth"] table, or no
    ["users"] in it; an object under ["users"] that is no [dict]; or a
    [dict], given by its items, keys and values as [str] renders them. *)
Inductive secrets_users : Type :=
| SecretsRaise
| SecretsAbsent
| SecretsOther
| SecretsDict (items : list (string * string)).

(** What [load_credentials] reads: the secrets and the two environment
    variables [AUTH_USER] and [AUTH_PASS]. *)
Record environment : Type := mkEnv {
  secrets : secrets_users;
  AUTH_USER : option string;
  AUTH_PASS : option string
}.

(** [bool(s)] for a string and for the result of [os.getenv]. *)
Definition truthy (s : string) : bool := negb (String.eqb s EmptyString).

Definition truthy_env (o : option string) : bool :=
  match o with Some s => truthy s | None => false end.

Definition demo_users : credentials := [("admin"%string, "admin"%string)].

Definition load_credentials (env : environment) : credentials :=
  let preferred :=
    match secrets env with
    | SecretsDict users_obj =>
        match users_obj with
        | [] => None
        | _ :: _ => Some (Dict.of_items users_obj)
        end
    | _ => None
    end in
  match preferred with
  | Some users => users
  | None =>
      let env_user := AUTH_USER env in
      let env_pass := AUTH_PASS env in
      if truthy_env env_user && truthy_env env_pass
      then [(or_default env_user EmptyString, or_default env_pass EmptyString)]
      else demo_users
  end.

(** The fields of the login form as the script run reads them. *)
Record login_form : Type := mkLogin {
  username_input : string;
  password_input : string;
  submitted : bool
}.

(** How a script run ends: it reaches its last line; [st.stop()] ends it;
    [st.rerun()] ends it and starts the next one; an exception of the
    rating engine ends it; or it ends in the "Log out" block, where the
    two assignments are followed by
    [st.experimental_clear_query_params()] and [st.rerun()]: the run ends
    at the first of the two calls, with an [AttributeError], when the
    Streamlit that runs the page has no such function, and at the second
    otherwise.  Which of the two the library does is not in the source:
    [SignedOut] stands for both. *)
Inductive ending : Type :=
| Completed
| Stopped
| Rerun
| Failed (e : exn)
| SignedOut.

Definition sign_in (username : string) (st : session_state) : session_state :=
  mkState (players st) (matches st) (default_k st) true username.

Definition sign_out (st : session_state) : session_state :=
  mkState (players st) (matches st) (default_k st) false EmptyString.

Definition with_default_k (k : Z) (st : session_state) : session_state :=
  mkState (players st) (matches st) k (authed st) (auth_user st).

(** The values the widgets of the page return in a script run, and the
    clock. *)
Record widgets : Type := mkWidgets {
  w_login : login_form;
  w_k_factor : Z;
  w_reset : bool;
  w_logout : bool;
  w_player_a : string;
  w_player_b : string;
  w_winner : string;
  w_submit : bool;
  w_now : string
}.

Section App.

(** [str.strip] and [str.lower]. *)
Variable strip : string -> string.
Variable lower : string -> string.

Variable libm_pow : float -> float -> float.

(** [users_lower] of [render_login]. *)
Definition users_lower (users : credentials) : credentials :=
  Dict.of_items (map (fun kv => (lower (fst kv), snd kv)) users).

(** The test of [render_login] on the stripped user name and the
    password. *)
Definition accepts (users : credentials) (username password : string) : bool :=
  match Dict.get (lower username) (users_lower users) with
  | Some v => String.eqb v password
  | None => false
  end.

(** [render_login]: the state it leaves, and whether it ends the run with
    [st.rerun()]. *)
Definition render_login (users : credentials) (form : login_form) (st : session_state)
  : session_state * bool :=
  if submitted form then
    let username := strip (username_input form) in
    let password := password_input form in
    if accepts users username password
    then (sign_in username st, true)
    else (st, false)
  else (st, false).

(** The names the "Record Match" block works with. *)
Definition win_name (w : widgets) : string :=
  if String.eqb (w_winner w) "Player A" then strip (w_player_a w) else strip (w_player_b w).

Definition lose_name (w : widgets) : string :=
  if String.eqb (w_winner w) "Player A" then strip (w_player_b w) else strip (w_player_a w).

(** The "Record Match" block: nothing unless the button was pressed and
    the names pass [can_submit]. *)
Definition record_block (w : widgets) (k_factor : Z) (st : session_state)
  : session_state * result unit :=
  if w_submit w && can_submit (strip (w_player_a w)) (strip (w_player_b w))
  then
    match record_match libm_pow (w_now w) (win_name w) (lose_name w) k_factor st with
    | (st', Ok _) => (st', Ok tt)
    | (st', Raise e) => (st', Raise e)
    end
  else (st, Ok tt).

(** One run of the script, from [initialize_state()] to the leaderboard:
    the session state it leaves and how it ends.  Without a sign-in the
    run goes through [render_login] and stops.  Otherwise the K-factor of
    the slider is stored, "Reset all data" empties the ledger, "Log out"
    assigns [authed] and [auth_user] and the run ends in that block, and
    the run goes on to the "Record Match" block and to the leaderboard; an
    exception of [update_elo] or of [leaderboard_rows] ends it where it is
    raised. *)
Definition script (env : environment) (w : widgets) (s : raw_session)
  : session_state * ending :=
  let st := initialize_state s in
  let users := load_credentials env in
  if negb (authed st) then
    match render_login users (w_login w) st with
    | (st', true) => (st', Rerun)
    | (st', false) => (st', Stopped)
    end
  else
    let k_factor := w_k_factor w in
    let st := with_default_k k_factor st in
    let st := if w_reset w then fst (reset st) else st in
    if w_logout w then (sign_out st, SignedOut)
    else
      match record_block w k_factor st with
      | (st', Raise e) => (st', Failed e)
      | (st', Ok _) =>
          match leaderboard_rows st' with
          | (st'', Ok _) => (st'', Completed)
          | (st'', Raise e) => (st'', Failed e)
          end
      end.

(** A browser session: the script runs once for each event, on the session
    state the run before left. *)
Fixpoint browse (events : list (environment * widgets)) (s : raw_session) : raw_session :=
  match events with
  | [] => s
  | (env, w) :: events' => browse events' (stored (fst (script env w s)))
  end.

End App.

(** ** The form of a match *)

(** [sorted(list(st.session_state.players.keys()))]: the registered names
    in the order of strings, which compares them character by character. *)
Definition existing_players (st : session_state) : list string :=
  stable_sort String.ltb (map fst (players st)).

(** The names the two text inputs are filled with:
    [existing_players[0] if existing_players else ""] and
    [existing_players[1] if len(existing_players) > 1 else ""]. *)
Definition default_player_a (st : session_state) : string :=
  match existing_players st with
  | name :: _ => name
  | [] => EmptyString
  end.

Definition default_player_b (st : session_state) : string :=
  match existing_players st with
  | _ :: name :: _ => name
  | _ => EmptyString
  end.

(** ** Sample values of the C library *)

(** [pow(10.0, y)] as the GNU C library returns it for the three exponents
    the examples below reach, [-0.08], [-25.0] and [25.0]; [1.0] stands
    for the other exponents, which no example reaches. *)
Definition libm_pow_sample (x y : float) : float :=
  if F64.eqb y (S754_finite true 5764607523034235 (-56))
  then S754_finite false 7491862019196535 (-53)
  else if F64.eqb y (S754_finite true 7036874417766400 (-48))
  then S754_finite false 8711228593176025 (-136)
  else if F64.eqb y (S754_finite false 7036874417766400 (-48))
  then S754_finite false 4656612873077393 31
  else F64.one.

(** ** Sample text operations *)

(** [str.strip] and [str.lower] on the strings of the examples, which are
    ASCII: the characters 9 to 13 and 28 to 32 are white space, and the
    letters [A] to [Z] are lowered. *)
Definition is_space (c : Ascii.ascii) : bool :=
  let n := Ascii.nat_of_ascii c in
  ((9 <=? n) && (n <=? 13) || (28 <=? n) && (n <=? 32))%nat.

Fixpoint lstrip (s : string) : string :=
  match s with
  | String c s' => if is_space c then lstrip s' else s
  | EmptyString => EmptyString
  end.

Fixpoint rstrip (s : string) : string :=
  match s with
  | String c s' =>
      match rstrip s' with
      | EmptyString => if is_space c then EmptyString else String c EmptyString
      | r => String c r
      end
  | EmptyString => EmptyString
  end.

Definition ascii_strip (s : string) : string := rstrip (lstrip s).

Definition lower_char (c : Ascii.ascii) : Ascii.ascii :=
  let n := Ascii.nat_of_ascii c in
  if ((65 <=? n) && (n <=? 90))%nat then Ascii.ascii_of_nat (n + 32) else c.

Fixpoint ascii_lower (s : string) : string :=
  match s with
  | String c s' => String (lower_char c) (ascii_lower s')
  | EmptyString => EmptyString
  end.

(** ** Notions of the statements and of the proofs *)

(** The registry after [get_or_create_player]. *)
Definition create (name : string) (d : registry) : registry :=
  if mem name d then d else store name new_player d.

(** [f] applied to the entry of [name], when there is one. *)
Definition modify (name : string) (f : player -> player) (d : registry) : registry :=
  match lookup name d with
  | Some p => store name (f p) d
  | None => d
  end.

(** The registry after the six assignments of [update_elo]. *)
Definition after_match (winner loser : string) (new_ra new_rb : float)
           (d : registry) : registry :=
  modify loser incr_games
    (modify loser incr_losses
       (modify winner incr_games
          (modify winner incr_wins
             (modify loser (set_rating new_rb)
                (modify winner (set_rating new_ra) d))))).

(** The player a name stands for when [update_elo] starts: the registered
    one, or a new one. *)
Definition player_or_new (name : string) (d : registry) : player :=
  match lookup name d with
  | Some p => p
  | None => new_player
  end.

(** A player after a win and after a loss. *)
Definition won (new_rating : float) (p : player) : player :=
  mkPlayer new_rating (wins p + 1) (losses p) (games p + 1).

Definition lost (new_rating : float) (p : player) : player :=
  mkPlayer new_rating (wins p) (losses p + 1) (games p + 1).

(** [a] is the negative of [b]: the same float with the sign flipped (NaN
    for NaN), or the two are zeros. *)
Definition negative_of (a b : float) : Prop :=
  a = F64.opp b \/ (F64.is_zero a = true /\ F64.is_zero b = true).

(** The counters of a player are consistent. *)
Definition counters_ok (p : player) : Prop :=
  games p = wins p + losses p /\ 0 <= wins p /\ 0 <= losses p /\ 0 <= games p.

(** Every name has one entry, and every entry has consistent counters. *)
Definition registry_ok (d : registry) : Prop :=
  NoDup (map fst d) /\ forall name p, lookup name d = Some p -> counters_ok p.

(** A float that is not NaN has a place in the lexicographic order of
    triples of integers: the class first, then exponent and mantissa. *)
Definition float_rank (x : float) : Z * Z * Z :=
  match x with
  | S754_infinity true => (-2, 0, 0)
  | S754_finite true m e => (-1, - e, - Zpos m)
  | S754_zero _ => (0, 0, 0)
  | S754_nan => (0, 0, 0)
  | S754_finite false m e => (1, e, Zpos m)
  | S754_infinity false => (2, 0, 0)
  end.

(** The lexicographic comparison of triples. *)
Definition lex3 (a b : Z * Z * Z) : comparison :=
  let '(a1, a2, a3) := a in
  let '(b1, b2, b3) := b in
  match a1 ?= b1 with
  | Eq => match a2 ?= b2 with
          | Eq => a3 ?= b3
          | c => c
          end
  | c => c
  end.

(** The order of the sort keys of two rows, on integers. *)
Definition row_rank (r : row) : Z * Z * Z * Z * Z :=
  let '(c, e, m) := float_rank (r_rating r) in (c, e, m, r_wins r, - r_losses r).

(** The strict lexicographic order of the ranks of rows. *)
Definition lex5_lt (a b : Z * Z * Z * Z * Z) : Prop :=
  let '(a1, a2, a3, a4, a5) := a in
  let '(b1, b2, b3, b4, b5) := b in
  a1 < b1 \/ (a1 = b1 /\ (a2 < b2 \/ (a2 = b2 /\ (a3 < b3 \/ (a3 = b3 /\
    (a4 < b4 \/ (a4 = b4 /\ a5 < b5))))))).

(** What the sort guarantees of a row [x] placed before a row [y]. *)
Definition ranks_before (x y : row) : Prop :=
  F64.ltb (r_rating y) (r_rating x) = true
  \/ (F64.eqb (r_rating x) (r_rating y) = true /\ r_wins y < r_wins x)
  \/ (F64.eqb (r_rating x) (r_rating y) = true /\ r_wins x = r_wins y
      /\ r_losses x <= r_losses y).

(** Sorted upwards and downwards for a strict order given as a boolean
    test: no element is below an earlier one, no element is above an
    earlier one. *)
Definition ascending {A : Type} (lt : A -> A -> bool) : list A -> Prop :=
  StronglySorted (fun a b => lt b a = false).

Definition descending {A : Type} (lt : A -> A -> bool) : list A -> Prop :=
  StronglySorted (fun a b => lt a b = false).

(** The powers of two, as reals. *)
Definition bpow (e : Z) : R := powerRZ 2 e.

(** The value of a mantissa and an exponent. *)
Definition F2R (m e : Z) : R := (IZR m * bpow e)%R.

(** The record [mrs] locates the real [x]: its mantissa is the integer part
    of [x], and its two bits are clear exactly when [x] is that integer. *)
Definition located (mrs : shr_record) (x : R) : Prop :=
  (IZR (shr_m mrs) <= x < IZR (shr_m mrs) + 1)%R
  /\ (loc_of_shr_record mrs = loc_Exact <-> x = IZR (shr_m mrs)).

(** A mantissa and an exponent of the format. *)
Definition canonical (m : positive) (e : Z) : Prop :=
  fexp F64.prec F64.emax (Zdigits2 (Zpos m) + e) = e /\ e <= 971.

(** A result of sign [s] whose magnitude is at most, or at least, [b]. *)
Definition at_most (s : bool) (r : float) (b : R) : Prop :=
  r = S754_zero s
  \/ exists m e, r = S754_finite s m e /\ canonical m e /\ (F2R (Zpos m) e <= b)%R.

Definition at_least (s : bool) (r : float) (b : R) : Prop :=
  r = S754_infinity s
  \/ exists m e, r = S754_finite s m e /\ canonical m e /\ (b <= F2R (Zpos m) e)%R.

(** A float that is not negative and not NaN. *)
Definition nonneg (x : float) : Prop :=
  x = S754_zero false \/ x = S754_infinity false
  \/ exists m e, x = S754_finite false m e /\ canonical m e.

(** Every rating of the registry is a float of the format. *)
Definition ratings_valid (d : registry) : Prop :=
  forall name p, In (name, p) d -> F64.valid (rating p) = true.

(** The largest K-factor a float can hold. *)
Definition k_max : Z := 2 ^ 1024 - 2 ^ 971.

(** Three matches among four new players: [a] beats [b], [c] beats [d],
    then [a] beats [c]. *)
Definition bracket (a b c d : string) : list call :=
  [mkCall "day 1" a b k_max; mkCall "day 1" c d k_max; mkCall "day 2" a c k_max].

(** Fifteen matches at the K-factor [k_max] after which the players "A"
    and "I" have met at rating [inf] each. *)
Definition overflowing_session : list call :=
  bracket "A" "B" "C" "D" ++ bracket "E" "F" "G" "H" ++ [mkCall "day 3" "A" "E" k_max]
  ++ bracket "I" "J" "K" "L" ++ bracket "M" "N" "O" "P" ++ [mkCall "day 3" "I" "M" k_max]
  ++ [mkCall "day 4" "A" "I" k_max].

(** The number of logged matches a name won, and the number it lost. *)
Definition won_by (name : string) (log : list match_record) : Z :=
  Z.of_nat (List.length (filter (fun m => String.eqb (m_winner m) name) log)).

Definition lost_by (name : string) (log : list match_record) : Z :=
  Z.of_nat (List.length (filter (fun m => String.eqb (m_loser m) name) log)).

(** A logged match is between two different registered players. *)
Definition match_ok (d : registry) (m : match_record) : Prop :=
  m_winner m <> m_loser m /\ mem (m_winner m) d = true /\ mem (m_loser m) d = true.

(** The registry and the match log tell the same story: every counter is
    the number of logged matches it stands for. *)
Definition ledger_ok (st : session_state) : Prop :=
  registry_ok (players st)
  /\ Forall (match_ok (players st)) (matches st)
  /\ forall name p, lookup name (players st) = Some p ->
       wins p = won_by name (matches st) /\ losses p = lost_by name (matches st).

(** The value a dict built from [items] holds for [key]: that of the last
    item with that key. *)
Fixpoint last_value {V : Type} (key : string) (items : list (string * V)) : option V :=
  match items with
  | [] => None
  | (k, v) :: items' =>
      match last_value key items' with
      | Some v' => Some v'
      | None => if String.eqb key k then Some v else None
      end
  end.

(** No registered name is the empty string. *)
Definition names_ok (st : session_state) : Prop :=
  forall name, mem name (players st) = true -> name <> EmptyString.

(** Two elements neither of which is below the other. *)
Definition tied {A : Type} (lt : A -> A -> bool) (x y : A) : bool :=
  negb (lt x y) && negb (lt y x).

(** The rows that show the rating, the wins and the losses of [x]. *)
Definition same_key (x y : row) : bool :=
  F64.eqb (r_rating y) (r_rating x) && Z.eqb (r_wins y) (r_wins x)
  && Z.eqb (r_losses y) (r_losses x).

(** A finite float of the format whose magnitude is at most [b]. *)
Definition within (r : float) (b : R) : Prop := exists s, at_most s r b.

(** Every rating of the registry is within [b]. *)
Definition ratings_within (b : R) (d : registry) : Prop :=
  forall name p, lookup name d = Some p -> within (rating p) b.

(** Every registered name is a stripped name. *)
Definition names_stripped (strip : string -> string) (st : session_state) : Prop :=
  forall name, mem name (players st) = true -> strip name = name.

(** * Properties *)

(** ** The registry *)

Lemma lookup_store_same (name : string) (p : player) (d : registry) :
  lookup name (store name p d) = Some p.
Proof.
  induction d as [|[n q] d IH]; simpl.
  - now rewrite String.eqb_refl.
  - destruct (String.eqb name n) eqn:E; simpl; rewrite E; auto.
Qed.

Lemma lookup_store_other (name name' : string) (p : player) (d : registry) :
  name <> name' -> lookup name' (store name p d) = lookup name' d.
Proof.
  intros Hne. induction d as [|[n q] d IH]; simpl.
  - destruct (String.eqb name' name) eqn:E; auto.
    apply String.eqb_eq in E. congruence.
  - destruct (String.eqb name n) eqn:E; simpl.
    + apply String.eqb_eq in E. subst n.
      destruct (String.eqb name' name) eqn:E'; auto.
      apply String.eqb_eq in E'. congruence.
    + now rewrite IH.
Qed.

Lemma lookup_store (name name' : string) (p : player) (d : registry) :
  lookup name' (store name p d) =
  if String.eqb name name' then Some p else lookup name' d.
Proof.
  destruct (String.eqb name name') eqn:E.
  - apply String.eqb_eq in E. subst. apply lookup_store_same.
  - apply String.eqb_neq in E. now apply lookup_store_other.
Qed.

Lemma lookup_In (name : string) (p : player) (d : registry) :
  lookup name d = Some p -> In (name, p) d.
Proof.
  induction d as [|[n q] d IH]; simpl; [discriminate|].
  destruct (String.eqb name n) eqn:E.
  - apply String.eqb_eq in E. intros [= ->]. subst. now left.
  - auto.
Qed.

(** Storing keeps every other item, and the stored one is the new value. *)
Lemma In_store (name : string) (p : player) (d : registry) (x : string * player) :
  In x (store name p d) -> x = (name, p) \/ In x d.
Proof.
  induction d as [|[n q] d IH]; simpl.
  - intros [<-|[]]. now left.
  - destruct (String.eqb name n) eqn:E; simpl.
    + apply String.eqb_eq in E. subst n. intros [<-|H]; auto.
    + intros [<-|H]; auto. destruct (IH H); auto.
Qed.

Lemma with_players_id (st : session_state) : with_players (players st) st = st.
Proof. now destruct st. Qed.

Lemma with_players_twice (d d' : registry) (st : session_state) :
  with_players d (with_players d' st) = with_players d st.
Proof. reflexivity. Qed.

Lemma get_or_create_player_eq (name : string) (st : session_state) :
  get_or_create_player name st = (with_players (create name (players st)) st, Ok tt).
Proof.
  unfold get_or_create_player, create.
  destruct (mem name (players st)); [now rewrite with_players_id | reflexivity].
Qed.

Lemma modify_player_eq (name : string) (f : player -> player) (st : session_state) :
  modify_player name f st =
  match lookup name (players st) with
  | Some _ => (with_players (modify name f (players st)) st, Ok tt)
  | None => (st, Raise (KeyError name))
  end.
Proof.
  unfold modify_player, bind, get_player, modify.
  now destruct (lookup name (players st)).
Qed.

Lemma lookup_create (name name' : string) (d : registry) :
  lookup name' (create name d) =
  match lookup name' d with
  | Some p => Some p
  | None => if String.eqb name name' then Some new_player else None
  end.
Proof.
  unfold create, mem.
  destruct (lookup name d) eqn:L.
  - destruct (lookup name' d) eqn:L'; auto.
    destruct (String.eqb name name') eqn:E; auto.
    apply String.eqb_eq in E. congruence.
  - rewrite lookup_store.
    destruct (String.eqb name name') eqn:E.
    + apply String.eqb_eq in E. subst. now rewrite L.
    + now destruct (lookup name' d).
Qed.

Lemma lookup_modify (name name' : string) (f : player -> player) (d : registry) :
  lookup name' (modify name f d) =
  if String.eqb name name' then option_map f (lookup name' d) else lookup name' d.
Proof.
  unfold modify.
  destruct (lookup name d) eqn:L.
  - rewrite lookup_store.
    destruct (String.eqb name name') eqn:E; auto.
    apply String.eqb_eq in E. subst. now rewrite L.
  - destruct (String.eqb name name') eqn:E; auto.
    apply String.eqb_eq in E. subst. now rewrite L.
Qed.

Lemma In_create (name : string) (d : registry) (x : string * player) :
  In x (create name d) -> x = (name, new_player) \/ In x d.
Proof.
  unfold create. destruct (mem name d); auto. apply In_store.
Qed.

Lemma In_modify (name : string) (f : player -> player) (d : registry)
      (x : string * player) :
  In x (modify name f d) -> (exists p, In (name, p) d /\ x = (name, f p)) \/ In x d.
Proof.
  unfold modify. destruct (lookup name d) eqn:L; auto.
  intros H. apply In_store in H. destruct H as [->|H]; auto.
  left. exists p. split; auto. now apply lookup_In.
Qed.

Lemma mem_modify (name name' : string) (f : player -> player) (d : registry) :
  mem name' (modify name f d) = mem name' d.
Proof.
  unfold mem. rewrite lookup_modify.
  destruct (String.eqb name name'); auto. now destruct (lookup name' d).
Qed.

Lemma mem_create_same (name : string) (d : registry) : mem name (create name d) = true.
Proof.
  unfold mem. rewrite lookup_create, String.eqb_refl. now destruct (lookup name d).
Qed.

Lemma mem_create (name name' : string) (d : registry) :
  mem name' d = true -> mem name' (create name d) = true.
Proof.
  unfold mem. rewrite lookup_create. now destruct (lookup name' d).
Qed.

Lemma modify_player_mem (name : string) (f : player -> player) (st : session_state) :
  mem name (players st) = true ->
  modify_player name f st = (with_players (modify name f (players st)) st, Ok tt).
Proof.
  intros H. rewrite modify_player_eq. unfold mem in H.
  now destruct (lookup name (players st)).
Qed.

(** ** [update_elo] in closed form *)

Section EloFacts.

Variable libm_pow : float -> float -> float.

Lemma update_elo_eq (winner loser : string) (k_factor : Z) (st : session_state) :
  let d := create loser (create winner (players st)) in
  exists pw pl,
    lookup winner d = Some pw /\ lookup loser d = Some pl /\
    update_elo libm_pow winner loser k_factor st =
    match rating_deltas libm_pow (rating pw) (rating pl) k_factor with
    | Ok (delta_w, delta_l) =>
        let new_ra := F64.add (rating pw) delta_w in
        let new_rb := F64.add (rating pl) delta_l in
        (with_players (after_match winner loser new_ra new_rb d) st,
         Ok (new_ra, new_rb, delta_w))
    | Raise e => (with_players d st, Raise e)
    end.
Proof.
  intros d.
  assert (Mw : mem winner d = true) by (apply mem_create, mem_create_same).
  assert (Ml : mem loser d = true) by apply mem_create_same.
  destruct (lookup winner d) as [pw|] eqn:Lw; [|unfold mem in Mw; now rewrite Lw in Mw].
  destruct (lookup loser d) as [pl|] eqn:Ll; [|unfold mem in Ml; now rewrite Ll in Ml].
  exists pw, pl. repeat split.
  unfold update_elo, bind.
  rewrite get_or_create_player_eq.
  rewrite get_or_create_player_eq. cbn [players with_players].
  fold d. unfold get_player. cbn [players with_players].
  rewrite Lw. cbn [players with_players]. rewrite Ll. unfold lift.
  destruct (rating_deltas libm_pow (rating pw) (rating pl) k_factor) as [[dw dl]|e];
    [|reflexivity].
  cbn [fst snd].
  repeat (rewrite modify_player_mem;
          [|cbn [players with_players]; rewrite ?mem_modify; assumption]).
  reflexivity.
Qed.

End EloFacts.

Lemma lookup_created (winner loser name : string) (d : registry) :
  lookup name (create loser (create winner d)) =
  if String.eqb winner name || String.eqb loser name
  then Some (player_or_new name d) else lookup name d.
Proof.
  rewrite !lookup_create. unfold player_or_new.
  destruct (lookup name d); [now destruct (_ || _)|].
  now destruct (String.eqb winner name), (String.eqb loser name).
Qed.

Lemma after_match_lookup (winner loser name : string) (new_ra new_rb : float)
      (d : registry) :
  winner <> loser ->
  lookup name (after_match winner loser new_ra new_rb d) =
  if String.eqb winner name then option_map (won new_ra) (lookup name d)
  else if String.eqb loser name then option_map (lost new_rb) (lookup name d)
  else lookup name d.
Proof.
  intros Hne. unfold after_match. rewrite !lookup_modify.
  destruct (String.eqb winner name) eqn:Ew, (String.eqb loser name) eqn:El;
    try reflexivity.
  - apply String.eqb_eq in Ew, El. congruence.
  - now destruct (lookup name d).
  - now destruct (lookup name d).
Qed.

Section MatchFacts.

Variable libm_pow : float -> float -> float.

(** [record_match] in closed form, for two different names. *)
Lemma record_match_eq (now winner loser : string) (k_factor : Z) (st : session_state) :
  winner <> loser ->
  let pw := player_or_new winner (players st) in
  let pl := player_or_new loser (players st) in
  let d := create loser (create winner (players st)) in
  record_match libm_pow now winner loser k_factor st =
  match rating_deltas libm_pow (rating pw) (rating pl) k_factor with
  | Ok (delta_w, delta_l) =>
      let new_ra := F64.add (rating pw) delta_w in
      let new_rb := F64.add (rating pl) delta_l in
      (mkState (after_match winner loser new_ra new_rb d)
               (mkMatch now winner loser (round1 delta_w) k_factor :: matches st)
               (default_k st) (authed st) (auth_user st),
       Ok (new_ra, new_rb, delta_w))
  | Raise e => (with_players d st, Raise e)
  end.
Proof.
  intros Hne pw pl d.
  destruct (update_elo_eq libm_pow winner loser k_factor st) as (pw' & pl' & Lw & Ll & E).
  fold d in Lw, Ll, E.
  assert (pw' = pw).
  { unfold d in Lw. rewrite lookup_created, String.eqb_refl in Lw. simpl in Lw. unfold pw. congruence. }
  assert (pl' = pl).
  { unfold d in Ll. rewrite lookup_created, String.eqb_refl, orb_true_r in Ll. cbn iota in Ll. unfold pl. congruence. }
  subst pw' pl'.
  unfold record_match, bind. rewrite E.
  destruct (rating_deltas libm_pow (rating pw) (rating pl) k_factor) as [[dw dl]|e];
    reflexivity.
Qed.

End MatchFacts.

(** ** The rating changes *)

Lemma store_absent (name : string) (p : player) (d : registry) :
  lookup name d = None -> store name p d = d ++ [(name, p)].
Proof.
  induction d as [|[n q] d IH]; simpl; auto.
  destruct (String.eqb name n); [discriminate|].
  intros H. now rewrite IH.
Qed.

Lemma rating_deltas_eq (libm_pow : float -> float -> float) (ra rb : float) (k : Z) :
  rating_deltas libm_pow ra rb k =
  try y <- float_truediv (F64.sub rb ra) F64.f400 ;
  try p <- pow_ten libm_pow y ;
  try ea <- float_truediv F64.one (F64.add F64.one p) ;
  try kf <- float_of_int k ;
  Ok (F64.mul kf (F64.sub F64.one ea),
      F64.mul kf (F64.sub F64.zero (F64.sub F64.one ea))).
Proof.
  unfold rating_deltas, expected_score, rbind.
  destruct (float_truediv (F64.sub rb ra) F64.f400); auto.
  destruct (pow_ten libm_pow a); auto.
  destruct (float_truediv F64.one (F64.add F64.one a0)); auto.
  now destruct (float_of_int k).
Qed.

Lemma rating_deltas_equal_ratings (libm_pow : float -> float -> float) :
  rating_deltas libm_pow F64.f1200 F64.f1200 32 = Ok (F64.of_Z 16, F64.of_Z (-16)).
Proof. reflexivity. Qed.

(** ** Zero-sum update *)

(** The rounding of a product does not look at the sign. *)
Lemma binary_round_aux_opp (s : bool) (m e : Z) (l : location) :
  binary_round_aux F64.prec F64.emax (negb s) m e l =
  F64.opp (binary_round_aux F64.prec F64.emax s m e l).
Proof.
  unfold binary_round_aux.
  destruct (shr_fexp F64.prec F64.emax m e l) as [mrs' e'].
  destruct (shr_fexp F64.prec F64.emax _ e' loc_Exact) as [mrs'' e''].
  destruct (shr_m mrs''); try reflexivity.
  now destruct (e'' <=? F64.emax - F64.prec).
Qed.

Lemma mul_sub_zero (k x : float) :
  negative_of (F64.mul k (F64.sub F64.zero x)) (F64.mul k x).
Proof.
  unfold negative_of, F64.mul, F64.sub, F64.zero.
  destruct x as [sx|sx| |sx mx ex], k as [sk|sk| |sk mk ek];
    try (left; reflexivity);
    try (right; destruct sx; split; reflexivity);
    try (left; destruct sx, sk; reflexivity).
  left. simpl. rewrite <- binary_round_aux_opp. f_equal. now destruct sk, sx.
Qed.

(** Python's [==] on the two deltas: true unless they are NaN. *)
Lemma negative_of_eqb (a b : float) :
  negative_of a b -> F64.eqb b (F64.opp a) = negb (F64.is_nan b).
Proof.
  intros [->|[Za Zb]].
  - destruct b as [s|s| |s m e]; try reflexivity.
    + now destruct s.
    + unfold F64.eqb, SFeqb, F64.opp. simpl. rewrite Bool.negb_involutive.
      destruct s; rewrite Z.compare_refl, Pos.compare_cont_refl; reflexivity.
  - destruct a, b; try discriminate. reflexivity.
Qed.

(** ** Counters *)

Lemma lookup_None_not_In (name : string) (d : registry) :
  lookup name d = None -> ~ In name (map fst d).
Proof.
  induction d as [|[n q] d IH]; simpl; auto.
  destruct (String.eqb name n) eqn:E; [discriminate|].
  apply String.eqb_neq in E. intros H [F|F]; [congruence | now apply IH].
Qed.

Lemma In_lookup (name : string) (p : player) (d : registry) :
  NoDup (map fst d) -> In (name, p) d -> lookup name d = Some p.
Proof.
  induction d as [|[n q] d IH]; simpl; [tauto|].
  intros ND [H|H].
  - injection H as -> ->. now rewrite String.eqb_refl.
  - inversion ND as [|? ? Hn ND']; subst.
    destruct (String.eqb name n) eqn:E; auto.
    apply String.eqb_eq in E. subst n.
    exfalso. apply Hn. now apply (in_map fst) in H.
Qed.

Lemma map_fst_store (name : string) (p : player) (d : registry) :
  map fst (store name p d) =
  if mem name d then map fst d else map fst d ++ [name].
Proof.
  unfold mem. induction d as [|[n q] d IH]; simpl; auto.
  destruct (String.eqb name n) eqn:E; simpl; auto.
  rewrite IH. now destruct (lookup name d).
Qed.

Lemma NoDup_store (name : string) (p : player) (d : registry) :
  NoDup (map fst d) -> NoDup (map fst (store name p d)).
Proof.
  intros ND. rewrite map_fst_store. unfold mem.
  destruct (lookup name d) eqn:L; auto.
  apply NoDup_app; auto.
  - repeat constructor. simpl. tauto.
  - intros x Hx [<-|[]]. now apply lookup_None_not_In in L.
Qed.

Lemma NoDup_create (name : string) (d : registry) :
  NoDup (map fst d) -> NoDup (map fst (create name d)).
Proof. unfold create. destruct (mem name d); auto using NoDup_store. Qed.

Lemma NoDup_modify (name : string) (f : player -> player) (d : registry) :
  NoDup (map fst d) -> NoDup (map fst (modify name f d)).
Proof. unfold modify. destruct (lookup name d); auto using NoDup_store. Qed.

Lemma NoDup_after_match (winner loser : string) (ra rb : float) (d : registry) :
  NoDup (map fst d) -> NoDup (map fst (after_match winner loser ra rb d)).
Proof. unfold after_match. auto 10 using NoDup_modify. Qed.

Lemma counters_ok_new : counters_ok new_player.
Proof. unfold counters_ok. simpl. lia. Qed.

Lemma counters_ok_won (r : float) (p : player) : counters_ok p -> counters_ok (won r p).
Proof. unfold counters_ok. simpl. lia. Qed.

Lemma counters_ok_lost (r : float) (p : player) : counters_ok p -> counters_ok (lost r p).
Proof. unfold counters_ok. simpl. lia. Qed.

Lemma registry_ok_created (winner loser : string) (d : registry) :
  registry_ok d -> registry_ok (create loser (create winner d)).
Proof.
  intros [ND H]. split; [auto using NoDup_create|].
  intros name p. rewrite lookup_created. unfold player_or_new.
  destruct (_ || _); [|apply H].
  destruct (lookup name d) eqn:L; intros [= <-]; eauto using counters_ok_new.
Qed.

Section Invariant.

Variable libm_pow : float -> float -> float.

Lemma record_match_registry_ok (c : call) (st : session_state) :
  c_winner c <> c_loser c ->
  registry_ok (players st) ->
  registry_ok
    (players (fst (record_match libm_pow (c_time c) (c_winner c) (c_loser c) (c_k c) st))).
Proof.
  intros Hne Hok. rewrite record_match_eq by assumption.
  pose proof (registry_ok_created (c_winner c) (c_loser c) _ Hok) as [ND H].
  destruct (rating_deltas _ _ _ _) as [[dw dl]|e]; cbn [fst players]; [|now split].
  split; [auto using NoDup_after_match|].
  intros name p. rewrite after_match_lookup by assumption.
  destruct (String.eqb (c_winner c) name); [|destruct (String.eqb (c_loser c) name)].
  - destruct (lookup name _) eqn:L; intros [= <-]. eauto using counters_ok_won.
  - destruct (lookup name _) eqn:L; intros [= <-]. eauto using counters_ok_lost.
  - apply H.
Qed.

Lemma run_registry_ok (calls : list call) (st : session_state) :
  Forall (fun c => c_winner c <> c_loser c) calls ->
  registry_ok (players st) ->
  registry_ok (players (run libm_pow calls st)).
Proof.
  intros Hcalls. revert st.
  induction Hcalls as [|c calls Hc _ IH]; intros st Hok; simpl; auto.
  apply IH. now apply record_match_registry_ok.
Qed.

End Invariant.

(** ** The match log *)

Lemma update_elo_matches (libm_pow : float -> float -> float)
      (winner loser : string) (k_factor : Z) (st : session_state) :
  matches (fst (update_elo libm_pow winner loser k_factor st)) = matches st.
Proof.
  destruct (update_elo_eq libm_pow winner loser k_factor st) as (pw & pl & _ & _ & E).
  rewrite E. now destruct (rating_deltas _ _ _ _) as [[dw dl]|e].
Qed.

(** ** New players *)

Lemma rating_deltas_new_players (libm_pow : float -> float -> float) (k_factor : Z) :
  rating_deltas libm_pow F64.f1200 F64.f1200 k_factor =
  try k <- float_of_int k_factor ;
  Ok (F64.mul k F64.half, F64.mul k (F64.opp F64.half)).
Proof. rewrite rating_deltas_eq. reflexivity. Qed.

(** ** The order of floats *)

Lemma SFcompare_rank (x y : float) :
  F64.is_nan x = false -> F64.is_nan y = false ->
  SFcompare x y = Some (lex3 (float_rank x) (float_rank y)).
Proof.
  destruct x as [sx|sx| |sx mx ex], y as [sy|sy| |sy my ey];
    try discriminate; intros _ _;
    try (destruct sx, sy; reflexivity).
  destruct sx, sy; try reflexivity; unfold SFcompare, float_rank, lex3.
  change (-1 ?= -1) with Eq. cbv iota.
  rewrite !Z.compare_opp, (Z.compare_antisym ex ey).
  destruct (ex ?= ey); try reflexivity.
  cbn [CompOpp]. change (Z.pos my ?= Z.pos mx) with (Pos.compare my mx).
  now rewrite (Pos.compare_antisym mx my).
Qed.

Lemma lex3_Eq (a1 a2 a3 b1 b2 b3 : Z) :
  lex3 (a1, a2, a3) (b1, b2, b3) = Eq <-> a1 = b1 /\ a2 = b2 /\ a3 = b3.
Proof.
  unfold lex3.
  destruct (Z.compare_spec a1 b1), (Z.compare_spec a2 b2), (Z.compare_spec a3 b3);
    split; intros K; try discriminate; try reflexivity; lia.
Qed.

Lemma lex3_Lt (a1 a2 a3 b1 b2 b3 : Z) :
  lex3 (a1, a2, a3) (b1, b2, b3) = Lt <->
  a1 < b1 \/ (a1 = b1 /\ (a2 < b2 \/ (a2 = b2 /\ a3 < b3))).
Proof.
  unfold lex3.
  destruct (Z.compare_spec a1 b1), (Z.compare_spec a2 b2), (Z.compare_spec a3 b3);
    split; intros K; try discriminate; try reflexivity; lia.
Qed.

Lemma row_lt_rank (x y : row) :
  F64.is_nan (r_rating x) = false -> F64.is_nan (r_rating y) = false ->
  row_lt x y = true <-> lex5_lt (row_rank x) (row_rank y).
Proof.
  intros Nx Ny. unfold row_lt, sort_key, key_lt, row_rank, F64.eqb, F64.ltb, SFeqb, SFltb.
  rewrite (SFcompare_rank _ _ Nx Ny).
  destruct (float_rank (r_rating x)) as [[a1 a2] a3].
  destruct (float_rank (r_rating y)) as [[b1 b2] b3].
  unfold lex5_lt.
  pose proof (lex3_Eq a1 a2 a3 b1 b2 b3) as HE.
  pose proof (lex3_Lt a1 a2 a3 b1 b2 b3) as HL.
  destruct (lex3 (a1, a2, a3) (b1, b2, b3)); cbn [negb].
  - destruct HE as [HE _]. specialize (HE eq_refl).
    destruct (Z.eqb_spec (r_wins x) (r_wins y)); cbn [negb]; rewrite Z.ltb_lt; lia.
  - destruct HL as [HL _]. specialize (HL eq_refl). split; [intros _; lia | reflexivity].
  - split; [discriminate|]. intros H.
    assert (Lt = Eq \/ Lt = Gt -> False) by (intros [?|?]; discriminate).
    destruct HE as [_ HE], HL as [_ HL].
    assert (~ (a1 = b1 /\ a2 = b2 /\ a3 = b3)) by (intros K; specialize (HE K); discriminate).
    assert (~ (a1 < b1 \/ a1 = b1 /\ (a2 < b2 \/ a2 = b2 /\ a3 < b3)))
      by (intros K; specialize (HL K); discriminate).
    lia.
Qed.

Lemma lex5_lt_trans (a b c : Z * Z * Z * Z * Z) :
  lex5_lt a b -> lex5_lt b c -> lex5_lt a c.
Proof.
  destruct a as [[[[a1 a2] a3] a4] a5], b as [[[[b1 b2] b3] b4] b5],
           c as [[[[c1 c2] c3] c4] c5].
  unfold lex5_lt. lia.
Qed.

Lemma lex5_lt_asym (a b : Z * Z * Z * Z * Z) : lex5_lt a b -> ~ lex5_lt b a.
Proof.
  destruct a as [[[[a1 a2] a3] a4] a5], b as [[[[b1 b2] b3] b4] b5].
  unfold lex5_lt. lia.
Qed.

(** ** Sorting *)

Section Sorting.

Context {A : Type}.
Variable lt : A -> A -> bool.

(** The elements the order is well behaved on. *)
Variable dom : A -> Prop.
Hypothesis lt_trans :
  forall x y z, dom x -> dom y -> dom z -> lt x y = true -> lt y z = true -> lt x z = true.
Hypothesis lt_asym :
  forall x y, dom x -> dom y -> lt x y = true -> lt y x = false.

Lemma insert_sorted_perm (x : A) (l : list A) :
  Permutation (insert_sorted lt x l) (x :: l).
Proof.
  induction l as [|y l IH]; simpl; auto.
  destruct (lt x y); auto.
  rewrite IH. apply perm_swap.
Qed.

Lemma stable_sort_perm_acc (l acc : list A) :
  Permutation (fold_left (fun acc x => insert_sorted lt x acc) l acc) (acc ++ l).
Proof.
  revert acc. induction l as [|x l IH]; intros acc; simpl.
  - now rewrite app_nil_r.
  - rewrite IH, insert_sorted_perm. apply Permutation_middle.
Qed.

Lemma stable_sort_perm (l : list A) : Permutation (stable_sort lt l) l.
Proof. apply (stable_sort_perm_acc l []). Qed.

Lemma sort_reverse_perm (l : list A) : Permutation (sort_reverse lt l) l.
Proof.
  unfold sort_reverse.
  rewrite <- Permutation_rev, stable_sort_perm. symmetry. apply Permutation_rev.
Qed.

Lemma insert_sorted_ascending (x : A) (l : list A) :
  dom x -> Forall dom l -> ascending lt l -> ascending lt (insert_sorted lt x l).
Proof.
  intros Dx Dl Hl. induction Hl as [|y l Hl IH Hy]; simpl.
  - repeat constructor.
  - inversion Dl as [|? ? Dy Dl']; subst.
    destruct (lt x y) eqn:E.
    + constructor; [now constructor|].
      constructor; [now apply lt_asym|].
      rewrite Forall_forall in Hy, Dl' |- *. intros z Hz.
      destruct (lt z x) eqn:F; auto.
      rewrite <- (Hy z Hz). symmetry. apply (lt_trans z x y); auto.
    + constructor; [exact (IH Dl')|].
      rewrite Forall_forall in Hy |- *. intros z Hz.
      apply (Permutation_in _ (insert_sorted_perm x l)) in Hz.
      destruct Hz as [<-|Hz]; auto.
Qed.

Lemma stable_sort_ascending_acc (l acc : list A) :
  Forall dom l -> Forall dom acc -> ascending lt acc ->
  ascending lt (fold_left (fun acc x => insert_sorted lt x acc) l acc).
Proof.
  intros Dl. revert acc. induction Dl as [|x l Dx Dl IH]; intros acc Dacc Hacc; simpl; auto.
  apply IH.
  - apply (Permutation_Forall (Permutation_sym (insert_sorted_perm x acc))). now constructor.
  - now apply insert_sorted_ascending.
Qed.

Lemma StronglySorted_snoc (R : A -> A -> Prop) (l : list A) (x : A) :
  StronglySorted R l -> Forall (fun y => R y x) l -> StronglySorted R (l ++ [x]).
Proof.
  induction 1 as [|y l Hl IH Hy]; intros Hx; simpl.
  - repeat constructor.
  - inversion Hx; subst. constructor; auto.
    apply Forall_app. split; auto.
Qed.

Lemma ascending_rev (l : list A) : ascending lt l -> descending lt (rev l).
Proof.
  induction 1 as [|x l Hl IH Hx]; simpl; [constructor|].
  apply StronglySorted_snoc; auto.
  apply (Permutation_Forall (Permutation_rev l)), Hx.
Qed.

Lemma sort_reverse_descending (l : list A) :
  Forall dom l -> descending lt (sort_reverse lt l).
Proof.
  intros Dl. apply ascending_rev, stable_sort_ascending_acc.
  - apply (Permutation_Forall (Permutation_rev l)), Dl.
  - constructor.
  - constructor.
Qed.

End Sorting.

Lemma StronglySorted_nth_error {A : Type} (R : A -> A -> Prop) (l : list A) :
  StronglySorted R l ->
  forall i j x y, (i < j)%nat -> nth_error l i = Some x -> nth_error l j = Some y -> R x y.
Proof.
  induction 1 as [|a l Hl IH Ha]; intros i j x y Hij Hi Hj.
  - now destruct i.
  - destruct j as [|j]; [lia|]. simpl in Hj.
    destruct i as [|i]; simpl in Hi.
    + injection Hi as <-. rewrite Forall_forall in Ha. apply Ha.
      eapply nth_error_In; eauto.
    + apply (IH i j); auto. lia.
Qed.

(** ** Rounding never invents a NaN *)

Lemma shr_1_nonneg (mrs : shr_record) : 0 <= shr_m mrs -> 0 <= shr_m (shr_1 mrs).
Proof.
  destruct mrs as [m r s]. simpl.
  destruct m as [|[p|p|]|[p|p|]]; simpl; lia.
Qed.

Lemma iter_shr_1_nonneg (p : positive) (mrs : shr_record) :
  0 <= shr_m mrs -> 0 <= shr_m (iter_pos shr_1 p mrs).
Proof.
  revert mrs. induction p as [p IH|p IH|]; intros mrs H; simpl;
    auto using shr_1_nonneg.
Qed.

Lemma shr_record_of_loc_m (m : Z) (l : location) : shr_m (shr_record_of_loc m l) = m.
Proof. now destruct l as [|[ | | ]]. Qed.

Lemma shr_fexp_nonneg (m e : Z) (l : location) :
  0 <= m -> 0 <= shr_m (fst (shr_fexp F64.prec F64.emax m e l)).
Proof.
  intros H. unfold shr_fexp, shr.
  destruct (fexp F64.prec F64.emax (Zdigits2 m + e) - e) as [|p|p]; simpl;
    rewrite ?shr_record_of_loc_m; auto.
  apply iter_shr_1_nonneg. now rewrite shr_record_of_loc_m.
Qed.

Lemma round_nearest_even_nonneg (m : Z) (l : location) :
  0 <= m -> 0 <= round_nearest_even m l.
Proof.
  intros H. destruct l as [|[ | | ]]; simpl; try lia.
  destruct (Z.even m); lia.
Qed.

Lemma binary_round_aux_not_nan (s : bool) (m e : Z) (l : location) :
  0 <= m -> F64.is_nan (binary_round_aux F64.prec F64.emax s m e l) = false.
Proof.
  intros H. unfold binary_round_aux.
  pose proof (shr_fexp_nonneg m e l H) as H1.
  destruct (shr_fexp F64.prec F64.emax m e l) as [mrs' e']. simpl in H1.
  pose proof (shr_fexp_nonneg _ e' loc_Exact
                (round_nearest_even_nonneg _ (loc_of_shr_record mrs') H1)) as H2.
  destruct (shr_fexp F64.prec F64.emax _ e' loc_Exact) as [mrs'' e'']. simpl in H2.
  destruct (shr_m mrs''); try reflexivity; [|lia].
  now destruct (e'' <=? F64.emax - F64.prec).
Qed.

Lemma of_quotient_not_nan (s : bool) (a b : positive) :
  F64.is_nan (F64.of_quotient s a b) = false.
Proof.
  unfold F64.of_quotient, SFdiv_core_binary.
  set (m' := match _ - _ with Z0 => Zpos a | Zpos _ => Z.shiftl (Zpos a) _ | Zneg _ => 0 end).
  assert (0 <= m').
  { unfold m'. destruct (_ - _); try lia. apply Z.shiftl_nonneg. lia. }
  pose proof (Z_div_mod m' (Zpos b) eq_refl) as D.
  destruct (Z.div_eucl m' (Zpos b)) as [q r].
  apply binary_round_aux_not_nan. nia.
Qed.

Lemma round1_not_nan (x : float) :
  F64.is_nan x = false -> F64.is_nan (round1 x) = false.
Proof.
  destruct x as [s|s| |s m e]; auto. intros _. simpl.
  destruct (tenths m e); auto using of_quotient_not_nan.
Qed.

(** ** The rows of the leaderboard *)

Lemma row_of_eq (name : string) (info : player) :
  row_of name info =
  try win_rate <-
    (if 0 <? games info
     then try q <- int_truediv (wins info) (games info) ; Ok (F64.mul q F64.f100)
     else Ok F64.zero) ;
  Ok (mkRow name (round1 (rating info)) (games info) (wins info) (losses info)
            (round1 win_rate)).
Proof.
  unfold row_of.
  replace (if games info =? 0 then 0 else games info) with (games info)
    by (destruct (Z.eqb_spec (games info) 0); congruence).
  replace (if wins info =? 0 then 0 else wins info) with (wins info)
    by (destruct (Z.eqb_spec (wins info) 0); congruence).
  replace (if losses info =? 0 then 0 else losses info) with (losses info)
    by (destruct (Z.eqb_spec (losses info) 0); congruence).
  reflexivity.
Qed.

(** The rows before sorting: one per item of the registry, in order. *)
Lemma rows_of_Forall2 (items : registry) (rows : list row) :
  rows_of items = Ok rows ->
  Forall2 (fun item r => row_of (fst item) (snd item) = Ok r) items rows.
Proof.
  revert rows. induction items as [|[name info] items IH]; simpl; intros rows E.
  - injection E as <-. constructor.
  - unfold rbind in E. destruct (row_of name info) as [r|] eqn:R; [|discriminate].
    destruct (rows_of items) as [rs|]; [|discriminate].
    injection E as <-. constructor; auto.
Qed.

Lemma rows_of_In (items : registry) (rows : list row) (r : row) :
  rows_of items = Ok rows -> In r rows ->
  exists info, In (r_player r, info) items /\ row_of (r_player r) info = Ok r.
Proof.
  intros E. apply rows_of_Forall2 in E.
  induction E as [|[name info] r' items rows H _ IH]; simpl; [tauto|].
  intros [<-|Hin].
  - exists info. simpl in H.
    assert (r_player r' = name).
    { rewrite row_of_eq in H. unfold rbind in H.
      destruct (if 0 <? games info then _ else _); [|discriminate].
      now injection H as <-. }
    subst name. auto.
  - destruct (IH Hin) as (i & Hi & Hr). eauto.
Qed.

Lemma leaderboard_rows_eq (st : session_state) :
  leaderboard_rows st =
  (st, try rows <- rows_of (players st) ; Ok (sort_reverse row_lt rows)).
Proof. unfold leaderboard_rows, rbind. now destruct (rows_of (players st)). Qed.

Lemma lex3_antisym (a b : Z * Z * Z) : lex3 b a = CompOpp (lex3 a b).
Proof.
  destruct a as [[a1 a2] a3], b as [[b1 b2] b3]. unfold lex3.
  rewrite (Z.compare_antisym a1 b1), (Z.compare_antisym a2 b2), (Z.compare_antisym a3 b3).
  destruct (a1 ?= b1); simpl; auto. destruct (a2 ?= b2); simpl; auto.
Qed.

Lemma row_lt_false (x y : row) :
  F64.is_nan (r_rating x) = false -> F64.is_nan (r_rating y) = false ->
  row_lt x y = false -> ranks_before x y.
Proof.
  intros Nx Ny. unfold row_lt, sort_key, key_lt, ranks_before.
  unfold F64.eqb, F64.ltb, SFeqb, SFltb.
  rewrite (SFcompare_rank _ _ Nx Ny), (SFcompare_rank _ _ Ny Nx).
  rewrite (lex3_antisym (float_rank (r_rating x)) (float_rank (r_rating y))).
  destruct (lex3 (float_rank (r_rating x)) (float_rank (r_rating y))); cbn [negb CompOpp].
  - destruct (Z.eqb_spec (r_wins x) (r_wins y)); cbn [negb]; rewrite Z.ltb_ge; intros H.
    + right. right. repeat split; auto. lia.
    + right. left. split; auto. lia.
  - discriminate.
  - now left.
Qed.

Lemma rows_not_nan (st : session_state) (rows : list row) :
  (forall name p, In (name, p) (players st) -> F64.is_nan (rating p) = false) ->
  rows_of (players st) = Ok rows ->
  Forall (fun r => F64.is_nan (r_rating r) = false) rows.
Proof.
  intros Hst E. apply Forall_forall. intros r Hr.
  destruct (rows_of_In _ _ _ E Hr) as (info & Hin & R).
  rewrite row_of_eq in R. unfold rbind in R.
  destruct (if 0 <? games info then _ else _); [|discriminate].
  injection R as <-. simpl. apply round1_not_nan. eauto.
Qed.

Lemma int_truediv_zero_division (a b : Z) :
  int_truediv a b = Raise ZeroDivisionError <-> b = 0.
Proof.
  unfold int_truediv. split.
  - destruct b; auto; destruct a; try discriminate;
      destruct (F64.is_inf _); discriminate.
  - now intros ->.
Qed.

Lemma row_of_no_zero_division (name : string) (info : player) :
  row_of name info <> Raise ZeroDivisionError.
Proof.
  rewrite row_of_eq. unfold rbind.
  destruct (Z.ltb_spec 0 (games info)) as [G|G]; [|discriminate].
  destruct (int_truediv (wins info) (games info)) as [q|e] eqn:Q; [discriminate|].
  intros [= ->]. apply int_truediv_zero_division in Q. lia.
Qed.

Lemma rows_of_no_zero_division (items : registry) :
  rows_of items <> Raise ZeroDivisionError.
Proof.
  induction items as [|[name info] items IH]; simpl; [discriminate|].
  unfold rbind. pose proof (row_of_no_zero_division name info) as H.
  destruct (row_of name info); [|congruence].
  destruct (rows_of items); [discriminate|congruence].
Qed.

(** * Rounding *)

(** ** Powers of two and digits *)

Lemma bpow_pos (e : Z) : (0 < bpow e)%R.
Proof. apply powerRZ_lt. lra. Qed.

Lemma bpow_add (a b : Z) : bpow (a + b) = (bpow a * bpow b)%R.
Proof. apply powerRZ_add. lra. Qed.

Lemma bpow_0 : bpow 0 = 1%R.
Proof. reflexivity. Qed.

Lemma bpow_1 : bpow 1 = 2%R.
Proof. unfold bpow. simpl. lra. Qed.

Lemma bpow_opp_1 : bpow (-1) = (/ 2)%R.
Proof. unfold bpow. simpl. f_equal. lra. Qed.

Lemma bpow_IZR (e : Z) : 0 <= e -> bpow e = IZR (2 ^ e).
Proof.
  intros H. unfold bpow. destruct e as [|p|p]; try lia; auto.
  simpl powerRZ. rewrite pow_IZR. f_equal. now rewrite positive_nat_Z.
Qed.

Lemma bpow_ge_1 (e : Z) : 0 <= e -> (1 <= bpow e)%R.
Proof.
  intros H. rewrite bpow_IZR by assumption. apply IZR_le.
  assert (0 < 2 ^ e) by (apply Z.pow_pos_nonneg; lia). lia.
Qed.

Lemma bpow_le (a b : Z) : a <= b -> (bpow a <= bpow b)%R.
Proof.
  intros H. replace b with (a + (b - a)) by lia. rewrite bpow_add.
  pose proof (bpow_pos a). pose proof (bpow_ge_1 (b - a) ltac:(lia)). nra.
Qed.

Lemma bpow_lt (a b : Z) : a < b -> (bpow a < bpow b)%R.
Proof.
  intros H. replace b with (a + 1 + (b - a - 1)) by lia.
  rewrite !bpow_add, bpow_1.
  pose proof (bpow_pos a). pose proof (bpow_ge_1 (b - a - 1) ltac:(lia)). nra.
Qed.

Lemma bpow_lt_inv (a b : Z) : (bpow a < bpow b)%R -> a < b.
Proof.
  intros H. destruct (Z_lt_le_dec a b) as [L|L]; auto.
  apply bpow_le in L. lra.
Qed.

Lemma F2R_shift (m e n : Z) : 0 <= n -> F2R (m * 2 ^ n) e = F2R m (e + n).
Proof.
  intros H. unfold F2R. rewrite mult_IZR, <- bpow_IZR, bpow_add by assumption. ring.
Qed.

Lemma F2R_le (m1 m2 e : Z) : m1 <= m2 -> (F2R m1 e <= F2R m2 e)%R.
Proof.
  intros H. unfold F2R. apply IZR_le in H. pose proof (bpow_pos e). nra.
Qed.

Lemma F2R_le_inv (m1 m2 e : Z) : (F2R m1 e <= F2R m2 e)%R -> m1 <= m2.
Proof.
  unfold F2R. intros H. apply le_IZR. pose proof (bpow_pos e). nra.
Qed.

Lemma digits2_pos_bounds (p : positive) :
  2 ^ (Zpos (digits2_pos p) - 1) <= Zpos p < 2 ^ Zpos (digits2_pos p).
Proof.
  induction p as [p IH|p IH|]; simpl digits2_pos; [| |simpl; lia];
    rewrite Pos2Z.inj_succ;
    replace (Z.succ (Zpos (digits2_pos p)) - 1) with (Z.succ (Zpos (digits2_pos p) - 1)) by lia;
    rewrite !Z.pow_succ_r by lia; lia.
Qed.

Lemma Zdigits2_bounds (m : Z) :
  0 < m -> 0 < Zdigits2 m /\ 2 ^ (Zdigits2 m - 1) <= m < 2 ^ Zdigits2 m.
Proof.
  destruct m as [|p|p]; try lia. intros _. simpl. split; [lia|apply digits2_pos_bounds].
Qed.

Lemma Zdigits2_nonneg (m : Z) : 0 <= Zdigits2 m.
Proof. destruct m; simpl; lia. Qed.

Lemma Zdigits2_unique (m d : Z) :
  0 < m -> 2 ^ (d - 1) <= m < 2 ^ d -> Zdigits2 m = d.
Proof.
  intros Hm [L U]. destruct (Zdigits2_bounds m Hm) as (P & L' & U').
  assert (0 < d).
  { destruct d as [|d|d]; try lia. rewrite Z.pow_neg_r in U; lia. }
  assert (d - 1 < Zdigits2 m) by (apply (Z.pow_lt_mono_r_iff 2); lia).
  assert (Zdigits2 m - 1 < d) by (apply (Z.pow_lt_mono_r_iff 2); lia).
  lia.
Qed.

Lemma Zdigits2_mono (a b : Z) : 0 < a -> a <= b -> Zdigits2 a <= Zdigits2 b.
Proof.
  intros Ha Hab.
  destruct (Zdigits2_bounds a Ha) as (Pa & La & Ua).
  destruct (Zdigits2_bounds b ltac:(lia)) as (Pb & Lb & Ub).
  assert (Zdigits2 a - 1 < Zdigits2 b) by (apply (Z.pow_lt_mono_r_iff 2); lia).
  lia.
Qed.

Lemma F2R_bounds (m e : Z) :
  0 < m -> (bpow (Zdigits2 m - 1 + e) <= F2R m e < bpow (Zdigits2 m + e))%R.
Proof.
  intros Hm. destruct (Zdigits2_bounds m Hm) as (P & L & U).
  unfold F2R. rewrite !bpow_add.
  rewrite (bpow_IZR (Zdigits2 m - 1)), (bpow_IZR (Zdigits2 m)) by lia.
  apply IZR_le in L. apply IZR_lt in U. pose proof (bpow_pos e). split; nra.
Qed.

(** Values compare as their magnitudes do. *)
Lemma F2R_lt_digits (m1 e1 m2 e2 : Z) :
  0 < m1 -> 0 < m2 -> (F2R m1 e1 <= F2R m2 e2)%R ->
  Zdigits2 m1 + e1 <= Zdigits2 m2 + e2.
Proof.
  intros H1 H2 H.
  pose proof (F2R_bounds m1 e1 H1). pose proof (F2R_bounds m2 e2 H2).
  assert (Zdigits2 m1 - 1 + e1 < Zdigits2 m2 + e2) by (apply bpow_lt_inv; lra).
  lia.
Qed.

Lemma div_pow2_lower (m n : Z) :
  0 < m -> 0 <= n -> n <= Zdigits2 m - 1 -> 2 ^ (Zdigits2 m - 1 - n) <= m / 2 ^ n.
Proof.
  intros Hm Hn H. destruct (Zdigits2_bounds m Hm) as (P & L & U).
  apply Z.div_le_lower_bound; [apply Z.pow_pos_nonneg; lia|].
  rewrite <- Z.pow_add_r by lia. now replace (n + (Zdigits2 m - 1 - n)) with (Zdigits2 m - 1) by lia.
Qed.

Lemma Zdigits2_div_pow2 (m n : Z) :
  0 < m -> 0 <= n -> n <= Zdigits2 m - 1 -> Zdigits2 (m / 2 ^ n) = Zdigits2 m - n.
Proof.
  intros Hm Hn H. destruct (Zdigits2_bounds m Hm) as (P & L & U).
  pose proof (div_pow2_lower m n Hm Hn H) as D.
  assert (0 < 2 ^ (Zdigits2 m - 1 - n)) by (apply Z.pow_pos_nonneg; lia).
  apply Zdigits2_unique; [lia|].
  split; [now replace (Zdigits2 m - n - 1) with (Zdigits2 m - 1 - n) by lia|].
  apply Z.div_lt_upper_bound; [apply Z.pow_pos_nonneg; lia|].
  rewrite <- Z.pow_add_r by lia. now replace (n + (Zdigits2 m - n)) with (Zdigits2 m) by lia.
Qed.

Lemma Zdigits2_mul_pow2 (m n : Z) :
  0 < m -> 0 <= n -> Zdigits2 (m * 2 ^ n) = Zdigits2 m + n.
Proof.
  intros Hm Hn. destruct (Zdigits2_bounds m Hm) as (P & L & U).
  assert (0 < 2 ^ n) by (apply Z.pow_pos_nonneg; lia).
  apply Zdigits2_unique; [nia|].
  replace (Zdigits2 m + n - 1) with (Zdigits2 m - 1 + n) by lia.
  rewrite !Z.pow_add_r by lia. nia.
Qed.

(** The exponent of the format. *)
Lemma fexp_eq (t : Z) : fexp F64.prec F64.emax t = Z.max (t - 53) (-1074).
Proof. reflexivity. Qed.

(** ** Shifting a mantissa to the right *)

Lemma loc_of_shr_record_of_loc (m : Z) (l : location) :
  loc_of_shr_record (shr_record_of_loc m l) = l.
Proof. now destruct l as [|[ | | ]]. Qed.

Lemma loc_exact_iff (m : Z) (r s : bool) :
  loc_of_shr_record (Build_shr_record m r s) = loc_Exact <-> r = false /\ s = false.
Proof. destruct r, s; simpl; intuition discriminate. Qed.

Lemma shr_1_located (mrs : shr_record) (x : R) :
  0 <= shr_m mrs -> located mrs x ->
  located (shr_1 mrs) (x * bpow (-1)) /\ shr_m (shr_1 mrs) = shr_m mrs / 2.
Proof.
  destruct mrs as [m r s]. unfold located. simpl shr_m. rewrite bpow_opp_1.
  rewrite loc_exact_iff. intros Hm [[L U] Ex].
  destruct m as [|[p|p|]|p]; try lia; simpl shr_1; simpl shr_m; rewrite loc_exact_iff.
  - split; [|reflexivity]. simpl in *.
    split; [lra|]. rewrite orb_false_iff. 
    split; [intros [_ H]; apply Ex in H; lra | intros H; split; [reflexivity|apply Ex; lra]].
  - rewrite (Pos2Z.inj_xI p), plus_IZR, mult_IZR in *.
    split; [|apply (Z.div_unique _ _ _ 1); lia].
    split; [lra|]. split; [intros [H _]; discriminate | intros; lra].
  - rewrite (Pos2Z.inj_xO p), mult_IZR in *.
    split; [|apply (Z.div_unique _ _ _ 0); lia].
    split; [lra|]. rewrite orb_false_iff. 
    split; [intros [_ H]; apply Ex in H; lra | intros H; split; [reflexivity|apply Ex; lra]].
  - split; [|reflexivity]. simpl in *.
    split; [lra|]. split; [intros [H _]; discriminate | intros; lra].
Qed.

Lemma iter_shr_1_located (p : positive) (mrs : shr_record) (x : R) :
  0 <= shr_m mrs -> located mrs x ->
  located (iter_pos shr_1 p mrs) (x * bpow (- Zpos p))
  /\ shr_m (iter_pos shr_1 p mrs) = shr_m mrs / 2 ^ Zpos p.
Proof.
  revert mrs x. induction p as [p IH|p IH|]; intros mrs x Hm Hx; simpl iter_pos.
  - destruct (shr_1_located mrs x Hm Hx) as [H1 E1].
    pose proof (shr_1_nonneg mrs Hm) as N1.
    destruct (IH _ _ N1 H1) as [H2 E2].
    pose proof (iter_shr_1_nonneg p _ N1) as N2.
    destruct (IH _ _ N2 H2) as [H3 E3].
    split.
    + replace (x * bpow (- Z.pos p~1))%R
        with (x * bpow (-1) * bpow (- Z.pos p) * bpow (- Z.pos p))%R; auto.
      rewrite !Rmult_assoc, <- !bpow_add. do 2 f_equal. lia.
    + rewrite E3, E2, E1, !Z.div_div by (try apply Z.pow_pos_nonneg; lia).
      f_equal. rewrite (Pos2Z.inj_xI p).
      replace (2 * Z.pos p + 1) with (1 + Z.pos p + Z.pos p) by lia.
      rewrite !Z.pow_add_r by lia. change (2 ^ 1) with 2. ring.
  - destruct (IH _ _ Hm Hx) as [H2 E2].
    pose proof (iter_shr_1_nonneg p _ Hm) as N2.
    destruct (IH _ _ N2 H2) as [H3 E3].
    split.
    + replace (x * bpow (- Z.pos p~0))%R
        with (x * bpow (- Z.pos p) * bpow (- Z.pos p))%R; auto.
      rewrite !Rmult_assoc, <- !bpow_add. do 2 f_equal. lia.
    + rewrite E3, E2, !Z.div_div by (try apply Z.pow_pos_nonneg; lia).
      f_equal. rewrite (Pos2Z.inj_xO p).
      replace (2 * Z.pos p) with (Z.pos p + Z.pos p) by lia.
      rewrite !Z.pow_add_r by lia. ring.
  - destruct (shr_1_located mrs x Hm Hx) as [H1 E1]. split; auto.
Qed.

Lemma located_of_loc_exact (m : Z) : located (shr_record_of_loc m loc_Exact) (IZR m).
Proof. unfold located. simpl. split; [lra|]. split; auto. Qed.

Lemma shr_located (mrs : shr_record) (e n : Z) (x : R) :
  0 <= shr_m mrs -> located mrs x -> 0 <= n ->
  exists mrs', shr mrs e n = (mrs', e + n)
    /\ located mrs' (x * bpow (- n)) /\ shr_m mrs' = shr_m mrs / 2 ^ n.
Proof.
  intros Hm Hx Hn. unfold shr. destruct n as [|p|p]; try lia.
  - exists mrs. rewrite Z.add_0_r. simpl bpow. rewrite Rmult_1_r, Z.div_1_r. auto.
  - exists (iter_pos shr_1 p mrs). split; auto. now apply iter_shr_1_located.
Qed.

(** The two steps of [binary_round_aux]: the mantissa is cut down to the
    exponent of the format and rounded to [m2], then cut again if the
    rounding carried. *)
Lemma binary_round_aux_eq (s : bool) (m e : Z) (l : location) (x : R) :
  0 <= m -> located (shr_record_of_loc m l) x ->
  e <= fexp F64.prec F64.emax (Zdigits2 m + e) ->
  let e1 := fexp F64.prec F64.emax (Zdigits2 m + e) in
  exists m2 : Z,
    m / 2 ^ (e1 - e) <= m2
    /\ (forall B : Z, (x * bpow (e - e1) <= IZR B)%R -> m2 <= B)
    /\ (forall B : Z, (IZR B <= x * bpow (e - e1))%R -> B <= m2)
    /\ let e2 := fexp F64.prec F64.emax (Zdigits2 m2 + e1) in
       binary_round_aux F64.prec F64.emax s m e l =
       match (if e1 <? e2 then m2 / 2 ^ (e2 - e1) else m2) with
       | Z0 => S754_zero s
       | Zpos p =>
           if (if e1 <? e2 then e2 else e1) <=? F64.emax - F64.prec
           then S754_finite s p (if e1 <? e2 then e2 else e1)
           else S754_infinity s
       | Zneg _ => S754_nan
       end.
Proof.
  intros Hm Hx He e1.
  assert (Hm' : 0 <= shr_m (shr_record_of_loc m l)) by now rewrite shr_record_of_loc_m.
  destruct (shr_located _ e (e1 - e) x Hm' Hx ltac:(lia)) as (mrs1 & E1 & L1 & M1).
  rewrite shr_record_of_loc_m in M1.
  replace (e + (e1 - e)) with e1 in E1 by lia.
  replace (- (e1 - e)) with (e - e1) in L1 by lia.
  set (m1 := shr_m mrs1) in *.
  set (m2 := round_nearest_even m1 (loc_of_shr_record mrs1)).
  assert (N1 : 0 <= m1).
  { rewrite M1. apply Z.div_pos; [lia | apply Z.pow_pos_nonneg; lia]. }
  destruct L1 as [[Lo Up] Ex]. fold m1 in Lo, Up, Ex.
  assert (R : (m2 = m1 \/ (m2 = m1 + 1 /\ loc_of_shr_record mrs1 <> loc_Exact))).
  { unfold m2. destruct (loc_of_shr_record mrs1) as [|[ | | ]]; simpl; auto.
    - destruct (Z.even m1); [auto | right; split; [reflexivity | discriminate]].
    - right. split; [reflexivity | discriminate]. }
  exists m2. split; [|split; [|split]].
  - rewrite <- M1. destruct R as [->|[-> _]]; lia.
  - intros B HB. destruct R as [->|[-> NE]].
    + apply le_IZR. lra.
    + assert (x * bpow (e - e1) <> IZR m1)%R by (intros K; apply NE, Ex, K).
      assert (IZR m1 < IZR B)%R by lra.
      apply lt_IZR in H0. lia.
  - intros B HB.
    assert (IZR B < IZR (m1 + 1))%R by (rewrite plus_IZR; lra).
    apply lt_IZR in H. destruct R as [->|[-> _]]; lia.
  - intros e2. unfold binary_round_aux.
    unfold shr_fexp at 1.
    change (shr (shr_record_of_loc m l) e
                (fexp F64.prec F64.emax (Zdigits2 m + e) - e))
      with (shr (shr_record_of_loc m l) e (e1 - e)).
    rewrite E1. fold m1. fold m2.
    unfold shr_fexp. fold e2. unfold shr.
    destruct (Z.ltb_spec e1 e2) as [Lt|Ge].
    + destruct (e2 - e1) as [|p|p] eqn:D; try lia.
      assert (N2 : 0 <= shr_m (shr_record_of_loc m2 loc_Exact)).
      { simpl. destruct R as [->|[-> _]]; lia. }
      destruct (iter_shr_1_located p _ _ N2 (located_of_loc_exact m2)) as [_ K].
      rewrite K. simpl shr_m. replace (e1 + Z.pos p) with e2 by lia. reflexivity.
    + destruct (e2 - e1) as [|p|p] eqn:D; try lia; reflexivity.
Qed.

Lemma Zdigits2_le_of_lt_pow2 (m n : Z) : 0 <= m -> 0 <= n -> m < 2 ^ n -> Zdigits2 m <= n.
Proof.
  intros Hm Hn H. destruct (Z.eq_dec m 0) as [->|Ne]; [simpl; lia|].
  destruct (Zdigits2_bounds m ltac:(lia)) as (P & L & U).
  assert (Zdigits2 m - 1 < n) by (apply (Z.pow_lt_mono_r_iff 2); lia). lia.
Qed.

Lemma Zdigits2_gt_of_ge_pow2 (m n : Z) : 0 <= n -> 2 ^ n <= m -> n < Zdigits2 m.
Proof.
  intros Hn H. assert (0 < 2 ^ n) by (apply Z.pow_pos_nonneg; lia).
  destruct (Zdigits2_bounds m ltac:(lia)) as (P & L & U).
  apply (Z.pow_lt_mono_r_iff 2); lia.
Qed.

(** The result of [binary_round_aux] on a mantissa that is fine enough:
    zero, or a canonical mantissa [p3] at the exponent [e2], which
    overflows to an infinity when [e2] is beyond the format. *)
Lemma binary_round_aux_shape (s : bool) (m e : Z) (l : location) (x : R) :
  0 <= m -> located (shr_record_of_loc m l) x ->
  e <= fexp F64.prec F64.emax (Zdigits2 m + e) ->
  let e1 := fexp F64.prec F64.emax (Zdigits2 m + e) in
  exists m2 : Z,
    m / 2 ^ (e1 - e) <= m2
    /\ (forall B : Z, (x * bpow (e - e1) <= IZR B)%R -> m2 <= B)
    /\ (forall B : Z, (IZR B <= x * bpow (e - e1))%R -> B <= m2)
    /\ (m2 = 0 -> binary_round_aux F64.prec F64.emax s m e l = S754_zero s)
    /\ (0 < m2 ->
        exists (p3 : positive) (e2 : Z),
          e1 <= e2
          /\ Zpos p3 = m2 / 2 ^ (e2 - e1)
          /\ fexp F64.prec F64.emax (Zdigits2 (Zpos p3) + e2) = e2
          /\ binary_round_aux F64.prec F64.emax s m e l =
             if e2 <=? F64.emax - F64.prec then S754_finite s p3 e2 else S754_infinity s).
Proof.
  intros Hm Hx He e1.
  destruct (binary_round_aux_eq s m e l x Hm Hx He) as (m2 & Hlow & HU & HL & E).
  fold e1 in Hlow, HU, HL, E. cbv zeta in E.
  exists m2. repeat (split; [assumption|]).
  assert (P2 : 0 < 2 ^ (e1 - e)) by (apply Z.pow_pos_nonneg; lia).
  assert (N1 : 0 <= m / 2 ^ (e1 - e)) by (apply Z.div_pos; lia).
  split.
  - intros ->. rewrite E. now destruct (e1 <? _).
  - intros Pos.
    set (e2 := fexp F64.prec F64.emax (Zdigits2 m2 + e1)) in *.
    assert (Le : e1 <= e2).
    { destruct (Z.eq_dec (m / 2 ^ (e1 - e)) 0) as [Z|NZ].
      - assert (m < 2 ^ (e1 - e)).
        { apply Z.div_small_iff in Z; lia. }
        pose proof (Zdigits2_le_of_lt_pow2 m (e1 - e) Hm ltac:(lia) H).
        unfold e2, e1 in *. rewrite !fexp_eq in *. lia.
      - assert (Hm1 : 0 < m) by (destruct (Z.eq_dec m 0) as [->|]; [now rewrite Z.div_0_l in NZ by lia | lia]).
        assert (2 ^ (e1 - e) <= m).
        { destruct (Z_lt_le_dec m (2 ^ (e1 - e))); auto.
          rewrite Z.div_small in NZ; lia. }
        pose proof (Zdigits2_gt_of_ge_pow2 m (e1 - e) ltac:(lia) H).
        pose proof (Zdigits2_div_pow2 m (e1 - e) Hm1 ltac:(lia) ltac:(lia)) as D.
        pose proof (Zdigits2_mono (m / 2 ^ (e1 - e)) m2 ltac:(lia) Hlow).
        unfold e2, e1 in *. rewrite !fexp_eq in *. lia. }
    destruct (Zdigits2_bounds m2 Pos) as (Pd & Ld & Ud).
    assert (Hn : e2 - e1 <= Zdigits2 m2 - 1).
    { unfold e2 in *. rewrite fexp_eq in *.
      assert (-1074 <= e1) by (unfold e1; rewrite fexp_eq; lia). lia. }
    pose proof (div_pow2_lower m2 (e2 - e1) Pos ltac:(lia) Hn) as Lo3.
    pose proof (Zdigits2_div_pow2 m2 (e2 - e1) Pos ltac:(lia) Hn) as D3.
    assert (0 < 2 ^ (Zdigits2 m2 - 1 - (e2 - e1))) by (apply Z.pow_pos_nonneg; lia).
    destruct (m2 / 2 ^ (e2 - e1)) as [|p3|p3] eqn:M3; try lia.
    exists p3, e2. split; [assumption|]. split; [now symmetry|]. split.
    + rewrite D3. replace (Zdigits2 m2 - (e2 - e1) + e2) with (Zdigits2 m2 + e1) by lia.
      reflexivity.
    + rewrite E. destruct (Z.ltb_spec e1 e2) as [Lt|Ge].
      * reflexivity.
      * assert (E21 : e2 = e1) by lia.
        replace (e2 - e1) with 0 in M3 by lia. rewrite Z.div_1_r in M3.
        rewrite M3, E21. reflexivity.
Qed.

(** ** Rounding is monotone *)

(** Brings the definition of every exponent of the format in sight. *)
Ltac fexp_facts :=
  repeat match goal with
  | H : context [fexp F64.prec F64.emax ?t] |- _ =>
      lazymatch goal with
      | K : fexp F64.prec F64.emax t = Z.max (t - 53) (-1074) |- _ => fail
      | _ => pose proof (fexp_eq t)
      end
  | |- context [fexp F64.prec F64.emax ?t] =>
      lazymatch goal with
      | K : fexp F64.prec F64.emax t = Z.max (t - 53) (-1074) |- _ => fail
      | _ => pose proof (fexp_eq t)
      end
  end.

Lemma bounded_canonical (m : positive) (e : Z) :
  bounded F64.prec F64.emax m e = true <-> canonical m e.
Proof.
  unfold bounded, canonical_mantissa, canonical.
  rewrite andb_true_iff, Z.eqb_eq, Z.leb_le. reflexivity.
Qed.

Lemma F2R_scale (m e e1 : Z) : e1 <= e -> F2R m e = F2R (m * 2 ^ (e - e1)) e1.
Proof.
  intros H. rewrite F2R_shift by lia. f_equal. lia.
Qed.

Lemma scaled_le (x : R) (e e1 : Z) (B : Z) (eb : Z) :
  e1 <= eb -> (x * bpow e <= F2R B eb)%R ->
  (x * bpow (e - e1) <= IZR (B * 2 ^ (eb - e1)))%R.
Proof.
  intros H L. rewrite (F2R_scale B eb e1 H) in L. unfold F2R in L.
  replace e with (e - e1 + e1) in L by lia. rewrite bpow_add in L.
  pose proof (bpow_pos e1). nra.
Qed.

Lemma scaled_ge (x : R) (e e1 : Z) (B : Z) (eb : Z) :
  e1 <= eb -> (F2R B eb <= x * bpow e)%R ->
  (IZR (B * 2 ^ (eb - e1)) <= x * bpow (e - e1))%R.
Proof.
  intros H L. rewrite (F2R_scale B eb e1 H) in L. unfold F2R in L.
  replace e with (e - e1 + e1) in L by lia. rewrite bpow_add in L.
  pose proof (bpow_pos e1). nra.
Qed.

Lemma F2R_div_pow2_le (m e1 e2 : Z) :
  e1 <= e2 -> (F2R (m / 2 ^ (e2 - e1)) e2 <= F2R m e1)%R.
Proof.
  intros H. rewrite (F2R_scale _ e2 e1 H). apply F2R_le.
  rewrite Z.mul_comm. apply Z.mul_div_le. apply Z.pow_pos_nonneg; lia.
Qed.

Section Monotone.

Variables (s : bool) (m e : Z) (l : location) (x : R).
Hypothesis Hm : 0 <= m.
Hypothesis Hx : located (shr_record_of_loc m l) x.
Hypothesis He : e <= fexp F64.prec F64.emax (Zdigits2 m + e).

Variables (mb : positive) (eb : Z).
Hypothesis Hb : canonical mb eb.

Lemma round_upper :
  (x * bpow e <= F2R (Zpos mb) eb)%R ->
  at_most s (binary_round_aux F64.prec F64.emax s m e l) (F2R (Zpos mb) eb).
Proof.
  intros Hle.
  destruct (binary_round_aux_shape s m e l x Hm Hx He) as (m2 & Hlow & HU & _ & HZ & HP).
  set (e1 := fexp F64.prec F64.emax (Zdigits2 m + e)) in *.
  destruct Hb as [Cb Eb].
  assert (Le1 : e1 <= eb).
  { destruct (Z.eq_dec m 0) as [->|Ne].
    - subst e1. change (Zdigits2 0) with 0 in *. fexp_facts. lia.
    - assert (F2R m e <= F2R (Zpos mb) eb)%R.
      { destruct Hx as [[Lo _] _]. rewrite shr_record_of_loc_m in Lo.
        unfold F2R at 1. pose proof (bpow_pos e). nra. }
      pose proof (F2R_lt_digits m e (Zpos mb) eb ltac:(lia) ltac:(lia) H).
      subst e1. fexp_facts. lia. }
  pose proof (HU _ (scaled_le x e e1 (Zpos mb) eb Le1 Hle)) as Hm2.
  assert (N2 : 0 <= m2).
  { assert (0 < 2 ^ (e1 - e)) by (apply Z.pow_pos_nonneg; lia).
    assert (0 <= m / 2 ^ (e1 - e)) by (apply Z.div_pos; lia). lia. }
  destruct (Z.eq_dec m2 0) as [Z|NZ]; [left; now apply HZ|].
  destruct (HP ltac:(lia)) as (p3 & e2 & Le2 & M3 & C3 & E).
  assert (V : (F2R (Zpos p3) e2 <= F2R (Zpos mb) eb)%R).
  { rewrite M3. eapply Rle_trans; [apply F2R_div_pow2_le; assumption|].
    rewrite (F2R_scale (Zpos mb) eb e1 Le1). now apply F2R_le. }
  pose proof (F2R_lt_digits (Zpos p3) e2 (Zpos mb) eb ltac:(lia) ltac:(lia) V) as D.
  assert (e2 <= 971) by (fexp_facts; lia).
  right. exists p3, e2. split; [|split; [split|]]; auto.
  rewrite E.
  destruct (Z.leb_spec e2 (F64.emax - F64.prec)) as [_|K]; [reflexivity|].
  unfold F64.emax, F64.prec in K. lia.
Qed.

Lemma round_lower :
  (F2R (Zpos mb) eb <= x * bpow e)%R ->
  at_least s (binary_round_aux F64.prec F64.emax s m e l) (F2R (Zpos mb) eb).
Proof.
  intros Hle.
  destruct (binary_round_aux_shape s m e l x Hm Hx He) as (m2 & Hlow & _ & HL & HZ & HP).
  set (e1 := fexp F64.prec F64.emax (Zdigits2 m + e)) in *.
  destruct Hb as [Cb Eb].
  assert (P2 : 0 < 2 ^ (e1 - e)) by (apply Z.pow_pos_nonneg; lia).
  assert (N1 : 0 <= m / 2 ^ (e1 - e)) by (apply Z.div_pos; lia).
  assert (Pos2 : 0 < m2).
  { destruct (Z.eq_dec e1 (-1074)) as [E1|E1].
    - assert (-1074 <= eb) by (fexp_facts; lia).
      pose proof (HL _ (scaled_ge x e e1 (Zpos mb) eb ltac:(lia) Hle)).
      assert (0 < 2 ^ (eb - e1)) by (apply Z.pow_pos_nonneg; lia). nia.
    - assert (Hm1 : 0 < m).
      { destruct (Z.eq_dec m 0) as [->|]; [|lia].
        subst e1. change (Zdigits2 0) with 0 in *. fexp_facts. lia. }
      destruct (Zdigits2_bounds m Hm1) as (Pd & _ & _).
      assert (e1 - e <= Zdigits2 m - 1) by (subst e1; fexp_facts; lia).
      pose proof (div_pow2_lower m (e1 - e) Hm1 ltac:(lia) H).
      assert (0 < 2 ^ (Zdigits2 m - 1 - (e1 - e))) by (apply Z.pow_pos_nonneg; lia).
      lia. }
  destruct (HP Pos2) as (p3 & e2 & Le2 & M3 & C3 & E).
  rewrite E.
  destruct (Z.leb_spec e2 (F64.emax - F64.prec)) as [K|_]; [|now left].
  right. exists p3, e2. split; [reflexivity|]. split; [split; [assumption|exact K]|].
  destruct (Z_le_gt_dec e2 eb) as [L2|G2].
  - (* the bound is a multiple of the last place *)
    pose proof (HL _ (scaled_ge x e e1 (Zpos mb) eb ltac:(lia) Hle)) as HB.
    rewrite (F2R_scale (Zpos mb) eb e2 L2). apply F2R_le. rewrite M3.
    apply Z.div_le_lower_bound; [apply Z.pow_pos_nonneg; lia|].
    replace (eb - e1) with (eb - e2 + (e2 - e1)) in HB by lia.
    rewrite Z.pow_add_r in HB by lia. lia.
  - (* the result is a binade above the bound *)
    assert (Zdigits2 (Zpos mb) + eb < Zdigits2 (Zpos p3) + e2)
      by (fexp_facts; lia).
    pose proof (F2R_bounds (Zpos p3) e2 ltac:(lia)) as [Lo _].
    pose proof (F2R_bounds (Zpos mb) eb ltac:(lia)) as [_ Up].
    pose proof (bpow_le (Zdigits2 (Zpos mb) + eb) (Zdigits2 (Zpos p3) - 1 + e2) ltac:(lia)).
    lra.
Qed.

End Monotone.

(** ** The operations on positive floats *)

Lemma iter_xO (p : positive) (d : positive) :
  Zpos (Pos.iter xO p d) = Zpos p * 2 ^ Zpos d.
Proof.
  rewrite <- Z.shiftl_mul_pow2 by lia. unfold Z.shiftl.
  apply (Pos.iter_swap_gen _ _ Zpos xO (Z.mul 2)). reflexivity.
Qed.

Lemma shl_align_le (mx : positive) (ex ez : Z) :
  ez <= ex ->
  Zpos (fst (shl_align mx ex ez)) = Zpos mx * 2 ^ (ex - ez) /\ snd (shl_align mx ex ez) = Z.min ex ez.
Proof.
  intros H. unfold shl_align.
  destruct (ez - ex) as [|d|d] eqn:D; cbn [fst snd].
  - replace (ex - ez) with 0 by lia. rewrite Z.pow_0_r. lia.
  - lia.
  - rewrite iter_xO. replace (ex - ez) with (Zpos d) by lia. lia.
Qed.

Lemma shl_align_ge (mx : positive) (ex ez : Z) :
  ex <= ez -> shl_align mx ex ez = (mx, ex).
Proof.
  intros H. unfold shl_align. destruct (ez - ex) as [|d|d] eqn:D; auto. lia.
Qed.

(** [binary_round] first makes the mantissa fine enough. *)
Lemma binary_round_eq (s : bool) (mx : positive) (ex : Z) :
  exists (mz : positive) (ez : Z),
    binary_round F64.prec F64.emax s mx ex
    = binary_round_aux F64.prec F64.emax s (Zpos mz) ez loc_Exact
    /\ F2R (Zpos mz) ez = F2R (Zpos mx) ex
    /\ ez <= fexp F64.prec F64.emax (Zdigits2 (Zpos mz) + ez).
Proof.
  unfold binary_round.
  set (e' := fexp F64.prec F64.emax (Zpos (digits2_pos mx) + ex)).
  destruct (Z_le_gt_dec ex e') as [L|G].
  - rewrite (shl_align_ge mx ex e' L). exists mx, ex. repeat split. exact L.
  - destruct (shl_align_le mx ex e' ltac:(lia)) as [M E].
    destruct (shl_align mx ex e') as [mz ez]. cbn [fst snd] in M, E.
    exists mz, ez. split; [reflexivity|]. split.
    + rewrite M, F2R_shift by lia. f_equal. lia.
    + rewrite M, Zdigits2_mul_pow2 by lia.
      replace (Zdigits2 (Zpos mx) + (ex - e') + ez) with (Zpos (digits2_pos mx) + ex)
        by (simpl Zdigits2; lia).
      fold e'. lia.
Qed.

Lemma binary_round_upper (s : bool) (mx : positive) (ex : Z) (mb : positive) (eb : Z) :
  canonical mb eb -> (F2R (Zpos mx) ex <= F2R (Zpos mb) eb)%R ->
  at_most s (binary_round F64.prec F64.emax s mx ex) (F2R (Zpos mb) eb).
Proof.
  intros Hb H. destruct (binary_round_eq s mx ex) as (mz & ez & -> & V & P).
  apply (round_upper s (Zpos mz) ez loc_Exact (IZR (Zpos mz))); auto; try lia.
  - apply located_of_loc_exact.
  - fold (F2R (Zpos mz) ez). now rewrite V.
Qed.

Lemma binary_round_lower (s : bool) (mx : positive) (ex : Z) (mb : positive) (eb : Z) :
  canonical mb eb -> (F2R (Zpos mb) eb <= F2R (Zpos mx) ex)%R ->
  at_least s (binary_round F64.prec F64.emax s mx ex) (F2R (Zpos mb) eb).
Proof.
  intros Hb H. destruct (binary_round_eq s mx ex) as (mz & ez & -> & V & P).
  apply (round_lower s (Zpos mz) ez loc_Exact (IZR (Zpos mz))); auto; try lia.
  - apply located_of_loc_exact.
  - fold (F2R (Zpos mz) ez). now rewrite V.
Qed.

(** The two aligned mantissas of a sum or a difference. *)
Lemma aligned_values (mx my : positive) (ex ey : Z) :
  let ez := Z.min ex ey in
  F2R (Zpos (fst (shl_align mx ex ez))) ez = F2R (Zpos mx) ex
  /\ F2R (Zpos (fst (shl_align my ey ez))) ez = F2R (Zpos my) ey.
Proof.
  intros ez.
  destruct (shl_align_le mx ex ez ltac:(lia)) as [-> _].
  destruct (shl_align_le my ey ez ltac:(lia)) as [-> _].
  rewrite !F2R_shift by lia. split; f_equal; lia.
Qed.

Lemma F2R_plus (a b e : Z) : F2R (a + b) e = (F2R a e + F2R b e)%R.
Proof. unfold F2R. rewrite plus_IZR. ring. Qed.

Lemma F2R_minus (a b e : Z) : F2R (a - b) e = (F2R a e - F2R b e)%R.
Proof. unfold F2R. rewrite minus_IZR. ring. Qed.

Lemma F2R_pos (m : positive) (e : Z) : (0 < F2R (Zpos m) e)%R.
Proof.
  unfold F2R. pose proof (bpow_pos e). assert (0 < IZR (Zpos m))%R by (apply IZR_lt; lia). nra.
Qed.

Lemma canonical_one : canonical 4503599627370496 (-52).
Proof. split; [reflexivity | lia]. Qed.

Lemma F2R_one : F2R 4503599627370496 (-52) = 1%R.
Proof.
  unfold F2R. change 4503599627370496 with (2 ^ 52).
  rewrite <- bpow_IZR, <- bpow_add by lia. reflexivity.
Qed.

(** [1.0 + p >= 1.0] for [p >= 0]. *)
Lemma add_one_lower (p : float) :
  nonneg p -> at_least false (F64.add F64.one p) 1%R.
Proof.
  intros [->|[->|(m & e & -> & C)]].
  - right. exists 4503599627370496%positive, (-52). 
    split; [reflexivity|]. split; [apply canonical_one | rewrite F2R_one; lra].
  - now left.
  - unfold F64.add, F64.one, SFadd. cbn [cond_Zopp].
    destruct (aligned_values 4503599627370496 m (-52) e) as [V1 V2].
    set (ez := Z.min (-52) e) in *.
    set (a := fst (shl_align 4503599627370496 (-52) ez)) in *.
    set (b := fst (shl_align m e ez)) in *.
    change (Zpos a + Zpos b) with (Zpos (a + b)). unfold binary_normalize.
    rewrite <- F2R_one. apply binary_round_lower; [apply canonical_one|].
    rewrite Pos2Z.inj_add, F2R_plus, V1, V2. pose proof (F2R_pos m e). lra.
Qed.

(** ** Division *)

Lemma new_location_exact (nb_steps k : Z) :
  new_location nb_steps k = loc_Exact <-> k = 0.
Proof.
  unfold new_location, new_location_even, new_location_odd.
  destruct (Z.even nb_steps); destruct (Z.eqb_spec k 0); split; intros H;
    try reflexivity; try assumption; try discriminate; try contradiction.
Qed.

Lemma shifted_mantissa (m : positive) (n : Z) :
  0 <= n ->
  match n with
  | 0 => Zpos m
  | Zpos _ => Z.shiftl (Zpos m) n
  | Zneg _ => 0
  end = Zpos m * 2 ^ n.
Proof.
  intros H. destruct n as [|p|p]; cbv iota; try lia.
  apply Z.shiftl_mul_pow2. lia.
Qed.

(** The quotient mantissa that [SFdiv_core_binary] hands to the rounding is
    fine enough, and it locates the quotient of the two values. *)
Lemma SFdiv_core_located (m1 m2 : positive) (e1 e2 : Z) :
  exists (q e' : Z) (l : location) (x : R),
    SFdiv_core_binary F64.prec F64.emax (Zpos m1) e1 (Zpos m2) e2 = (q, e', l)
    /\ 0 <= q
    /\ e' <= fexp F64.prec F64.emax (Zdigits2 q + e')
    /\ located (shr_record_of_loc q l) x
    /\ (x * bpow e' * F2R (Zpos m2) e2 = F2R (Zpos m1) e1)%R.
Proof.
  unfold SFdiv_core_binary.
  set (d1 := Zdigits2 (Zpos m1)). set (d2 := Zdigits2 (Zpos m2)).
  set (e' := Z.min (fexp F64.prec F64.emax (d1 + e1 - (d2 + e2))) (e1 - e2)).
  set (sft := e1 - e2 - e').
  assert (Hs : 0 <= sft) by (unfold sft, e'; lia).
  set (m' := match sft with
             | 0 => Zpos m1
             | Zpos _ => Z.shiftl (Zpos m1) sft
             | Zneg _ => 0
             end).
  assert (Hm' : m' = Zpos m1 * 2 ^ sft) by (apply shifted_mantissa, Hs).
  assert (P2 : 0 < 2 ^ sft) by (apply Z.pow_pos_nonneg; lia).
  pose proof (Z_div_mod m' (Zpos m2) eq_refl) as D.
  destruct (Z.div_eucl m' (Zpos m2)) as [q r]. destruct D as [D R].
  assert (Hq : 0 <= q) by nia.
  exists q, e', (new_location (Zpos m2) r), (IZR m' / IZR (Zpos m2))%R.
  assert (I2 : (0 < IZR (Zpos m2))%R) by (apply IZR_lt; lia).
  split; [reflexivity|]. split; [assumption|]. split; [|split].
  - (* fine enough *)
    destruct (Zdigits2_bounds (Zpos m1) ltac:(lia)) as (P1 & L1 & U1).
    destruct (Zdigits2_bounds (Zpos m2) ltac:(lia)) as (Pd2 & L2 & U2).
    fold d1 in P1, L1, U1. fold d2 in Pd2, L2, U2.
    assert (Dm' : Zdigits2 m' = d1 + sft).
    { rewrite Hm'. apply Zdigits2_mul_pow2; lia. }
    assert (Hd : d1 + sft - d2 <= Zdigits2 q).
    { destruct (Z.eq_dec q 0) as [->|NZ].
      - assert (Zdigits2 m' <= Zdigits2 (Zpos m2)) by (apply Zdigits2_mono; lia).
        fold d2 in H. simpl Zdigits2. lia.
      - destruct (Zdigits2_bounds q ltac:(lia)) as (Pq & _ & _).
        destruct (Z_le_gt_dec (d1 + sft - d2) 0) as [Neg|Pos]; [lia|].
        assert (2 ^ (d1 + sft - 1 - d2) <= q).
        { assert (2 ^ (d1 - 1 + sft) <= m').
          { rewrite Hm', Z.pow_add_r by lia. nia. }
          replace (d1 - 1 + sft) with (d1 + sft - 1 - d2 + d2) in H by lia.
          rewrite Z.pow_add_r in H by lia.
          assert (0 < 2 ^ (d1 + sft - 1 - d2)) by (apply Z.pow_pos_nonneg; lia).
          assert (0 < 2 ^ d2) by (apply Z.pow_pos_nonneg; lia).
          nia. }
        pose proof (Zdigits2_gt_of_ge_pow2 q (d1 + sft - 1 - d2) ltac:(lia) H). lia. }
    assert (K : d1 + e1 - (d2 + e2) <= Zdigits2 q + e') by (unfold sft in Hd; lia).
    assert (e' <= fexp F64.prec F64.emax (d1 + e1 - (d2 + e2))) by (unfold e'; lia).
    fexp_facts. lia.
  - (* the quotient is located *)
    unfold located. rewrite shr_record_of_loc_m, loc_of_shr_record_of_loc.
    rewrite new_location_exact.
    assert (IZR m' = IZR (Zpos m2) * IZR q + IZR r)%R
      by (rewrite D, plus_IZR, mult_IZR; reflexivity).
    assert (0 <= IZR r < IZR (Zpos m2))%R by (split; [apply IZR_le | apply IZR_lt]; lia).
    assert (Q : (IZR m' / IZR (Zpos m2) = IZR q + IZR r / IZR (Zpos m2))%R)
      by (rewrite H; field; lra).
    assert (0 <= IZR r / IZR (Zpos m2) < 1)%R.
    { split.
      - apply Rmult_le_pos; [lra|]. apply Rlt_le, Rinv_0_lt_compat. lra.
      - apply (Rmult_lt_reg_r (IZR (Zpos m2))); [lra|].
        unfold Rdiv. rewrite Rmult_assoc, Rinv_l by lra. lra. }
    rewrite Q. split; [lra|]. split.
    + intros ->. unfold Rdiv. rewrite Rmult_0_l. lra.
    + intros E. assert (Z0 : (IZR r / IZR (Zpos m2) = 0)%R) by lra.
      apply (f_equal (fun t => (t * IZR (Zpos m2))%R)) in Z0.
      unfold Rdiv in Z0. rewrite Rmult_assoc, Rinv_l, Rmult_0_l, Rmult_1_r in Z0 by lra.
      now apply eq_IZR in Z0.
  - (* its value *)
    rewrite Hm', mult_IZR, <- bpow_IZR by lia. unfold F2R.
    assert (B : bpow e1 = (bpow sft * bpow e' * bpow e2)%R).
    { rewrite <- !bpow_add. f_equal. unfold sft. lia. }
    rewrite B. field. lra.
Qed.

(** The quotient of two positive floats is at most, or at least, a float
    of the format when the exact quotient is. *)
Lemma div_upper (s : bool) (m1 m2 : positive) (e1 e2 : Z) (mb : positive) (eb : Z) :
  canonical mb eb ->
  (F2R (Zpos m1) e1 <= F2R (Zpos mb) eb * F2R (Zpos m2) e2)%R ->
  let '(q, e', l) := SFdiv_core_binary F64.prec F64.emax (Zpos m1) e1 (Zpos m2) e2 in
  at_most s (binary_round_aux F64.prec F64.emax s q e' l) (F2R (Zpos mb) eb).
Proof.
  intros Hb H.
  destruct (SFdiv_core_located m1 m2 e1 e2) as (q & e' & l & x & -> & Hq & P & Lx & V).
  apply (round_upper s q e' l x); auto.
  pose proof (F2R_pos m2 e2). nra.
Qed.

(** [1.0 / s <= 1.0] for [s >= 1.0], and the division does not raise. *)
Lemma div_one_upper (s : float) :
  at_least false s 1%R ->
  float_truediv F64.one s = Ok (F64.div F64.one s)
  /\ at_most false (F64.div F64.one s) 1%R.
Proof.
  intros [->|(m & e & -> & C & V)].
  - split; [reflexivity|]. now left.
  - split; [reflexivity|].
    unfold F64.div, F64.one, SFdiv. cbn [xorb].
    pose proof (div_upper false 4503599627370496 m (-52) e 4503599627370496 (-52)
                  canonical_one) as U.
    rewrite F2R_one in U. specialize (U ltac:(lra)).
    destruct (SFdiv_core_binary _ _ _ _ _ _) as [[q e'] l]. exact U.
Qed.

(** [1.0 - e <= 1.0] for [0 <= e <= 1.0], and it is not negative. *)
Lemma sub_one_upper (e : float) :
  at_most false e 1%R -> at_most false (F64.sub F64.one e) 1%R.
Proof.
  intros [->|(m & ex & -> & C & V)].
  - right. exists 4503599627370496%positive, (-52).
    split; [reflexivity|]. split; [apply canonical_one | rewrite F2R_one; lra].
  - unfold F64.sub, F64.one, SFsub. cbn [cond_Zopp].
    destruct (aligned_values 4503599627370496 m (-52) ex) as [V1 V2].
    set (ez := Z.min (-52) ex) in *.
    set (a := fst (shl_align 4503599627370496 (-52) ez)) in *.
    set (b := fst (shl_align m ex ez)) in *.
    assert (D : F2R (Zpos a - Zpos b) ez = (1 - F2R (Zpos m) ex)%R)
      by (rewrite F2R_minus, V1, V2, F2R_one; reflexivity).
    pose proof (F2R_pos m ex) as Pm.
    destruct (Zpos a - Zpos b) as [|d|d] eqn:Dz; unfold binary_normalize.
    + now left.
    + rewrite <- F2R_one. apply binary_round_upper; [apply canonical_one|].
      rewrite D, F2R_one. lra.
    + exfalso. unfold F2R in D at 1.
      assert (IZR (Zneg d) < 0)%R by (apply IZR_lt; lia).
      pose proof (bpow_pos ez). nra.
Qed.

Lemma Zdigits2_mul_lower (a b : positive) :
  Zdigits2 (Zpos a) + Zdigits2 (Zpos b) - 1 <= Zdigits2 (Zpos (a * b)).
Proof.
  destruct (Zdigits2_bounds (Zpos a) ltac:(lia)) as (Pa & La & _).
  destruct (Zdigits2_bounds (Zpos b) ltac:(lia)) as (Pb & Lb & _).
  assert (2 ^ (Zdigits2 (Zpos a) + Zdigits2 (Zpos b) - 2) <= Zpos (a * b)).
  { replace (Zdigits2 (Zpos a) + Zdigits2 (Zpos b) - 2)
      with (Zdigits2 (Zpos a) - 1 + (Zdigits2 (Zpos b) - 1)) by lia.
    rewrite Z.pow_add_r, Pos2Z.inj_mul by lia.
    assert (0 < 2 ^ (Zdigits2 (Zpos a) - 1)) by (apply Z.pow_pos_nonneg; lia).
    assert (0 < 2 ^ (Zdigits2 (Zpos b) - 1)) by (apply Z.pow_pos_nonneg; lia).
    nia. }
  pose proof (Zdigits2_gt_of_ge_pow2 (Zpos (a * b))
                (Zdigits2 (Zpos a) + Zdigits2 (Zpos b) - 2) ltac:(lia) H).
  lia.
Qed.

(** The product of two mantissas of the format is fine enough. *)
Lemma mul_fine (mk mx : positive) (ek ex : Z) :
  canonical mk ek -> canonical mx ex ->
  ek + ex <= fexp F64.prec F64.emax (Zdigits2 (Zpos (mk * mx)) + (ek + ex)).
Proof.
  intros [Ck _] [Cx _]. pose proof (Zdigits2_mul_lower mk mx).
  destruct (Zdigits2_bounds (Zpos mk) ltac:(lia)) as (Pk & _ & _).
  destruct (Zdigits2_bounds (Zpos mx) ltac:(lia)) as (Px & _ & _).
  fexp_facts. lia.
Qed.

(** [k * x <= k] for [0 <= x <= 1.0] and a positive [k], and it is not
    negative. *)
Lemma mul_upper (mk : positive) (ek : Z) (x : float) :
  canonical mk ek -> at_most false x 1%R ->
  at_most false (F64.mul (S754_finite false mk ek) x) (F2R (Zpos mk) ek).
Proof.
  intros Ck [->|(mx & ex & -> & Cx & V)]; [now left|].
  unfold F64.mul, SFmul. cbn [xorb].
  apply (round_upper false _ _ loc_Exact (IZR (Zpos (mk * mx)))); auto; try lia.
  - apply located_of_loc_exact.
  - now apply mul_fine.
  - rewrite Pos2Z.inj_mul, mult_IZR, bpow_add.
    replace (IZR (Z.pos mk) * IZR (Z.pos mx) * (bpow ek * bpow ex))%R
      with (F2R (Zpos mk) ek * F2R (Zpos mx) ex)%R by (unfold F2R; ring).
    pose proof (F2R_pos mk ek). pose proof (F2R_pos mx ex). nra.
Qed.

(** Magnitudes and the comparison of floats. *)
Lemma at_most_leb (r : float) (mb : positive) (eb : Z) :
  canonical mb eb -> at_most false r (F2R (Zpos mb) eb) ->
  F64.leb F64.zero r = true /\ F64.leb r (S754_finite false mb eb) = true.
Proof.
  intros [Cb _] [->|(m & e & -> & [C _] & V)]; [split; reflexivity|].
  split; [reflexivity|].
  unfold F64.leb, SFleb, SFcompare.
  pose proof (F2R_lt_digits (Zpos m) e (Zpos mb) eb ltac:(lia) ltac:(lia) V).
  assert (e <= eb) by (fexp_facts; lia).
  destruct (Z.compare_spec e eb) as [E|L|G]; try reflexivity; [|lia].
  subst eb. apply F2R_le_inv in V.
  change (Pos.compare_cont Eq m mb) with (Pos.compare m mb).
  destruct (Pos.compare_spec m mb); try reflexivity. lia.
Qed.

(** The conversion of a positive integer is a positive float of the
    format. *)
Lemma float_of_int_pos (k : Z) (kf : float) :
  0 < k -> float_of_int k = Ok kf ->
  exists mk ek, kf = S754_finite false mk ek /\ canonical mk ek.
Proof.
  intros Hk. unfold float_of_int, F64.of_Z.
  destruct k as [|p|p]; try lia. unfold binary_normalize.
  pose proof (binary_round_lower false p 0 4503599627370496 (-52) canonical_one) as L.
  rewrite F2R_one in L.
  assert (1 <= F2R (Zpos p) 0)%R.
  { unfold F2R. rewrite bpow_0, Rmult_1_r. apply IZR_le. lia. }
  destruct (L H) as [->|(mk & ek & -> & C & _)]; [discriminate|].
  intros [= <-]. eauto.
Qed.

Lemma is_nonneg_nonneg (x : float) : F64.is_nonneg x = true -> nonneg x.
Proof.
  unfold F64.is_nonneg, nonneg.
  destruct x as [[|]|[|]| |[|] m e]; cbn [F64.valid valid_binary F64.is_nan F64.sign negb andb];
    rewrite ?andb_false_r, ?andb_true_r; try discriminate; intros H; auto.
  right. right. exists m, e. split; auto. now apply bounded_canonical.
Qed.

(** ** No NaN from finite ratings *)

Lemma binary_normalize_not_nan (m e : Z) (szero : bool) :
  F64.is_nan (binary_normalize F64.prec F64.emax m e szero) = false.
Proof.
  unfold binary_normalize, binary_round.
  destruct m as [|p|p]; auto;
    destruct (shl_align _ _ _) as [mz ez]; apply binary_round_aux_not_nan; lia.
Qed.

Lemma sub_finite_not_nan (a b : float) :
  F64.is_finite a = true -> F64.is_finite b = true -> F64.is_nan (F64.sub a b) = false.
Proof.
  destruct a as [sa|sa| |sa ma ea], b as [sb|sb| |sb mb eb]; try discriminate;
    intros _ _; simpl; auto.
  - now destruct sa, sb.
  - apply binary_normalize_not_nan.
Qed.

Lemma div_f400_not_nan (a : float) :
  F64.is_nan a = false -> F64.is_nan (F64.div a F64.f400) = false.
Proof.
  destruct a as [sa|sa| |sa ma ea]; try discriminate; intros _; auto.
  unfold F64.div, F64.f400, SFdiv.
  destruct (SFdiv_core_located ma 7036874417766400 ea (-44)) as (q & e' & l & x & -> & Hq & _).
  now apply binary_round_aux_not_nan.
Qed.

Section Bounds.

Variable libm_pow : float -> float -> float.

(** The C library's [pow] gives a float of the format that is neither
    negative nor NaN, as a power of ten is. *)
Hypothesis libm_pow_nonneg : forall y, F64.is_nonneg (libm_pow F64.ten y) = true.

Lemma pow_ten_nonneg (y p : float) :
  F64.is_nan y = false -> pow_ten libm_pow y = Ok p -> nonneg p.
Proof.
  intros Ny. unfold pow_ten.
  destruct (F64.eqb y F64.zero).
  - intros [= <-]. right. right. exists 4503599627370496%positive, (-52).
    split; [reflexivity | apply canonical_one].
  - rewrite Ny. destruct (F64.is_inf y).
    + intros [= <-]. destruct (F64.ltb F64.zero y); [right; left|left]; reflexivity.
    + destruct (F64.is_inf (libm_pow F64.ten y)); [discriminate|].
      intros [= <-]. apply is_nonneg_nonneg, libm_pow_nonneg.
Qed.

(** The expected score lies between 0 and 1. *)
Lemma expected_score_range (ra rb e : float) :
  F64.is_finite ra = true -> F64.is_finite rb = true ->
  expected_score libm_pow ra rb = Ok e -> at_most false e 1%R.
Proof.
  intros Fa Fb. unfold expected_score, rbind.
  destruct (float_truediv (F64.sub rb ra) F64.f400) as [y|] eqn:Y; [|discriminate].
  assert (Ny : F64.is_nan y = false).
  { unfold float_truediv in Y. destruct (F64.eqb F64.f400 F64.zero); [discriminate|].
    injection Y as <-. apply div_f400_not_nan, sub_finite_not_nan; assumption. }
  destruct (pow_ten libm_pow y) as [p|] eqn:P; [|discriminate].
  pose proof (add_one_lower p (pow_ten_nonneg y p Ny P)) as S.
  destruct (div_one_upper _ S) as [-> U]. now intros [= <-].
Qed.

Lemma rating_deltas_range (ra rb : float) (k_factor : Z) (delta_w delta_l : float) :
  F64.is_finite ra = true -> F64.is_finite rb = true -> 0 < k_factor ->
  rating_deltas libm_pow ra rb k_factor = Ok (delta_w, delta_l) ->
  exists k : float,
    float_of_int k_factor = Ok k
    /\ F64.leb F64.zero delta_w = true /\ F64.leb delta_w k = true.
Proof.
  intros Fa Fb Hk. unfold rating_deltas, rbind.
  destruct (expected_score libm_pow ra rb) as [e|] eqn:E; [|discriminate].
  pose proof (sub_one_upper e (expected_score_range ra rb e Fa Fb E)) as X.
  destruct (float_of_int k_factor) as [k|] eqn:K; [|discriminate].
  destruct (float_of_int_pos k_factor k Hk K) as (mk & ek & -> & Ck).
  intros [= <- <-]. exists (S754_finite false mk ek). split; [reflexivity|].
  apply at_most_leb; [assumption|]. now apply mul_upper.
Qed.

End Bounds.

Lemma at_most_opp_leb (r : float) (mb : positive) (eb : Z) :
  canonical mb eb -> at_most false r (F2R (Zpos mb) eb) ->
  F64.leb (F64.opp r) F64.zero = true
  /\ F64.leb (S754_finite true mb eb) (F64.opp r) = true.
Proof.
  intros [Cb _] [->|(m & e & -> & [C _] & V)]; [split; reflexivity|].
  split; [reflexivity|].
  unfold F64.leb, F64.opp, SFleb, SFopp, SFcompare. cbn [negb].
  pose proof (F2R_lt_digits (Zpos m) e (Zpos mb) eb ltac:(lia) ltac:(lia) V).
  assert (e <= eb) by (fexp_facts; lia).
  destruct (Z.compare_spec eb e) as [E|L|G]; try reflexivity; [|lia].
  subst eb. apply F2R_le_inv in V.
  change (Pos.compare_cont Eq mb m) with (Pos.compare mb m).
  destruct (Pos.compare_spec mb m); try reflexivity. lia.
Qed.

Lemma negative_of_range (dl dw : float) (mb : positive) (eb : Z) :
  canonical mb eb -> at_most false dw (F2R (Zpos mb) eb) -> negative_of dl dw ->
  F64.leb dl F64.zero = true /\ F64.leb (S754_finite true mb eb) dl = true.
Proof.
  intros Cb A [->|[Zl _]].
  - now apply at_most_opp_leb.
  - destruct dl; try discriminate. split; reflexivity.
Qed.

Section Bounds.

Variable libm_pow : float -> float -> float.
Hypothesis libm_pow_nonneg : forall y, F64.is_nonneg (libm_pow F64.ten y) = true.

Lemma rating_deltas_at_most (ra rb : float) (k_factor : Z) (delta_w delta_l : float) :
  F64.is_finite ra = true -> F64.is_finite rb = true -> 0 < k_factor ->
  rating_deltas libm_pow ra rb k_factor = Ok (delta_w, delta_l) ->
  exists mk ek,
    float_of_int k_factor = Ok (S754_finite false mk ek)
    /\ canonical mk ek
    /\ at_most false delta_w (F2R (Zpos mk) ek)
    /\ negative_of delta_l delta_w.
Proof.
  intros Fa Fb Hk. unfold rating_deltas, rbind.
  destruct (expected_score libm_pow ra rb) as [e|] eqn:E; [|discriminate].
  pose proof (sub_one_upper e (expected_score_range libm_pow libm_pow_nonneg ra rb e Fa Fb E)) as X.
  destruct (float_of_int k_factor) as [k|] eqn:K; [|discriminate].
  destruct (float_of_int_pos k_factor k Hk K) as (mk & ek & -> & Ck).
  pose proof (mul_upper mk ek _ Ck X) as U.
  pose proof (mul_sub_zero (S754_finite false mk ek) (F64.sub F64.one e)) as N.
  set (dw := F64.mul _ (F64.sub F64.one e)) in *.
  set (dl := F64.mul _ (F64.sub F64.zero _)) in *.
  clearbody dw dl. intros [= <- <-]. exists mk, ek. auto.
Qed.

End Bounds.

(** ** The stored ratings move the right way *)

Lemma leb_refl_finite (a : float) : F64.is_finite a = true -> F64.leb a a = true.
Proof.
  destruct a as [s|s| |s m e]; try discriminate; intros _; [reflexivity|].
  unfold F64.leb, SFleb, SFcompare.
  rewrite Z.compare_refl, Pos.compare_cont_refl. now destruct s.
Qed.

Lemma at_least_leb (r : float) (mb : positive) (eb : Z) :
  canonical mb eb -> at_least false r (F2R (Zpos mb) eb) ->
  F64.leb (S754_finite false mb eb) r = true.
Proof.
  intros [Cb _] [->|(m & e & -> & [C _] & V)]; [reflexivity|].
  unfold F64.leb, SFleb, SFcompare.
  pose proof (F2R_lt_digits (Zpos mb) eb (Zpos m) e ltac:(lia) ltac:(lia) V).
  assert (eb <= e) by (fexp_facts; lia).
  destruct (Z.compare_spec eb e) as [E|L|G]; try reflexivity; [|lia].
  subst eb. apply F2R_le_inv in V.
  change (Pos.compare_cont Eq mb m) with (Pos.compare mb m).
  destruct (Pos.compare_spec mb m); try reflexivity. lia.
Qed.

Lemma at_most_neg_leb (r : float) (mb : positive) (eb : Z) :
  canonical mb eb -> at_most true r (F2R (Zpos mb) eb) ->
  F64.leb (S754_finite true mb eb) r = true.
Proof.
  intros Cb A.
  assert (A' : at_most false (F64.opp r) (F2R (Zpos mb) eb)).
  { destruct A as [->|(m & e & -> & C & V)]; [now left|].
    right. exists m, e. auto. }
  destruct (at_most_opp_leb _ _ _ Cb A') as [_ L].
  now destruct r as [[|]|[|]| |[|] m e].
Qed.

Lemma at_least_neg_leb (r : float) (mb : positive) (eb : Z) :
  canonical mb eb -> at_least true r (F2R (Zpos mb) eb) ->
  F64.leb r (S754_finite true mb eb) = true.
Proof.
  intros [Cb _] [->|(m & e & -> & [C _] & V)]; [reflexivity|].
  unfold F64.leb, SFleb, SFcompare.
  pose proof (F2R_lt_digits (Zpos mb) eb (Zpos m) e ltac:(lia) ltac:(lia) V).
  assert (eb <= e) by (fexp_facts; lia).
  destruct (Z.compare_spec e eb) as [E|L|G]; try reflexivity; [|lia].
  subst eb. apply F2R_le_inv in V.
  change (Pos.compare_cont Eq m mb) with (Pos.compare m mb).
  destruct (Pos.compare_spec m mb); try reflexivity. lia.
Qed.

(** The result of a rounding has the sign it was given. *)
Lemma binary_round_sign (s : bool) (mx : positive) (ex : Z) :
  let r := binary_round F64.prec F64.emax s mx ex in
  F64.is_nan r = false /\ F64.sign r = s.
Proof.
  intros r. unfold r.
  destruct (binary_round_eq s mx ex) as (mz & ez & -> & V & P).
  destruct (binary_round_aux_shape s (Zpos mz) ez loc_Exact (IZR (Zpos mz))
              ltac:(lia) (located_of_loc_exact _) P) as (m2 & Hlow & _ & _ & HZ & HP).
  assert (0 <= m2).
  { assert (0 < 2 ^ (fexp F64.prec F64.emax (Zdigits2 (Zpos mz) + ez) - ez))
      by (apply Z.pow_pos_nonneg; lia).
    assert (0 <= Zpos mz / 2 ^ (fexp F64.prec F64.emax (Zdigits2 (Zpos mz) + ez) - ez))
      by (apply Z.div_pos; lia).
    lia. }
  destruct (Z.eq_dec m2 0) as [Z|NZ].
  - rewrite (HZ Z). split; reflexivity.
  - destruct (HP ltac:(lia)) as (p3 & e2 & _ & _ & _ & ->).
    destruct (e2 <=? F64.emax - F64.prec); split; reflexivity.
Qed.

Lemma leb_neg_nonneg (m : positive) (e : Z) (r : float) :
  F64.is_nan r = false -> F64.sign r = false ->
  F64.leb (S754_finite true m e) r = true.
Proof. destruct r as [[|]|[|]| |[|] m' e']; try discriminate; reflexivity. Qed.

Lemma leb_nonpos_pos (m : positive) (e : Z) (r : float) :
  F64.is_nan r = false -> F64.sign r = true ->
  F64.leb r (S754_finite false m e) = true.
Proof. destruct r as [[|]|[|]| |[|] m' e']; try discriminate; reflexivity. Qed.

(** Adding a float that is not negative does not lower a rating. *)
Lemma add_nonneg_leb (a d : float) (b : R) :
  F64.valid a = true -> F64.is_finite a = true -> at_most false d b ->
  F64.leb a (F64.add a d) = true.
Proof.
  intros Va Fa [->|(md & ed & -> & Cd & _)].
  - destruct a as [[|]|[|]| |sa ma ea]; try discriminate; try reflexivity.
    apply (leb_refl_finite (S754_finite sa ma ea)). reflexivity.
  - destruct a as [[|]|[|]| |sa ma ea]; try discriminate; try reflexivity.
    apply bounded_canonical in Va.
    unfold F64.add, SFadd.
    destruct (aligned_values ma md ea ed) as [V1 V2].
    set (ez := Z.min ea ed) in *.
    set (A := fst (shl_align ma ea ez)) in *.
    set (D := fst (shl_align md ed ez)) in *.
    pose proof (F2R_pos ma ea). pose proof (F2R_pos md ed).
    destruct sa; cbn [cond_Zopp].
    + assert (V : F2R (- Zpos A + Zpos D) ez = (F2R (Zpos md) ed - F2R (Zpos ma) ea)%R).
      { rewrite F2R_plus, <- V1, <- V2. unfold F2R. rewrite opp_IZR. ring. }
      destruct (- Zpos A + Zpos D) as [|p|p] eqn:Z; unfold binary_normalize.
      * reflexivity.
      * destruct (binary_round_sign false p ez). now apply leb_neg_nonneg.
      * apply at_most_neg_leb; [assumption|]. apply binary_round_upper; [assumption|].
        assert (F2R (Zneg p) ez = (- F2R (Zpos p) ez)%R)
          by (unfold F2R; change (Zneg p) with (- Zpos p); rewrite opp_IZR; ring).
        lra.
    + change (Zpos A + Zpos D) with (Zpos (A + D)). unfold binary_normalize.
      apply at_least_leb; [assumption|]. apply binary_round_lower; [assumption|].
      rewrite Pos2Z.inj_add, F2R_plus, V1, V2. lra.
Qed.

(** Adding a float that is not positive does not raise a rating. *)
Lemma add_nonpos_leb (a d : float) (b : R) :
  F64.valid a = true -> F64.is_finite a = true ->
  (F64.is_zero d = true \/ at_most false (F64.opp d) b) ->
  F64.leb (F64.add a d) a = true.
Proof.
  intros Va Fa Hd.
  assert (Hd' : F64.is_zero d = true
                \/ exists md ed, d = S754_finite true md ed /\ canonical md ed).
  { destruct Hd as [Z|[Z|(md & ed & E & Cd & _)]]; auto.
    - left. now destruct d.
    - right. exists md, ed. split; auto. destruct d as [| | |[|] m e]; try discriminate;
        simpl in E; congruence. }
  clear Hd. destruct Hd' as [Z|(md & ed & -> & Cd)].
  - destruct d as [sd| | |]; try discriminate.
    destruct a as [[|]|[|]| |sa ma ea]; try discriminate; try (now destruct sd).
    apply (leb_refl_finite (S754_finite sa ma ea)). reflexivity.
  - destruct a as [[|]|[|]| |sa ma ea]; try discriminate; try reflexivity.
    apply bounded_canonical in Va.
    unfold F64.add, SFadd.
    destruct (aligned_values ma md ea ed) as [V1 V2].
    set (ez := Z.min ea ed) in *.
    set (A := fst (shl_align ma ea ez)) in *.
    set (D := fst (shl_align md ed ez)) in *.
    pose proof (F2R_pos ma ea). pose proof (F2R_pos md ed).
    destruct sa; cbn [cond_Zopp].
    + change (- Zpos A + - Zpos D) with (Zneg (A + D)). unfold binary_normalize.
      apply at_least_neg_leb; [assumption|]. apply binary_round_lower; [assumption|].
      rewrite Pos2Z.inj_add, F2R_plus, V1, V2. lra.
    + assert (V : F2R (Zpos A + - Zpos D) ez = (F2R (Zpos ma) ea - F2R (Zpos md) ed)%R).
      { rewrite F2R_plus, <- V1, <- V2. unfold F2R. rewrite opp_IZR. ring. }
      destruct (Zpos A + - Zpos D) as [|p|p] eqn:Z; unfold binary_normalize.
      * reflexivity.
      * apply at_most_leb; [assumption|]. apply binary_round_upper; [assumption|]. lra.
      * destruct (binary_round_sign true p ez). now apply leb_nonpos_pos.
Qed.

(** ** Every float of a session is a float of the format *)

Lemma binary_round_aux_valid (s : bool) (m e : Z) (l : location) (x : R) :
  0 <= m -> located (shr_record_of_loc m l) x ->
  e <= fexp F64.prec F64.emax (Zdigits2 m + e) ->
  F64.valid (binary_round_aux F64.prec F64.emax s m e l) = true.
Proof.
  intros Hm Hx P.
  destruct (binary_round_aux_shape s m e l x Hm Hx P) as (m2 & Hlow & _ & _ & HZ & HP).
  assert (0 <= m2).
  { assert (0 < 2 ^ (fexp F64.prec F64.emax (Zdigits2 m + e) - e))
      by (apply Z.pow_pos_nonneg; lia).
    assert (0 <= m / 2 ^ (fexp F64.prec F64.emax (Zdigits2 m + e) - e))
      by (apply Z.div_pos; lia).
    lia. }
  destruct (Z.eq_dec m2 0) as [Z|NZ]; [now rewrite (HZ Z)|].
  destruct (HP ltac:(lia)) as (p3 & e2 & _ & _ & C & ->).
  destruct (Z.leb_spec e2 (F64.emax - F64.prec)) as [L|_]; [|reflexivity].
  apply bounded_canonical. split; [assumption|exact L].
Qed.

Lemma binary_normalize_valid (m e : Z) (szero : bool) :
  F64.valid (binary_normalize F64.prec F64.emax m e szero) = true.
Proof.
  unfold binary_normalize. destruct m as [|p|p]; [reflexivity| |];
    [destruct (binary_round_eq false p e) as (mz & ez & -> & _ & P)
    |destruct (binary_round_eq true p e) as (mz & ez & -> & _ & P)];
    apply (binary_round_aux_valid _ _ _ _ (IZR (Zpos mz)));
    auto using located_of_loc_exact; lia.
Qed.

Lemma add_valid (a b : float) :
  F64.valid a = true -> F64.valid b = true -> F64.valid (F64.add a b) = true.
Proof.
  intros Va Vb.
  destruct a as [sa|sa| |sa ma ea], b as [sb|sb| |sb mb eb]; try reflexivity;
    try assumption; try (now destruct sa, sb).
  apply binary_normalize_valid.
Qed.

Lemma add_finite_valid (s : bool) (m : positive) (e : Z) (b : float) :
  F64.valid (S754_finite s m e) = true -> F64.valid (F64.add (S754_finite s m e) b) = true.
Proof.
  intros Va. destruct b as [sb|sb| |sb mb eb]; try reflexivity; try assumption.
  apply binary_normalize_valid.
Qed.

Lemma sub_valid (a b : float) :
  F64.valid a = true -> F64.valid b = true -> F64.valid (F64.sub a b) = true.
Proof.
  intros Va Vb.
  destruct a as [sa|sa| |sa ma ea], b as [sb|sb| |sb mb eb]; try reflexivity;
    try assumption; try (now destruct sa, sb).
  apply binary_normalize_valid.
Qed.

Lemma mul_valid (a b : float) :
  F64.valid a = true -> F64.valid b = true -> F64.valid (F64.mul a b) = true.
Proof.
  intros Va Vb.
  destruct a as [sa|sa| |sa ma ea], b as [sb|sb| |sb mb eb]; try reflexivity.
  apply bounded_canonical in Va, Vb.
  apply (binary_round_aux_valid _ _ _ _ (IZR (Zpos (ma * mb))));
    auto using located_of_loc_exact, mul_fine; lia.
Qed.

Lemma div_valid (a b : float) : F64.valid (F64.div a b) = true.
Proof.
  destruct a as [sa|sa| |sa ma ea], b as [sb|sb| |sb mb eb]; try reflexivity.
  unfold F64.div, SFdiv.
  destruct (SFdiv_core_located ma mb ea eb) as (q & e' & l & x & -> & Hq & P & Lx & _).
  now apply (binary_round_aux_valid _ _ _ _ x).
Qed.

Lemma float_of_int_valid (n : Z) (k : float) : float_of_int n = Ok k -> F64.valid k = true.
Proof.
  unfold float_of_int. destruct (F64.is_inf (F64.of_Z n)); [discriminate|].
  intros H. assert (k = F64.of_Z n) by congruence. subst k.
  apply binary_normalize_valid.
Qed.

Lemma rating_deltas_valid (libm_pow : float -> float -> float)
      (ra rb : float) (k_factor : Z) (delta_w delta_l : float) :
  rating_deltas libm_pow ra rb k_factor = Ok (delta_w, delta_l) ->
  F64.valid delta_w = true /\ F64.valid delta_l = true.
Proof.
  rewrite rating_deltas_eq. unfold rbind.
  destruct (float_truediv (F64.sub rb ra) F64.f400) as [y|]; [|discriminate].
  destruct (pow_ten libm_pow y) as [p|]; [|discriminate].
  destruct (float_truediv F64.one (F64.add F64.one p)) as [e|] eqn:E; [|discriminate].
  destruct (float_of_int k_factor) as [k|] eqn:K; [|discriminate].
  assert (Ve : F64.valid e = true).
  { unfold float_truediv in E. destruct (F64.eqb _ _); [discriminate|].
    assert (e = F64.div F64.one (F64.add F64.one p)) by congruence.
    subst e. apply div_valid. }
  pose proof (float_of_int_valid _ _ K) as Vk.
  pose proof (sub_valid F64.one e eq_refl Ve) as Vx.
  pose proof (mul_valid _ _ Vk Vx) as Vw.
  pose proof (mul_valid _ _ Vk (sub_valid F64.zero _ eq_refl Vx)) as Vl.
  set (dw := F64.mul _ (F64.sub F64.one e)) in *.
  set (dl := F64.mul _ (F64.sub F64.zero _)) in *.
  clearbody dw dl. intros [= <- <-]. auto.
Qed.

Lemma ratings_valid_create (name : string) (d : registry) :
  ratings_valid d -> ratings_valid (create name d).
Proof.
  intros H n p Hin. apply In_create in Hin. destruct Hin as [[= _ ->]|Hin]; eauto.
Qed.

Lemma ratings_valid_modify (name : string) (f : player -> player) (d : registry) :
  (forall p, F64.valid (rating p) = true -> F64.valid (rating (f p)) = true) ->
  ratings_valid d -> ratings_valid (modify name f d).
Proof.
  intros Hf H n p Hin. apply In_modify in Hin.
  destruct Hin as [(q & Hq & [= _ ->])|Hin]; eauto.
Qed.

Lemma update_elo_ratings_valid (libm_pow : float -> float -> float)
      (winner loser : string) (k_factor : Z) (st : session_state) :
  ratings_valid (players st) ->
  ratings_valid (players (fst (update_elo libm_pow winner loser k_factor st))).
Proof.
  intros H.
  destruct (update_elo_eq libm_pow winner loser k_factor st) as (pw & pl & Lw & Ll & E).
  rewrite E. clear E.
  pose proof (ratings_valid_create loser _ (ratings_valid_create winner _ H)) as Hc.
  destruct (rating_deltas _ _ _ _) as [[dw dl]|e] eqn:D; cbn [fst players with_players];
    [|assumption].
  destruct (rating_deltas_valid _ _ _ _ _ _ D) as [Vw Vl].
  assert (Va : F64.valid (F64.add (rating pw) dw) = true)
    by (apply add_valid; [apply (Hc winner), lookup_In, Lw | assumption]).
  assert (Vb : F64.valid (F64.add (rating pl) dl) = true)
    by (apply add_valid; [apply (Hc loser), lookup_In, Ll | assumption]).
  unfold after_match.
  repeat (apply ratings_valid_modify; [intros p Hp; try exact Hp; assumption|]).
  assumption.
Qed.

Lemma run_ratings_valid (libm_pow : float -> float -> float)
      (calls : list call) (st : session_state) :
  ratings_valid (players st) -> ratings_valid (players (run libm_pow calls st)).
Proof.
  revert st. induction calls as [|c calls IH]; intros st H; simpl; auto.
  apply IH. unfold record_match, bind.
  pose proof (update_elo_ratings_valid libm_pow (c_winner c) (c_loser c) (c_k c) st H) as U.
  destruct (update_elo libm_pow (c_winner c) (c_loser c) (c_k c) st) as [st1 [r|e]];
    exact U.
Qed.

(** ** The leaderboard of a session does not raise *)

Lemma int_truediv_total (a b : Z) :
  0 <= a <= b -> 0 < b -> exists q, int_truediv a b = Ok q.
Proof.
  intros Ha Hb. unfold int_truediv.
  destruct b as [|pb|pb]; try lia. destruct a as [|pa|pa]; try lia; [eauto|].
  cbn [Z.abs Z.to_pos Z.ltb Z.compare xorb]. unfold F64.of_quotient.
  pose proof (div_upper false pa pb 0 0 4503599627370496 (-52) canonical_one) as U.
  rewrite F2R_one in U.
  assert (F2R (Zpos pa) 0 <= 1 * F2R (Zpos pb) 0)%R.
  { unfold F2R. rewrite bpow_0, !Rmult_1_r, Rmult_1_l. apply IZR_le. lia. }
  specialize (U H).
  destruct (SFdiv_core_binary _ _ _ _ _ _) as [[q e'] l].
  destruct U as [->|(m & e & -> & _)]; cbn [F64.is_inf]; eauto.
Qed.

Lemma row_of_total (name : string) (info : player) :
  counters_ok info -> exists r, row_of name info = Ok r.
Proof.
  intros (G & W & L & _). rewrite row_of_eq. unfold rbind.
  destruct (Z.ltb_spec 0 (games info)) as [Pos|_]; [|eauto].
  destruct (int_truediv_total (wins info) (games info) ltac:(lia) Pos) as [q ->]. eauto.
Qed.

Lemma leaderboard_rows_total (st : session_state) :
  registry_ok (players st) -> exists rows, snd (leaderboard_rows st) = Ok rows.
Proof.
  intros [ND H]. rewrite leaderboard_rows_eq. cbn [snd].
  assert (T : exists rows, rows_of (players st) = Ok rows).
  { assert (H' : forall name p, In (name, p) (players st) -> counters_ok p)
      by (intros name p Hin; apply (H name), In_lookup; assumption).
    clear H ND. induction (players st) as [|[name info] items IH]; simpl; [eauto|].
    destruct (row_of_total name info (H' name info (or_introl eq_refl))) as [r ->].
    destruct IH as [rs ->]; [intros n p Hin; apply (H' n p); now right|].
    unfold rbind. eauto. }
  destruct T as [rows ->]. unfold rbind. eauto.
Qed.

(** ** NaN ratings *)

Lemma nan_row_unranked (x y : row) :
  F64.is_nan (r_rating x) = true -> ~ ranks_before x y /\ ~ ranks_before y x.
Proof.
  unfold ranks_before. destruct (r_rating x); try discriminate. intros _.
  unfold F64.ltb, F64.eqb, SFltb, SFeqb.
  split; intros [H|[[H _]|[H _]]]; destruct (r_rating y); discriminate.
Qed.

(** The sample of the C library meets what the bounds ask of [pow]. *)
Lemma libm_pow_sample_nonneg (y : float) :
  F64.is_nonneg (libm_pow_sample F64.ten y) = true.
Proof.
  unfold libm_pow_sample.
  repeat match goal with |- context [if ?b then _ else _] => destruct b end;
    reflexivity.
Qed.

(** * The ledger and the application *)

(** ** Dicts *)

Lemma dict_get_set {V : Type} (key key' : string) (v : V) (d : list (string * V)) :
  Dict.get key' (Dict.set key v d) =
  if String.eqb key' key then Some v else Dict.get key' d.
Proof.
  induction d as [|[k w] d IH]; simpl.
  - reflexivity.
  - destruct (String.eqb key k) eqn:E; simpl.
    + apply String.eqb_eq in E. subst k.
      now destruct (String.eqb key' key).
    + rewrite IH. destruct (String.eqb key' k) eqn:E'; auto.
      destruct (String.eqb key' key) eqn:E''; auto.
      apply String.eqb_eq in E', E''. subst. now rewrite String.eqb_refl in E.
Qed.

Lemma dict_get_fold {V : Type} (key : string) (items acc : list (string * V)) :
  Dict.get key (fold_left (fun d kv => Dict.set (fst kv) (snd kv) d) items acc) =
  match last_value key items with
  | Some v => Some v
  | None => Dict.get key acc
  end.
Proof.
  revert acc. induction items as [|[k v] items IH]; intros acc; simpl; auto.
  rewrite IH. destruct (last_value key items); auto.
  rewrite dict_get_set. now destruct (String.eqb key k).
Qed.

Lemma dict_get_of_items {V : Type} (key : string) (items : list (string * V)) :
  Dict.get key (Dict.of_items items) = last_value key items.
Proof.
  unfold Dict.of_items. rewrite dict_get_fold. now destruct (last_value key items).
Qed.

Lemma dict_set_not_nil {V : Type} (key : string) (v : V) (d : list (string * V)) :
  Dict.set key v d <> [].
Proof. destruct d as [|[k w] d]; simpl; [|destruct (String.eqb key k)]; discriminate. Qed.

Lemma dict_fold_not_nil {V : Type} (items acc : list (string * V)) :
  acc <> [] -> fold_left (fun d kv => Dict.set (fst kv) (snd kv) d) items acc <> [].
Proof.
  revert acc. induction items as [|kv items IH]; intros acc H; simpl; auto.
  apply IH, dict_set_not_nil.
Qed.

Lemma dict_set_keys {V : Type} (key : string) (v : V) (d : list (string * V)) :
  NoDup (map fst d) -> NoDup (map fst (Dict.set key v d)).
Proof.
  assert (K : forall d : list (string * V),
             forall x, In x (map fst (Dict.set key v d)) -> x = key \/ In x (map fst d)).
  { clear d. induction d as [|[k w] d IH]; simpl.
    - intros x [<-|[]]. now left.
    - destruct (String.eqb key k) eqn:E; simpl; intros x [<-|H]; auto.
      destruct (IH x H); auto. }
  induction d as [|[k w] d IH]; simpl; intros ND.
  - repeat constructor. simpl. tauto.
  - inversion ND as [|? ? Hk ND']; subst.
    destruct (String.eqb key k) eqn:E; simpl; [now constructor|].
    constructor; auto. intros H. destruct (K d k H) as [->|]; auto.
    now rewrite String.eqb_refl in E.
Qed.

Lemma dict_of_items_keys {V : Type} (items : list (string * V)) :
  NoDup (map fst (Dict.of_items items)).
Proof.
  unfold Dict.of_items.
  assert (G : forall acc : list (string * V),
             NoDup (map fst acc) ->
             NoDup (map fst (fold_left (fun d kv => Dict.set (fst kv) (snd kv) d) items acc))).
  { induction items as [|kv items IH]; intros acc H; simpl; auto.
    apply IH, dict_set_keys, H. }
  apply G. constructor.
Qed.

(** The last item with a key, as a place in the list. *)
Lemma last_value_Some {V : Type} (key : string) (items : list (string * V)) (v : V) :
  last_value key items = Some v <->
  exists l1 l2, items = l1 ++ (key, v) :: l2
                /\ Forall (fun kv => fst kv <> key) l2.
Proof.
  revert v. induction items as [|[k w] items IH]; intros v; simpl.
  - split; [discriminate|]. intros (l1 & l2 & E & _). now destruct l1.
  - destruct (last_value key items) as [v'|] eqn:L.
    + split.
      * intros [= <-]. destruct (proj1 (IH v') eq_refl) as (l1 & l2 & -> & F).
        exists ((k, w) :: l1), l2. auto.
      * intros (l1 & l2 & E & F). destruct l1 as [|x l1]; simpl in E.
        -- inversion E; subst.
           destruct (proj1 (IH v') eq_refl) as (l1' & l2' & E' & _).
           rewrite E', Forall_app in F. destruct F as [_ F].
           inversion F as [|? ? Hx _]; subst. now elim Hx.
        -- inversion E; subst. apply IH. eauto.
    + split.
      * destruct (String.eqb key k) eqn:E; [|discriminate].
        apply String.eqb_eq in E. subst k. intros [= <-].
        exists [], items. split; auto.
        apply Forall_forall. intros [k' w'] Hin Heq. simpl in Heq. subst k'.
        apply in_split in Hin. destruct Hin as (l1 & l2 & ->).
        clear IH. revert L. induction l1 as [|[a b] l1 IHl]; simpl.
        -- destruct (last_value key l2); [discriminate|]. now rewrite String.eqb_refl.
        -- destruct (last_value key (l1 ++ (key, w') :: l2)); [discriminate|]. auto.
      * intros (l1 & l2 & E & F). destruct l1 as [|x l1]; simpl in E.
        -- inversion E; subst. now rewrite String.eqb_refl.
        -- inversion E; subst.
           assert (X : None = Some v) by (apply IH; eauto).
           discriminate X.
Qed.

(** ** The log and the counters *)

Lemma won_by_cons (name : string) (m : match_record) (log : list match_record) :
  won_by name (m :: log) =
  (if String.eqb (m_winner m) name then 1 else 0) + won_by name log.
Proof.
  unfold won_by. simpl. destruct (String.eqb (m_winner m) name); simpl List.length; lia.
Qed.

Lemma lost_by_cons (name : string) (m : match_record) (log : list match_record) :
  lost_by name (m :: log) =
  (if String.eqb (m_loser m) name then 1 else 0) + lost_by name log.
Proof.
  unfold lost_by. simpl. destruct (String.eqb (m_loser m) name); simpl List.length; lia.
Qed.

(** A name that is not registered has no logged match. *)
Lemma unregistered_counts (name : string) (d : registry) (log : list match_record) :
  mem name d = false -> Forall (match_ok d) log ->
  won_by name log = 0 /\ lost_by name log = 0.
Proof.
  intros Hm H. induction H as [|m log (_ & Hw & Hl) _ IH]; [split; reflexivity|].
  rewrite won_by_cons, lost_by_cons.
  destruct (String.eqb_spec (m_winner m) name) as [E|_]; [congruence|].
  destruct (String.eqb_spec (m_loser m) name) as [E|_]; [congruence|].
  lia.
Qed.

Lemma match_ok_mono (d d' : registry) (m : match_record) :
  (forall name, mem name d = true -> mem name d' = true) ->
  match_ok d m -> match_ok d' m.
Proof. intros H (Hne & Hw & Hl). repeat split; auto. Qed.

Lemma mem_created (winner loser name : string) (d : registry) :
  mem name d = true -> mem name (create loser (create winner d)) = true.
Proof. intros H. now apply mem_create, mem_create. Qed.

Lemma mem_after_match (winner loser name : string) (ra rb : float) (d : registry) :
  mem name (after_match winner loser ra rb d) = mem name d.
Proof. unfold after_match. now rewrite !mem_modify. Qed.

Lemma ledger_created (winner loser : string) (st : session_state) :
  ledger_ok st -> ledger_ok (with_players (create loser (create winner (players st))) st).
Proof.
  intros (Hr & Hm & Hc). unfold ledger_ok. cbn [players matches with_players].
  split; [now apply registry_ok_created|]. split.
  - eapply Forall_impl; [|exact Hm]. intros m. apply match_ok_mono.
    intros name. apply mem_created.
  - intros name p. rewrite lookup_created. unfold player_or_new.
    destruct (lookup name (players st)) as [q|] eqn:L.
    + destruct (_ || _); intros [= <-]; now apply Hc.
    + destruct (_ || _); [|discriminate]. intros [= <-]. cbn [wins losses new_player].
      assert (M : mem name (players st) = false) by (unfold mem; now rewrite L).
      destruct (unregistered_counts name _ _ M Hm) as [-> ->]. split; reflexivity.
Qed.

Section Ledger.

Variable libm_pow : float -> float -> float.

(** A recorded match keeps the log and the counters in step. *)
Lemma record_match_ledger_ok (now winner loser : string) (k_factor : Z)
      (st : session_state) :
  winner <> loser -> ledger_ok st ->
  ledger_ok (fst (record_match libm_pow now winner loser k_factor st)).
Proof.
  intros Hne Hst. rewrite record_match_eq by assumption.
  pose proof (ledger_created winner loser st Hst) as (Hr & Hm & Hc).
  cbn [players matches with_players] in Hr, Hm, Hc.
  set (d := create loser (create winner (players st))) in *.
  destruct (rating_deltas _ _ _ _) as [[dw dl]|e]; cbn [fst];
    [|now apply ledger_created].
  set (new_ra := F64.add _ dw). set (new_rb := F64.add _ dl).
  clearbody new_ra new_rb.
  unfold ledger_ok. cbn [players matches].
  assert (Mw : mem winner d = true) by (apply mem_create, mem_create_same).
  assert (Ml : mem loser d = true) by apply mem_create_same.
  assert (Fw : String.eqb winner loser = false) by now apply String.eqb_neq.
  assert (Fl : String.eqb loser winner = false) by now apply String.eqb_neq, not_eq_sym.
  split; [|split].
  - destruct Hr as [ND H]. split; [auto using NoDup_after_match|].
    intros name p. rewrite after_match_lookup by assumption.
    destruct (String.eqb winner name); [|destruct (String.eqb loser name)].
    + destruct (lookup name d) eqn:L; intros [= <-]. eauto using counters_ok_won.
    + destruct (lookup name d) eqn:L; intros [= <-]. eauto using counters_ok_lost.
    + apply H.
  - constructor.
    + repeat split; cbn [m_winner m_loser]; rewrite ?mem_after_match; assumption.
    + eapply Forall_impl; [|exact Hm]. intros m. apply match_ok_mono.
      intros name. now rewrite mem_after_match.
  - intros name p. rewrite after_match_lookup, won_by_cons, lost_by_cons by assumption.
    cbn [m_winner m_loser].
    destruct (String.eqb_spec winner name) as [<-|Nw].
    + rewrite Fl. destruct (lookup winner d) as [q|] eqn:L; intros [= <-].
      destruct (Hc winner q L) as [E1 E2]. cbn [wins losses won]. split; lia.
    + destruct (String.eqb_spec loser name) as [<-|Nl].
      * destruct (lookup loser d) as [q|] eqn:L; intros [= <-].
        destruct (Hc loser q L) as [E1 E2]. cbn [wins losses lost]. split; lia.
      * intros L. destruct (Hc name p L) as [E1 E2]. split; lia.
Qed.

(** The same over a sequence of recorded matches. *)
Lemma run_ledger_ok (calls : list call) (st : session_state) :
  Forall (fun c => c_winner c <> c_loser c) calls ->
  ledger_ok st -> ledger_ok (run libm_pow calls st).
Proof.
  intros Hcalls. revert st.
  induction Hcalls as [|c calls Hc _ IH]; intros st Hok; simpl; auto.
  apply IH. now apply record_match_ledger_ok.
Qed.

End Ledger.

(** ** Script runs *)

Lemma initialize_stored (st : session_state) : initialize_state (stored st) = st.
Proof. now destruct st. Qed.

Lemma ledger_ok_ext (st st' : session_state) :
  players st' = players st -> matches st' = matches st ->
  ledger_ok st -> ledger_ok st'.
Proof. unfold ledger_ok. now intros -> ->. Qed.

Lemma names_ok_ext (st st' : session_state) :
  players st' = players st -> names_ok st -> names_ok st'.
Proof. unfold names_ok. now intros ->. Qed.

Lemma ledger_ok_empty (st : session_state) :
  players st = [] -> matches st = [] -> ledger_ok st.
Proof.
  intros Hp Hm. unfold ledger_ok, registry_ok. rewrite Hp, Hm. simpl.
  repeat split; try constructor; discriminate.
Qed.

Lemma can_submit_true (a b : string) :
  can_submit a b = true -> a <> EmptyString /\ b <> EmptyString /\ a <> b.
Proof.
  unfold can_submit. rewrite !andb_true_iff, !negb_true_iff.
  intros [[Ha Hb] Hab]. now rewrite !String.eqb_neq in *.
Qed.

Section Scripts.

Variable strip : string -> string.
Variable lower : string -> string.
Variable libm_pow : float -> float -> float.

Lemma names_ok_record_match (now winner loser : string) (k_factor : Z)
      (st : session_state) :
  winner <> loser -> winner <> EmptyString -> loser <> EmptyString ->
  names_ok st ->
  names_ok (fst (record_match libm_pow now winner loser k_factor st)).
Proof.
  intros Hne Hw Hl Hst. rewrite record_match_eq by assumption.
  assert (C : forall name,
             mem name (create loser (create winner (players st))) = true ->
             name <> EmptyString).
  { intros name. unfold mem. rewrite lookup_created.
    destruct (String.eqb_spec winner name) as [<-|_]; [auto|].
    destruct (String.eqb_spec loser name) as [<-|_]; [auto|].
    cbn [orb]. apply Hst. }
  destruct (rating_deltas _ _ _ _) as [[dw dl]|e]; cbn [fst]; [|exact C].
  intros name. cbn [players]. rewrite mem_after_match. apply C.
Qed.

(** The names of a recorded match are stripped, not empty and different. *)
Lemma record_block_names (w : widgets) :
  w_submit w && can_submit (strip (w_player_a w)) (strip (w_player_b w)) = true ->
  win_name strip w <> lose_name strip w
  /\ win_name strip w <> EmptyString /\ lose_name strip w <> EmptyString.
Proof.
  rewrite andb_true_iff. intros [_ C]. apply can_submit_true in C.
  destruct C as (Ha & Hb & Hab). unfold win_name, lose_name.
  destruct (String.eqb (w_winner w) "Player A"); auto.
Qed.

Lemma record_block_ok (w : widgets) (k_factor : Z) (st : session_state) :
  ledger_ok st -> names_ok st ->
  ledger_ok (fst (record_block strip libm_pow w k_factor st))
  /\ names_ok (fst (record_block strip libm_pow w k_factor st)).
Proof.
  intros Hl Hn. unfold record_block.
  destruct (w_submit w && can_submit _ _) eqn:C; [|now split].
  destruct (record_block_names w C) as (Hne & Hw & Hlo).
  pose proof (record_match_ledger_ok libm_pow (w_now w) _ _ k_factor st Hne Hl) as L.
  pose proof (names_ok_record_match (w_now w) _ _ k_factor st Hne Hw Hlo Hn) as N.
  destruct (record_match libm_pow (w_now w) _ _ k_factor st) as [st' [r|e]]; now split.
Qed.

Lemma render_login_ledger (users : credentials) (form : login_form) (st : session_state) :
  let st' := fst (render_login strip lower users form st) in
  players st' = players st /\ matches st' = matches st /\ default_k st' = default_k st.
Proof.
  unfold render_login. destruct (submitted form); [|now repeat split].
  destruct (accepts _ _ _ _); now repeat split.
Qed.

(** A script run keeps the ledger consistent. *)
Lemma script_ok (env : environment) (w : widgets) (s : raw_session) :
  ledger_ok (initialize_state s) -> names_ok (initialize_state s) ->
  ledger_ok (fst (script strip lower libm_pow env w s))
  /\ names_ok (fst (script strip lower libm_pow env w s)).
Proof.
  intros Hl Hn. unfold script.
  set (st := initialize_state s) in *.
  destruct (authed st); cbn [negb].
  - set (st1 := with_default_k (w_k_factor w) st).
    set (st2 := if w_reset w then fst (reset st1) else st1).
    assert (H2 : ledger_ok st2 /\ names_ok st2).
    { unfold st2. destruct (w_reset w).
      - split; [now apply ledger_ok_empty|]. intros name. discriminate.
      - split; [now apply (ledger_ok_ext st) | now apply (names_ok_ext st)]. }
    destruct H2 as [L2 N2].
    destruct (w_logout w); cbn [fst].
    + split; [now apply (ledger_ok_ext st2) | now apply (names_ok_ext st2)].
    + pose proof (record_block_ok w (w_k_factor w) st2 L2 N2) as R.
      destruct (record_block strip libm_pow w (w_k_factor w) st2) as [st3 [u|e]];
        cbn [fst] in *; [|exact R].
      rewrite leaderboard_rows_eq.
      destruct (rbind (rows_of (players st3)) _) as [rows|e]; exact R.
  - pose proof (render_login_ledger (load_credentials env) (w_login w) st) as (Hp & Hm & _).
    destruct (render_login strip lower (load_credentials env) (w_login w) st) as [st' [|]];
      cbn [fst] in *;
      (split; [now apply (ledger_ok_ext st) | now apply (names_ok_ext st)]).
Qed.

Lemma browse_ok (events : list (environment * widgets)) (s : raw_session) :
  ledger_ok (initialize_state s) -> names_ok (initialize_state s) ->
  ledger_ok (initialize_state (browse strip lower libm_pow events s))
  /\ names_ok (initialize_state (browse strip lower libm_pow events s)).
Proof.
  revert s. induction events as [|[env w] events IH]; intros s Hl Hn; simpl; [now split|].
  apply IH; rewrite initialize_stored; now apply script_ok.
Qed.

End Scripts.

(** ** Sign-in *)

Section SignIn.

Variable lower : string -> string.

(** The password [users_lower] holds for a lowered name is that of the
    last user whose lowered name it is. *)
Lemma accepts_iff (users : credentials) (username password : string) :
  accepts lower users username password = true <->
  exists l1 k l2,
    users = l1 ++ (k, password) :: l2
    /\ lower k = lower username
    /\ Forall (fun kv => lower (fst kv) <> lower username) l2.
Proof.
  unfold accepts, users_lower. rewrite dict_get_of_items.
  set (f := fun kv : string * string => (lower (fst kv), snd kv)).
  split.
  - destruct (last_value _ _) as [v|] eqn:L; [|discriminate].
    intros E. apply String.eqb_eq in E. subst v.
    apply last_value_Some in L. destruct L as (m1 & m2 & E & F).
    apply map_eq_app in E. destruct E as (l1 & l2' & -> & <- & E2).
    destruct l2' as [|[k v] l2]; [discriminate|].
    injection E2 as Ek <- <-. exists l1, k, l2. repeat split; auto.
    rewrite Forall_map in F. exact F.
  - intros (l1 & k & l2 & -> & Ek & F).
    assert (L : last_value (lower username) (map f (l1 ++ (k, password) :: l2))
                = Some password).
    { apply last_value_Some. exists (map f l1), (map f l2). split.
      - rewrite map_app. simpl. unfold f at 2. simpl. now rewrite Ek.
      - rewrite Forall_map. exact F. }
    rewrite L. apply String.eqb_refl.
Qed.

End SignIn.

Lemma load_credentials_not_nil (env : environment) : load_credentials env <> [].
Proof.
  unfold load_credentials.
  destruct (secrets env) as [| | |[|item items]];
    try (destruct (truthy_env _ && truthy_env _); discriminate).
  unfold Dict.of_items. cbn [fold_left]. apply dict_fold_not_nil, dict_set_not_nil.
Qed.

(** ** What can be raised *)

Lemma at_least_one_not_zero (s : float) :
  at_least false s 1%R -> F64.eqb s F64.zero = false.
Proof. intros [->|(m & e & -> & _)]; reflexivity. Qed.

Section Raises.

Variable libm_pow : float -> float -> float.
Hypothesis libm_pow_nonneg : forall y, F64.is_nonneg (libm_pow F64.ten y) = true.

Lemma pow_ten_raises (y : float) (e : exn) :
  pow_ten libm_pow y = Raise e ->
  e = OverflowError /\ F64.is_finite y = true /\ F64.is_inf (libm_pow F64.ten y) = true.
Proof.
  unfold pow_ten. destruct (F64.eqb y F64.zero); [discriminate|].
  destruct y as [s|s| |s m ex]; try discriminate; cbn [F64.is_nan F64.is_inf].
  - destruct (F64.is_inf _); [|discriminate]. now intros [= <-].
  - destruct (F64.is_inf _); [|discriminate]. now intros [= <-].
Qed.

(** The division of [expected_score] by [1.0 + 10 ** y] does not raise. *)
Lemma expected_score_divides (y p : float) :
  pow_ten libm_pow y = Ok p ->
  float_truediv F64.one (F64.add F64.one p) = Ok (F64.div F64.one (F64.add F64.one p)).
Proof.
  intros P. unfold float_truediv.
  destruct (F64.is_nan y) eqn:Ny.
  - destruct y; try discriminate. injection P as <-. reflexivity.
  - pose proof (add_one_lower p (pow_ten_nonneg libm_pow libm_pow_nonneg y p Ny P)) as S.
    now rewrite (at_least_one_not_zero _ S).
Qed.

Lemma rating_deltas_raises (ra rb : float) (k_factor : Z) (e : exn) :
  rating_deltas libm_pow ra rb k_factor = Raise e ->
  e = OverflowError
  /\ (F64.is_inf (libm_pow F64.ten (F64.div (F64.sub rb ra) F64.f400)) = true
      \/ F64.is_inf (F64.of_Z k_factor) = true).
Proof.
  rewrite rating_deltas_eq. unfold rbind.
  change (float_truediv (F64.sub rb ra) F64.f400)
    with (Ok (F64.div (F64.sub rb ra) F64.f400)). cbv iota beta.
  destruct (pow_ten libm_pow _) as [p|e'] eqn:P.
  - rewrite (expected_score_divides _ _ P).
    unfold float_of_int. destruct (F64.is_inf (F64.of_Z k_factor)); [|discriminate].
    intros [= <-]. auto.
  - intros [= <-]. apply pow_ten_raises in P. destruct P as (-> & _ & P). auto.
Qed.

Lemma update_elo_raises (winner loser : string) (k_factor : Z) (st : session_state)
      (e : exn) :
  snd (update_elo libm_pow winner loser k_factor st) = Raise e -> e = OverflowError.
Proof.
  destruct (update_elo_eq libm_pow winner loser k_factor st) as (pw & pl & _ & _ & E).
  rewrite E. destruct (rating_deltas _ _ _ _) as [[dw dl]|e'] eqn:D; [discriminate|].
  intros [= <-]. now apply rating_deltas_raises in D.
Qed.

Lemma record_match_raises (now winner loser : string) (k_factor : Z)
      (st : session_state) (e : exn) :
  snd (record_match libm_pow now winner loser k_factor st) = Raise e ->
  e = OverflowError.
Proof.
  unfold record_match, bind.
  pose proof (update_elo_raises winner loser k_factor st) as U.
  destruct (update_elo libm_pow winner loser k_factor st) as [st1 [r|e']];
    cbn [snd] in *; [discriminate|].
  intros [= <-]. now apply U.
Qed.

End Raises.

(** ** Runs that complete *)

Section Completes.

Variable strip : string -> string.
Variable lower : string -> string.
Variable libm_pow : float -> float -> float.

(** The leaderboard of a consistent ledger is drawn. *)
Lemma script_leaderboard (st : session_state) :
  ledger_ok st ->
  exists rows, leaderboard_rows st = (st, Ok rows).
Proof.
  intros (Hr & _). destruct (leaderboard_rows_total st Hr) as [rows E].
  exists rows. rewrite leaderboard_rows_eq in *. cbn [snd] in E. now rewrite E.
Qed.

Lemma browse_ledger_ok (events : list (environment * widgets)) :
  ledger_ok (initialize_state (browse strip lower libm_pow events new_session))
  /\ names_ok (initialize_state (browse strip lower libm_pow events new_session)).
Proof.
  apply browse_ok.
  - now apply ledger_ok_empty.
  - intros name. discriminate.
Qed.

End Completes.

(** ** The leaderboard and the registry *)

Lemma row_of_player (name : string) (info : player) (r : row) :
  row_of name info = Ok r ->
  r_player r = name /\ r_rating r = round1 (rating info)
  /\ r_games r = games info /\ r_wins r = wins info /\ r_losses r = losses info.
Proof.
  rewrite row_of_eq. unfold rbind.
  destruct (if 0 <? games info then _ else _); [|discriminate].
  intros [= <-]. repeat split.
Qed.

Lemma rows_of_players (items : registry) (rows : list row) :
  rows_of items = Ok rows -> map r_player rows = map fst items.
Proof.
  intros E. apply rows_of_Forall2 in E.
  induction E as [|[name info] r items rows H _ IH]; simpl; auto.
  apply row_of_player in H. destruct H as [-> _]. now rewrite IH.
Qed.

(** ** Ties keep their order *)

Lemma filter_none {A : Type} (f : A -> bool) (l : list A) :
  Forall (fun t => f t = false) l -> filter f l = [].
Proof. induction 1 as [|t l Ht _ IH]; simpl; [|rewrite Ht]; auto. Qed.

Section Stability.

Context {A : Type}.
Variable lt : A -> A -> bool.
Variable dom : A -> Prop.

Hypothesis lt_trans :
  forall x y z, dom x -> dom y -> dom z -> lt x y = true -> lt y z = true -> lt x z = true.
Hypothesis lt_asym :
  forall x y, dom x -> dom y -> lt x y = true -> lt y x = false.
(** What is below [y] is below whatever is not below [y]. *)
Hypothesis lt_total :
  forall x y z, dom x -> dom y -> dom z -> lt x y = true -> lt z y = false -> lt x z = true.

Variable x : A.
Hypothesis Dx : dom x.

Lemma tied_above (z t : A) :
  dom z -> dom t -> tied lt x z = true -> lt z t = true -> tied lt x t = false.
Proof.
  intros Dz Dt T L. unfold tied in *.
  apply andb_true_iff in T. destruct T as [T1 T2]. apply negb_true_iff in T1, T2.
  destruct (lt x t) eqn:E; [reflexivity|].
  rewrite (lt_total z t x Dz Dt Dx L E) in T2. discriminate.
Qed.

Lemma insert_sorted_tied (z : A) (l : list A) :
  dom z -> Forall dom l -> ascending lt l ->
  filter (tied lt x) (insert_sorted lt z l)
  = filter (tied lt x) l ++ (if tied lt x z then [z] else []).
Proof.
  intros Dz Dl Hl. induction Hl as [|y l Hl IH Hy]; simpl.
  - now destruct (tied lt x z).
  - inversion Dl as [|? ? Dy Dl']; subst.
    destruct (lt z y) eqn:E.
    + simpl. destruct (tied lt x z) eqn:T; [|now rewrite app_nil_r].
      assert (F : filter (tied lt x) (y :: l) = []).
      { apply filter_none.
        constructor; [now apply (tied_above z)|].
        rewrite Forall_forall in Hy, Dl' |- *. intros t Ht.
        apply (tied_above z); auto.
        apply (lt_total z y t); auto. }
      simpl in F. now rewrite F.
    + simpl. rewrite (IH Dl'). now destruct (tied lt x y).
Qed.

Lemma stable_sort_tied_acc (l acc : list A) :
  Forall dom l -> Forall dom acc -> ascending lt acc ->
  filter (tied lt x) (fold_left (fun acc z => insert_sorted lt z acc) l acc)
  = filter (tied lt x) acc ++ filter (tied lt x) l.
Proof.
  intros Dl. revert acc. induction Dl as [|z l Dz Dl IH]; intros acc Dacc Hacc; simpl.
  - now rewrite app_nil_r.
  - rewrite IH.
    + rewrite insert_sorted_tied by assumption.
      rewrite <- app_assoc. now destruct (tied lt x z).
    + apply (Permutation_Forall (Permutation_sym (insert_sorted_perm lt z acc))).
      now constructor.
    + now apply (insert_sorted_ascending lt dom).
Qed.

(** The elements tied with [x] leave [sort_reverse] in the order they had. *)
Lemma sort_reverse_tied (l : list A) :
  Forall dom l ->
  filter (tied lt x) (sort_reverse lt l) = filter (tied lt x) l.
Proof.
  intros Dl. unfold sort_reverse, stable_sort.
  rewrite filter_rev, stable_sort_tied_acc.
  - simpl. rewrite filter_rev. apply rev_involutive.
  - apply (Permutation_Forall (Permutation_rev l)), Dl.
  - constructor.
  - constructor.
Qed.

End Stability.

Lemma lex5_lt_total (a b c : Z * Z * Z * Z * Z) :
  lex5_lt a b -> ~ lex5_lt c b -> lex5_lt a c.
Proof.
  destruct a as [[[[a1 a2] a3] a4] a5], b as [[[[b1 b2] b3] b4] b5],
           c as [[[[c1 c2] c3] c4] c5].
  unfold lex5_lt. lia.
Qed.

(** Rows that are tied in the order of the sort are rows with the same
    rating, wins and losses. *)
Lemma tied_same_key (x y : row) :
  F64.is_nan (r_rating x) = false -> F64.is_nan (r_rating y) = false ->
  tied row_lt x y = same_key x y.
Proof.
  intros Nx Ny. unfold tied, same_key, row_lt, sort_key, key_lt.
  unfold F64.eqb, F64.ltb, SFeqb, SFltb.
  rewrite (SFcompare_rank _ _ Nx Ny), (SFcompare_rank _ _ Ny Nx).
  rewrite (lex3_antisym (float_rank (r_rating x)) (float_rank (r_rating y))).
  destruct (lex3 (float_rank (r_rating x)) (float_rank (r_rating y))); cbn [negb CompOpp];
    try reflexivity.
  repeat (match goal with
          | |- context [Z.eqb ?a ?b] => destruct (Z.eqb_spec a b)
          | |- context [Z.ltb ?a ?b] => destruct (Z.ltb_spec a b)
          end; cbn [negb andb]);
    try reflexivity; exfalso; lia.
Qed.

(** ** The win rate *)

Lemma mul_comm (a b : float) : F64.mul a b = F64.mul b a.
Proof.
  destruct a as [sa|sa| |sa ma ea], b as [sb|sb| |sb mb eb];
    unfold F64.mul, SFmul; try reflexivity; rewrite (xorb_comm sa sb); try reflexivity.
  now rewrite (Pos.mul_comm ma mb), (Z.add_comm ea eb).
Qed.

Lemma canonical_f100 : canonical 7036874417766400 (-46).
Proof. split; [reflexivity | lia]. Qed.

Lemma F2R_f100 : F2R 7036874417766400 (-46) = 100%R.
Proof.
  unfold F2R. change 7036874417766400 with (100 * 2 ^ 46).
  rewrite mult_IZR, <- bpow_IZR by lia.
  rewrite Rmult_assoc, <- bpow_add. change (46 + -46) with 0. rewrite bpow_0. ring.
Qed.

(** The quotient of the wins by the games is at most [1.0]. *)
Lemma int_truediv_at_most (a b : Z) :
  0 <= a <= b -> 0 < b ->
  exists q, int_truediv a b = Ok q /\ at_most false q 1%R.
Proof.
  intros Ha Hb. unfold int_truediv.
  destruct b as [|pb|pb]; try lia. destruct a as [|pa|pa]; try lia.
  - exists (S754_zero false). split; [reflexivity | now left].
  - cbn [Z.abs Z.to_pos Z.ltb Z.compare xorb]. unfold F64.of_quotient.
    pose proof (div_upper false pa pb 0 0 4503599627370496 (-52) canonical_one) as U.
    rewrite F2R_one in U.
    assert (F2R (Zpos pa) 0 <= 1 * F2R (Zpos pb) 0)%R.
    { unfold F2R. rewrite bpow_0, !Rmult_1_r, Rmult_1_l. apply IZR_le. lia. }
    specialize (U H).
    destruct (SFdiv_core_binary _ _ _ _ _ _) as [[q e'] l].
    destruct U as [E|(m & e & E & C & V)]; rewrite E; cbn [F64.is_inf];
      eexists; (split; [reflexivity|]); [now left | right; eauto].
Qed.

(** The number of tenths of a float that is at most [B] is at most
    [10 * B]. *)
Lemma tenths_upper (m : positive) (e : Z) (B : Z) :
  0 < B -> (F2R (Zpos m) e <= IZR B)%R -> 0 <= tenths m e <= 10 * B.
Proof.
  intros HB H. unfold tenths, F2R in *. destruct e as [|k|k].
  - rewrite bpow_0, Rmult_1_r in H. apply le_IZR in H. lia.
  - rewrite bpow_IZR, <- mult_IZR in H by lia. apply le_IZR in H.
    assert (0 < 2 ^ Zpos k) by (apply Z.pow_pos_nonneg; lia). nia.
  - set (d := 2 ^ Zpos k).
    assert (Hd : 0 < d) by (apply Z.pow_pos_nonneg; lia).
    assert (Hm : Zpos m <= B * d).
    { apply le_IZR. rewrite mult_IZR. unfold d. rewrite <- bpow_IZR by lia.
      assert (E : (bpow (Zneg k) * bpow (Zpos k) = 1)%R).
      { rewrite <- bpow_add. change (Zneg k + Zpos k) with (Z.opp (Zpos k) + Zpos k).
        rewrite Z.add_opp_diag_l. apply bpow_0. }
      pose proof (bpow_pos (Zpos k)) as Pk.
      replace (IZR (Zpos m)) with (IZR (Zpos m) * bpow (Zneg k) * bpow (Zpos k))%R
        by (rewrite Rmult_assoc, E; ring).
      apply Rmult_le_compat_r; [lra | exact H]. }
    pose proof (Z.div_mod (10 * Zpos m) d ltac:(lia)) as DM.
    pose proof (Z.mod_pos_bound (10 * Zpos m) d Hd) as MB.
    assert (Q0 : 0 <= 10 * Zpos m / d) by (apply Z.div_pos; lia).
    assert (Q1 : 10 * Zpos m / d <= 10 * B) by (apply Z.div_le_upper_bound; nia).
    destruct (Z.compare_spec (2 * ((10 * Zpos m) mod d)) d) as [E|L|G].
    + destruct (Z.even _); [lia|].
      assert (10 * Zpos m / d <> 10 * B) by nia. lia.
    + lia.
    + assert (10 * Zpos m / d <> 10 * B) by nia. lia.
Qed.

(** [round(x, 1) <= B] for a float [x <= B] that is not negative, [B] a
    whole number the format holds. *)
Lemma round1_upper (x : float) (mb : positive) (eb : Z) (B : Z) :
  canonical mb eb -> F2R (Zpos mb) eb = IZR B -> 0 < B ->
  at_most false x (IZR B) -> at_most false (round1 x) (IZR B).
Proof.
  intros Cb Eb HB [->|(m & e & -> & C & V)]; [now left|].
  unfold round1. pose proof (tenths_upper m e B HB V) as T.
  destruct (tenths m e) as [|n|n]; [now left| |now left].
  unfold F64.of_quotient.
  pose proof (div_upper false n 10 0 0 mb eb Cb) as U.
  rewrite Eb in U.
  assert (F2R (Zpos n) 0 <= IZR B * F2R 10 0)%R.
  { unfold F2R. rewrite bpow_0, !Rmult_1_r, <- mult_IZR. apply IZR_le. lia. }
  specialize (U H).
  destruct (SFdiv_core_binary _ _ _ _ _ _) as [[q e'] l]. exact U.
Qed.

(** The win rate of a player who won no more than was played. *)
Lemma row_of_win_pct (name : string) (info : player) :
  0 <= wins info <= games info ->
  exists r, row_of name info = Ok r
            /\ F64.leb F64.zero (r_win_pct r) = true
            /\ F64.leb (r_win_pct r) F64.f100 = true.
Proof.
  intros H. rewrite row_of_eq. unfold rbind.
  assert (A : exists x, (if 0 <? games info
                         then match int_truediv (wins info) (games info) with
                              | Ok q => Ok (F64.mul q F64.f100)
                              | Raise e => Raise e
                              end
                         else Ok F64.zero) = Ok x
                        /\ at_most false x 100%R).
  { destruct (Z.ltb_spec 0 (games info)) as [G|_].
    - destruct (int_truediv_at_most _ _ H G) as (q & -> & Q).
      eexists. split; [reflexivity|]. rewrite mul_comm, <- F2R_f100.
      apply mul_upper; [apply canonical_f100 | exact Q].
    - exists F64.zero. split; [reflexivity | now left]. }
  destruct A as (x & -> & X). eexists. split; [reflexivity|]. cbn [r_win_pct].
  apply (at_most_leb _ 7036874417766400 (-46) canonical_f100).
  rewrite F2R_f100.
  apply (round1_upper x 7036874417766400 (-46) 100 canonical_f100 F2R_f100); [lia | exact X].
Qed.

Lemma rows_of_win_pct (items : registry) :
  (forall name p, In (name, p) items -> 0 <= wins p <= games p) ->
  exists rows, rows_of items = Ok rows
               /\ Forall (fun r => F64.leb F64.zero (r_win_pct r) = true
                                   /\ F64.leb (r_win_pct r) F64.f100 = true) rows.
Proof.
  induction items as [|[name info] items IH]; intros H; simpl.
  - exists []. split; [reflexivity | constructor].
  - destruct (row_of_win_pct name info (H name info (or_introl eq_refl))) as (r & -> & R).
    destruct IH as (rs & -> & Rs); [intros n p Hin; apply (H n p); now right|].
    exists (r :: rs). split; [reflexivity | now constructor].
Qed.

(** ** Equal ratings *)

Lemma sub_self (r : float) : F64.is_finite r = true -> F64.sub r r = F64.zero.
Proof.
  destruct r as [s|s| |s m e]; try discriminate; intros _; unfold F64.sub, SFsub.
  - now destruct s.
  - now rewrite Z.sub_diag.
Qed.

(** Between two equal finite ratings the expected score is [0.5],
    whatever the C library. *)
Lemma rating_deltas_same_rating (libm_pow : float -> float -> float) (r : float)
      (k_factor : Z) :
  F64.is_finite r = true ->
  rating_deltas libm_pow r r k_factor =
  try k <- float_of_int k_factor ;
  Ok (F64.mul k F64.half, F64.mul k (F64.opp F64.half)).
Proof. intros F. rewrite rating_deltas_eq, (sub_self r F). reflexivity. Qed.

Lemma create_twice (name : string) (d : registry) :
  create name (create name d) = create name d.
Proof. unfold create at 1. now rewrite mem_create_same. Qed.

(** ** Ratings stay in range *)

Lemma canonical_unique (m1 m2 : positive) (e1 e2 : Z) :
  canonical m1 e1 -> canonical m2 e2 -> F2R (Zpos m1) e1 = F2R (Zpos m2) e2 ->
  m1 = m2 /\ e1 = e2.
Proof.
  intros [C1 _] [C2 _] E.
  pose proof (F2R_lt_digits (Zpos m1) e1 (Zpos m2) e2 ltac:(lia) ltac:(lia) ltac:(lra)).
  pose proof (F2R_lt_digits (Zpos m2) e2 (Zpos m1) e1 ltac:(lia) ltac:(lia) ltac:(lra)).
  assert (e1 = e2) by (fexp_facts; lia). subst e2. split; [|reflexivity].
  assert (Zpos m1 <= Zpos m2) by (apply (F2R_le_inv _ _ e1); lra).
  assert (Zpos m2 <= Zpos m1) by (apply (F2R_le_inv _ _ e1); lra).
  lia.
Qed.

(** A whole number below [2^53] is a float. *)
Lemma canonical_of_Z (n : Z) :
  0 < n < 2 ^ 53 -> exists m e, canonical m e /\ F2R (Zpos m) e = IZR n.
Proof.
  intros [Hn Hb].
  destruct (Zdigits2_bounds n Hn) as (Pd & Ld & Ud).
  pose proof (Zdigits2_le_of_lt_pow2 n 53 ltac:(lia) ltac:(lia) Hb) as D.
  set (d := Zdigits2 n) in *.
  assert (P2 : 0 < 2 ^ (53 - d)) by (apply Z.pow_pos_nonneg; lia).
  assert (Pm : 0 < n * 2 ^ (53 - d)) by nia.
  exists (Z.to_pos (n * 2 ^ (53 - d))), (d - 53). split.
  - unfold canonical. rewrite Z2Pos.id by exact Pm.
    rewrite Zdigits2_mul_pow2 by lia. fold d. fexp_facts. lia.
  - rewrite Z2Pos.id by exact Pm.
    rewrite F2R_shift by lia. replace (d - 53 + (53 - d)) with 0 by lia.
    unfold F2R. rewrite bpow_0. ring.
Qed.

(** Its conversion is exact. *)
Lemma of_Z_exact (n : Z) :
  0 < n < 2 ^ 53 ->
  exists m e, canonical m e /\ F2R (Zpos m) e = IZR n
              /\ F64.of_Z n = S754_finite false m e.
Proof.
  intros Hn. destruct (canonical_of_Z n Hn) as (m & e & C & V).
  exists m, e. split; [exact C|]. split; [exact V|].
  destruct n as [|p|p]; try lia. unfold F64.of_Z, binary_normalize.
  assert (E : F2R (Zpos p) 0 = F2R (Zpos m) e)
    by (rewrite V; unfold F2R; rewrite bpow_0; ring).
  pose proof (binary_round_upper false p 0 m e C ltac:(lra)) as U.
  pose proof (binary_round_lower false p 0 m e C ltac:(lra)) as L.
  destruct U as [Z|(m1 & e1 & E1 & C1 & V1)].
  - rewrite Z in L. destruct L as [L|(m2 & e2 & L & _)]; discriminate L.
  - rewrite E1 in L |- *. destruct L as [L|(m2 & e2 & L & C2 & V2)]; [discriminate L|].
    injection L as <- <-.
    destruct (canonical_unique m1 m e1 e C1 C ltac:(lra)) as [-> ->]. reflexivity.
Qed.

Lemma within_le (r : float) (b b' : R) : (b <= b')%R -> within r b -> within r b'.
Proof.
  intros H [s [->|(m & e & -> & C & V)]]; exists s; [now left|].
  right. exists m, e. split; [reflexivity|]. split; [exact C | lra].
Qed.

Lemma within_finite (r : float) (b : R) : within r b -> F64.is_finite r = true.
Proof. now intros [s [->|(m & e & -> & _)]]. Qed.

Lemma within_valid (r : float) (b : R) : within r b -> F64.valid r = true.
Proof.
  intros [s [->|(m & e & -> & C & _)]]; [reflexivity|].
  now apply bounded_canonical.
Qed.

Lemma within_opp (r : float) (b : R) : within r b -> within (F64.opp r) b.
Proof.
  intros [s [->|(m & e & -> & C & V)]]; exists (negb s); [now left|].
  right. exists m, e. auto.
Qed.

(** The sum of two floats within [ba] and [bd] is within [ba + bd], when
    that is a float. *)
Lemma add_within (a d : float) (ba bd : R) (mb : positive) (eb : Z) :
  canonical mb eb -> (0 <= ba)%R -> (0 <= bd)%R ->
  (ba + bd <= F2R (Zpos mb) eb)%R ->
  within a ba -> within d bd -> within (F64.add a d) (F2R (Zpos mb) eb).
Proof.
  intros Cb Pa Pd Hb Wa Wd.
  assert (Wa' := within_le a ba (F2R (Zpos mb) eb) ltac:(lra) Wa).
  assert (Wd' := within_le d bd (F2R (Zpos mb) eb) ltac:(lra) Wd).
  destruct Wa as [sa [->|(ma & ea & -> & Ca & Va)]];
    destruct Wd as [sd [->|(md & ed & -> & Cd & Vd)]].
  - exists (if Bool.eqb sa sd then sa else false). left. now destruct sa, sd.
  - exact Wd'.
  - exact Wa'.
  - unfold F64.add, SFadd.
    destruct (aligned_values ma md ea ed) as [V1 V2].
    set (ez := Z.min ea ed) in *.
    set (A := fst (shl_align ma ea ez)) in *.
    set (D := fst (shl_align md ed ez)) in *.
    pose proof (F2R_pos ma ea). pose proof (F2R_pos md ed).
    assert (V : (- F2R (Zpos mb) eb
                 <= F2R (cond_Zopp sa (Zpos A) + cond_Zopp sd (Zpos D)) ez
                 <= F2R (Zpos mb) eb)%R).
    { rewrite F2R_plus.
      assert (Ea : F2R (cond_Zopp sa (Zpos A)) ez
                   = (if sa then - F2R (Zpos ma) ea else F2R (Zpos ma) ea)%R).
      { rewrite <- V1. destruct sa; cbn [cond_Zopp]; [|reflexivity].
        unfold F2R. rewrite opp_IZR. ring. }
      assert (Ed : F2R (cond_Zopp sd (Zpos D)) ez
                   = (if sd then - F2R (Zpos md) ed else F2R (Zpos md) ed)%R).
      { rewrite <- V2. destruct sd; cbn [cond_Zopp]; [|reflexivity].
        unfold F2R. rewrite opp_IZR. ring. }
      rewrite Ea, Ed. destruct sa, sd; split; lra. }
    destruct (cond_Zopp sa (Zpos A) + cond_Zopp sd (Zpos D)) as [|p|p];
      unfold binary_normalize.
    + exists false. now left.
    + exists false. apply binary_round_upper; [assumption|]. lra.
    + exists true. apply binary_round_upper; [assumption|].
      assert (F2R (Zneg p) ez = (- F2R (Zpos p) ez)%R)
        by (unfold F2R; change (Zneg p) with (- Zpos p); rewrite opp_IZR; ring).
      lra.
Qed.

Lemma within_leb (r : float) (mb : positive) (eb : Z) :
  canonical mb eb -> within r (F2R (Zpos mb) eb) ->
  F64.leb (S754_finite true mb eb) r = true
  /\ F64.leb r (S754_finite false mb eb) = true.
Proof.
  intros Cb [[|] A].
  - split; [now apply at_most_neg_leb|].
    destruct A as [->|(m & e & -> & _)]; reflexivity.
  - split; [|now apply at_most_leb].
    destruct A as [->|(m & e & -> & _)]; reflexivity.
Qed.

Lemma within_f1200 : within F64.f1200 1200%R.
Proof.
  destruct (of_Z_exact 1200 ltac:(lia)) as (m & e & C & V & E).
  change (F64.of_Z 1200) with F64.f1200 in E. rewrite E.
  exists false. right. exists m, e. split; [reflexivity|]. split; [exact C | lra].
Qed.

Lemma ratings_within_le (b b' : R) (d : registry) :
  (b <= b')%R -> ratings_within b d -> ratings_within b' d.
Proof. intros H W name p L. apply (within_le _ b); eauto. Qed.

Lemma ratings_within_created (winner loser : string) (b : R) (d : registry) :
  (1200 <= b)%R -> ratings_within b d ->
  ratings_within b (create loser (create winner d))
  /\ within (rating (player_or_new winner d)) b
  /\ within (rating (player_or_new loser d)) b.
Proof.
  intros Hb W.
  assert (P : forall name, within (rating (player_or_new name d)) b).
  { intros name. unfold player_or_new. destruct (lookup name d) as [p|] eqn:L.
    - exact (W name p L).
    - apply (within_le _ 1200); [exact Hb | exact within_f1200]. }
  split; [|split; apply P].
  intros name p. rewrite lookup_created.
  destruct (_ || _); [|apply W]. intros [= <-]. apply P.
Qed.

Section Range.

Variable libm_pow : float -> float -> float.
Hypothesis libm_pow_nonneg : forall y, F64.is_nonneg (libm_pow F64.ten y) = true.

(** The two rating changes are within the K-factor. *)
Lemma rating_deltas_within (ra rb : float) (k_factor kmax : Z) (delta_w delta_l : float) :
  F64.is_finite ra = true -> F64.is_finite rb = true ->
  0 < k_factor <= kmax -> kmax < 2 ^ 53 ->
  rating_deltas libm_pow ra rb k_factor = Ok (delta_w, delta_l) ->
  within delta_w (IZR kmax) /\ within delta_l (IZR kmax).
Proof.
  intros Fa Fb Hk Hm D.
  destruct (rating_deltas_at_most libm_pow libm_pow_nonneg ra rb k_factor _ _ Fa Fb
              ltac:(lia) D) as (mk & ek & K & Ck & U & N).
  destruct (of_Z_exact k_factor ltac:(lia)) as (m & e & C & V & E).
  unfold float_of_int in K. rewrite E in K. cbn [F64.is_inf] in K.
  injection K as <- <-.
  assert (W : within delta_w (IZR kmax)).
  { apply (within_le _ (F2R (Zpos m) e)); [rewrite V; apply IZR_le; lia|].
    now exists false. }
  split; [exact W|].
  destruct N as [->|[Zl _]]; [now apply within_opp|].
  destruct delta_l as [s| | |]; try discriminate. exists s. now left.
Qed.

(** A recorded match widens the range of the ratings by the K-factor at
    most. *)
Lemma record_match_within (now winner loser : string) (k_factor kmax B : Z)
      (st : session_state) :
  winner <> loser -> 0 < k_factor <= kmax -> 1200 <= B -> B + kmax < 2 ^ 53 ->
  ratings_within (IZR B) (players st) ->
  ratings_within (IZR (B + kmax))
    (players (fst (record_match libm_pow now winner loser k_factor st))).
Proof.
  intros Hne Hk HB Hm W. rewrite record_match_eq by assumption.
  destruct (ratings_within_created winner loser (IZR B) (players st)
              ltac:(apply IZR_le; lia) W) as (Wd & Ww & Wl).
  assert (Le : (IZR B <= IZR (B + kmax))%R) by (apply IZR_le; lia).
  destruct (rating_deltas _ _ _ _) as [[dw dl]|e] eqn:D; cbn [fst players with_players];
    [|now apply (ratings_within_le (IZR B))].
  destruct (rating_deltas_within _ _ _ kmax _ _ (within_finite _ _ Ww) (within_finite _ _ Wl)
              Hk ltac:(lia) D) as [Xw Xl].
  destruct (canonical_of_Z (B + kmax) ltac:(lia)) as (mb & eb & Cb & Vb).
  assert (PB : (0 <= IZR B)%R) by (apply IZR_le; lia).
  assert (PK : (0 <= IZR kmax)%R) by (apply IZR_le; lia).
  assert (S : (IZR B + IZR kmax <= F2R (Zpos mb) eb)%R) by (rewrite Vb, plus_IZR; lra).
  intros name p. rewrite after_match_lookup by assumption. rewrite <- Vb.
  destruct (String.eqb winner name); [|destruct (String.eqb loser name)].
  - destruct (lookup name _); intros [= <-]. cbn [rating won].
    now apply (add_within _ _ (IZR B) (IZR kmax)).
  - destruct (lookup name _); intros [= <-]. cbn [rating lost].
    now apply (add_within _ _ (IZR B) (IZR kmax)).
  - intros L. rewrite Vb. apply (within_le _ (IZR B)); [exact Le | exact (Wd name p L)].
Qed.

Lemma run_within (calls : list call) (kmax B : Z) (st : session_state) :
  Forall (fun c => c_winner c <> c_loser c /\ 0 < c_k c <= kmax) calls ->
  1200 <= B -> 0 <= kmax ->
  B + kmax * Z.of_nat (List.length calls) < 2 ^ 53 ->
  ratings_within (IZR B) (players st) ->
  ratings_within (IZR (B + kmax * Z.of_nat (List.length calls)))
                 (players (run libm_pow calls st)).
Proof.
  intros Hcalls. revert B st.
  induction Hcalls as [|c calls [Hne Hk] _ IH]; intros B st HB Hkm Hlt W.
  - simpl. now rewrite Z.mul_0_r, Z.add_0_r.
  - cbn [run List.length] in *. rewrite Nat2Z.inj_succ in *.
    replace (B + kmax * Z.succ (Z.of_nat (List.length calls)))
      with (B + kmax + kmax * Z.of_nat (List.length calls)) in * by lia.
    apply IH; try lia.
    apply record_match_within; auto; lia.
Qed.

End Range.

Section RangeOfScripts.

Variable strip : string -> string.
Variable lower : string -> string.
Variable libm_pow : float -> float -> float.
Hypothesis libm_pow_nonneg : forall y, F64.is_nonneg (libm_pow F64.ten y) = true.

Lemma script_within (env : environment) (w : widgets) (s : raw_session) (kmax B : Z) :
  0 < w_k_factor w <= kmax -> 1200 <= B -> B + kmax < 2 ^ 53 ->
  ratings_within (IZR B) (players (initialize_state s)) ->
  ratings_within (IZR (B + kmax)) (players (fst (script strip lower libm_pow env w s))).
Proof.
  intros Hk HB Hm W.
  assert (Le : (IZR B <= IZR (B + kmax))%R) by (apply IZR_le; lia).
  assert (W' := ratings_within_le _ _ _ Le W).
  unfold script. set (st := initialize_state s) in *.
  destruct (authed st); cbn [negb].
  - set (st1 := with_default_k (w_k_factor w) st).
    set (st2 := if w_reset w then fst (reset st1) else st1).
    assert (W2 : ratings_within (IZR B) (players st2)).
    { unfold st2. destruct (w_reset w); [|exact W]. intros name p. discriminate. }
    destruct (w_logout w); cbn [fst].
    + apply (ratings_within_le (IZR B)); [exact Le|]. exact W2.
    + unfold record_block.
      destruct (w_submit w && can_submit _ _) eqn:C.
      * destruct (record_block_names strip w C) as (Hne & _).
        pose proof (record_match_within libm_pow libm_pow_nonneg (w_now w) _ _
                      (w_k_factor w) kmax B st2 Hne Hk HB Hm W2) as R.
        destruct (record_match libm_pow _ _ _ _ st2) as [st3 [r|e]]; cbn [fst] in *;
          [|exact R].
        rewrite leaderboard_rows_eq.
        destruct (rbind (rows_of (players st3)) _); exact R.
      * rewrite leaderboard_rows_eq.
        destruct (rbind (rows_of (players st2)) _); cbn [fst];
          apply (ratings_within_le (IZR B)); auto.
  - pose proof (render_login_ledger strip lower (load_credentials env) (w_login w) st)
      as (Hp & _).
    destruct (render_login strip lower (load_credentials env) (w_login w) st) as [st' [|]];
      cbn [fst] in *; now rewrite Hp.
Qed.

Lemma browse_within (events : list (environment * widgets)) (kmax B : Z) (s : raw_session) :
  Forall (fun ev => 0 < w_k_factor (snd ev) <= kmax) events ->
  1200 <= B -> 0 <= kmax ->
  B + kmax * Z.of_nat (List.length events) < 2 ^ 53 ->
  ratings_within (IZR B) (players (initialize_state s)) ->
  ratings_within (IZR (B + kmax * Z.of_nat (List.length events)))
                 (players (initialize_state (browse strip lower libm_pow events s))).
Proof.
  intros Hev. revert B s.
  induction Hev as [|[env w] events Hk _ IH]; intros B s HB Hkm Hlt W.
  - simpl. now rewrite Z.mul_0_r, Z.add_0_r.
  - cbn [browse List.length snd] in *. rewrite Nat2Z.inj_succ in *.
    replace (B + kmax * Z.succ (Z.of_nat (List.length events)))
      with (B + kmax + kmax * Z.of_nat (List.length events)) in * by lia.
    apply IH; try lia. rewrite initialize_stored.
    apply script_within; auto; lia.
Qed.

End RangeOfScripts.

(** The rows of a registry without NaN come out in order. *)
Lemma leaderboard_rows_in_order (st : session_state) (rows : list row) :
  (forall name p, In (name, p) (players st) -> F64.is_nan (rating p) = false) ->
  snd (leaderboard_rows st) = Ok rows ->
  StronglySorted ranks_before rows.
Proof.
  intros Hst E.
  rewrite leaderboard_rows_eq in E. cbn [snd] in E. unfold rbind in E.
  destruct (rows_of (players st)) as [rows0|] eqn:R; [|discriminate].
  injection E as <-.
  pose proof (rows_not_nan st rows0 Hst R) as D.
  set (dom := fun r : row => F64.is_nan (r_rating r) = false) in *.
  assert (T : forall a b c, dom a -> dom b -> dom c ->
                            row_lt a b = true -> row_lt b c = true -> row_lt a c = true).
  { intros a b c Da Db Dc. rewrite !row_lt_rank by assumption. apply lex5_lt_trans. }
  assert (As : forall a b, dom a -> dom b -> row_lt a b = true -> row_lt b a = false).
  { intros a b Da Db H. apply row_lt_rank in H; auto.
    destruct (row_lt b a) eqn:F; auto.
    apply row_lt_rank in F; auto. now apply lex5_lt_asym in H. }
  pose proof (sort_reverse_descending row_lt dom T As rows0 D) as S.
  assert (Dall : Forall dom (sort_reverse row_lt rows0)).
  { apply (Permutation_Forall (Permutation_sym (sort_reverse_perm row_lt rows0))), D. }
  unfold descending in S. revert Dall.
  induction S as [|x l Sl IH Hx]; intros Dall; constructor.
  - apply IH. now inversion Dall.
  - inversion Dall as [|? ? Dx Dl]; subst.
    rewrite Forall_forall in Hx, Dl |- *. intros y Hy.
    apply row_lt_false; [exact Dx | exact (Dl y Hy) | exact (Hx y Hy)].
Qed.

(** ** The order of strings *)

Lemma ascii_compare_refl (c : Ascii.ascii) : Ascii.compare c c = Eq.
Proof. unfold Ascii.compare. apply N.compare_refl. Qed.

Lemma ascii_compare_eq (a b : Ascii.ascii) : Ascii.compare a b = Eq -> a = b.
Proof.
  unfold Ascii.compare. intros H. apply N.compare_eq in H.
  rewrite <- (Ascii.ascii_N_embedding a), <- (Ascii.ascii_N_embedding b). now rewrite H.
Qed.

Lemma ascii_compare_trans (a b c : Ascii.ascii) :
  Ascii.compare a b = Lt -> Ascii.compare b c = Lt -> Ascii.compare a c = Lt.
Proof. unfold Ascii.compare. rewrite !N.compare_lt_iff. apply N.lt_trans. Qed.

Lemma string_ltb_trans (a b c : string) :
  String.ltb a b = true -> String.ltb b c = true -> String.ltb a c = true.
Proof.
  unfold String.ltb.
  assert (T : forall a b c, String.compare a b = Lt -> String.compare b c = Lt ->
                            String.compare a c = Lt).
  { clear. induction a as [|x a IH]; intros [|y b] [|z c]; simpl; try discriminate; auto.
    destruct (Ascii.compare x y) eqn:Exy; try discriminate;
      destruct (Ascii.compare y z) eqn:Eyz; try discriminate; intros H1 H2.
    - apply ascii_compare_eq in Exy, Eyz. subst. rewrite ascii_compare_refl. eauto.
    - apply ascii_compare_eq in Exy. subst. now rewrite Eyz.
    - apply ascii_compare_eq in Eyz. subst. now rewrite Exy.
    - now rewrite (ascii_compare_trans x y z). }
  destruct (String.compare a b) eqn:E1; try discriminate.
  destruct (String.compare b c) eqn:E2; try discriminate.
  intros _ _. now rewrite (T a b c).
Qed.

Lemma string_ltb_asym (a b : string) : String.ltb a b = true -> String.ltb b a = false.
Proof.
  unfold String.ltb. rewrite (String.compare_antisym a b).
  now destruct (String.compare b a).
Qed.

(** Two different strings are one below the other. *)
Lemma string_ltb_total (a b : string) :
  a <> b -> String.ltb b a = false -> String.ltb a b = true.
Proof.
  unfold String.ltb. rewrite (String.compare_antisym a b). intros Hne.
  destruct (String.compare b a) eqn:E; try reflexivity; try discriminate.
  apply String.compare_eq_iff in E. now elim Hne.
Qed.

Lemma existing_players_perm (st : session_state) :
  Permutation (existing_players st) (map fst (players st)).
Proof. apply stable_sort_perm. Qed.

Lemma existing_players_ascending (st : session_state) :
  ascending String.ltb (existing_players st).
Proof.
  apply (stable_sort_ascending_acc String.ltb (fun _ => True)).
  - intros x y z _ _ _. apply string_ltb_trans.
  - intros x y _ _. apply string_ltb_asym.
  - apply Forall_forall. auto.
  - constructor.
  - constructor.
Qed.

(** ** Stripped names *)

Lemma lstrip_head (s : string) :
  match lstrip s with
  | String c _ => is_space c = false
  | EmptyString => True
  end.
Proof.
  induction s as [|c s IH]; simpl; auto.
  destruct (is_space c) eqn:E; auto.
Qed.

Lemma rstrip_head (c : Ascii.ascii) (s : string) :
  is_space c = false -> rstrip (String c s) = String c (rstrip s).
Proof. intros H. simpl. rewrite H. now destruct (rstrip s). Qed.

Lemma rstrip_twice (s : string) : rstrip (rstrip s) = rstrip s.
Proof.
  induction s as [|c s IH]; simpl; auto.
  destruct (rstrip s) as [|d r] eqn:R.
  - destruct (is_space c) eqn:E; simpl; auto. now rewrite E.
  - change (rstrip (String c (String d r))) with
      (match rstrip (String d r) with
       | EmptyString => if is_space c then EmptyString else String c EmptyString
       | r' => String c r'
       end).
    now rewrite IH.
Qed.

Lemma ascii_strip_twice (s : string) : ascii_strip (ascii_strip s) = ascii_strip s.
Proof.
  unfold ascii_strip. pose proof (lstrip_head s) as H.
  destruct (lstrip s) as [|c t]; [reflexivity|].
  rewrite (rstrip_head c t H). simpl lstrip. rewrite H.
  rewrite <- (rstrip_head c t H). apply rstrip_twice.
Qed.

Section Stripped.

Variable strip : string -> string.
Variable lower : string -> string.
Variable libm_pow : float -> float -> float.
Hypothesis strip_twice : forall s, strip (strip s) = strip s.

Lemma names_stripped_record_match (now winner loser : string) (k_factor : Z)
      (st : session_state) :
  winner <> loser -> strip winner = winner -> strip loser = loser ->
  names_stripped strip st ->
  names_stripped strip (fst (record_match libm_pow now winner loser k_factor st)).
Proof.
  intros Hne Hw Hl Hst. rewrite record_match_eq by assumption.
  assert (C : forall name,
             mem name (create loser (create winner (players st))) = true ->
             strip name = name).
  { intros name. unfold mem. rewrite lookup_created.
    destruct (String.eqb_spec winner name) as [<-|_]; [auto|].
    destruct (String.eqb_spec loser name) as [<-|_]; [auto|].
    cbn [orb]. apply Hst. }
  destruct (rating_deltas _ _ _ _) as [[dw dl]|e]; cbn [fst]; [|exact C].
  intros name. cbn [players]. rewrite mem_after_match. apply C.
Qed.

Lemma script_names_stripped (env : environment) (w : widgets) (s : raw_session) :
  names_stripped strip (initialize_state s) ->
  names_stripped strip (fst (script strip lower libm_pow env w s)).
Proof.
  intros Hn. unfold script. set (st := initialize_state s) in *.
  destruct (authed st); cbn [negb].
  - set (st1 := with_default_k (w_k_factor w) st).
    set (st2 := if w_reset w then fst (reset st1) else st1).
    assert (N2 : names_stripped strip st2).
    { unfold st2. destruct (w_reset w); [|exact Hn]. intros name. discriminate. }
    destruct (w_logout w); cbn [fst]; [exact N2|].
    unfold record_block.
    destruct (w_submit w && can_submit _ _) eqn:C.
    + destruct (record_block_names strip w C) as (Hne & _).
      assert (Sw : strip (win_name strip w) = win_name strip w)
        by (unfold win_name; destruct (String.eqb _ _); apply strip_twice).
      assert (Sl : strip (lose_name strip w) = lose_name strip w)
        by (unfold lose_name; destruct (String.eqb _ _); apply strip_twice).
      pose proof (names_stripped_record_match (w_now w) _ _ (w_k_factor w) st2
                    Hne Sw Sl N2) as R.
      destruct (record_match libm_pow _ _ _ _ st2) as [st3 [r|e]]; cbn [fst] in *;
        [|exact R].
      rewrite leaderboard_rows_eq. destruct (rbind (rows_of (players st3)) _); exact R.
    + rewrite leaderboard_rows_eq. destruct (rbind (rows_of (players st2)) _); exact N2.
  - pose proof (render_login_ledger strip lower (load_credentials env) (w_login w) st)
      as (Hp & _).
    destruct (render_login strip lower (load_credentials env) (w_login w) st) as [st' [|]];
      cbn [fst] in *; unfold names_stripped; now rewrite Hp.
Qed.

Lemma browse_names_stripped (events : list (environment * widgets)) (s : raw_session) :
  names_stripped strip (initialize_state s) ->
  names_stripped strip (initialize_state (browse strip lower libm_pow events s)).
Proof.
  revert s. induction events as [|[env w] events IH]; intros s Hn; simpl; auto.
  apply IH. rewrite initialize_stored. now apply script_names_stripped.
Qed.

End Stripped.

Lemma In_mem (name : string) (d : registry) : In name (map fst d) -> mem name d = true.
Proof.
  intros H. unfold mem. destruct (lookup name d) eqn:L; [reflexivity|].
  now apply lookup_None_not_In in L.
Qed.

(** Without a name twice, the sorted names go strictly upwards. *)
Lemma ascending_strict (l : list string) :
  NoDup l -> ascending String.ltb l ->
  StronglySorted (fun a b => String.ltb a b = true) l.
Proof.
  intros ND S. induction S as [|a l S IH Ha]; constructor.
  - apply IH. now inversion ND.
  - inversion ND as [|? ? Hn _]; subst.
    rewrite Forall_forall in Ha |- *. intros b Hb.
    apply string_ltb_total; [|now apply Ha].
    intros ->. contradiction.
Qed.

(** ** Rating changes that are not NaN *)

(** Python's [==] the other way round, and the loser's change: when the
    winner's change is not NaN, neither is the loser's. *)
Lemma negative_of_not_nan (a b : float) :
  negative_of a b -> F64.is_nan b = false ->
  F64.is_nan a = false /\ F64.eqb a (F64.opp b) = true.
Proof.
  intros [->|[Za Zb]] N.
  - destruct b as [s|s| |s m e]; try discriminate; split; try reflexivity.
    + now destruct s.
    + unfold F64.eqb, SFeqb, F64.opp. simpl.
      destruct s; cbn [negb]; rewrite Z.compare_refl, Pos.compare_cont_refl; reflexivity.
  - destruct a, b; try discriminate. split; reflexivity.
Qed.

(** * The claims *)

(** C1. When [record_match] is called with two different non-empty names,
    the winner's expected score is [1 / (1 + 10 ** ((rb - ra) / 400))] on
    the two current ratings, and the call returns
    [ra + k * (1 - e)], [rb + k * (0 - (1 - e))] and [k * (1 - e)]; when
    both ratings are 1200 and the K-factor is 32, the winner's new rating,
    returned and stored, is 1216.0 and the loser's is 1184.0. *)
Theorem record_match_expected_score
        (libm_pow : float -> float -> float) (now winner loser : string)
        (st : session_state) :
  winner <> loser -> winner <> EmptyString -> loser <> EmptyString ->
  let ra := rating (player_or_new winner (players st)) in
  let rb := rating (player_or_new loser (players st)) in
  (forall k_factor : Z,
      snd (record_match libm_pow now winner loser k_factor st) =
      try y <- float_truediv (F64.sub rb ra) F64.f400 ;
      try p <- pow_ten libm_pow y ;
      try e <- float_truediv F64.one (F64.add F64.one p) ;
      try k <- float_of_int k_factor ;
      Ok (F64.add ra (F64.mul k (F64.sub F64.one e)),
          F64.add rb (F64.mul k (F64.sub F64.zero (F64.sub F64.one e))),
          F64.mul k (F64.sub F64.one e)))
  /\ (ra = F64.f1200 -> rb = F64.f1200 ->
      let r := record_match libm_pow now winner loser 32 st in
      snd r = Ok (F64.of_Z 1216, F64.of_Z 1184, F64.of_Z 16)
      /\ option_map rating (lookup winner (players (fst r))) = Some (F64.of_Z 1216)
      /\ option_map rating (lookup loser (players (fst r))) = Some (F64.of_Z 1184)).
Proof.
  intros Hne _ _ ra rb. split.
  - intros k. rewrite record_match_eq by assumption. fold ra rb.
    rewrite rating_deltas_eq. unfold rbind.
    destruct (float_truediv (F64.sub rb ra) F64.f400); auto.
    destruct (pow_ten libm_pow a); auto.
    destruct (float_truediv F64.one (F64.add F64.one a0)); auto.
    now destruct (float_of_int k).
  - intros Ha Hb r. unfold r. rewrite record_match_eq by assumption.
    fold ra rb. rewrite Ha, Hb, rating_deltas_equal_ratings.
    cbn [fst snd players]. split; [reflexivity|].
    rewrite !after_match_lookup, !lookup_created, !String.eqb_refl by assumption.
    assert (E : String.eqb winner loser = false) by now apply String.eqb_neq.
    rewrite E, orb_true_r. simpl. auto.
Qed.

Lemma record_match_expected_score_witness :
  "Ann"%string <> "Bob"%string /\
  snd (record_match libm_pow_sample "2024-05-01 10:00" "Ann" "Bob" 32 initial_state)
  = Ok (F64.of_Z 1216, F64.of_Z 1184, F64.of_Z 16).
Proof.
  assert (H : "Ann"%string <> "Bob"%string) by discriminate.
  split; [exact H|].
  apply (record_match_expected_score libm_pow_sample "2024-05-01 10:00" "Ann" "Bob"
           initial_state H); [discriminate | discriminate | reflexivity | reflexivity].
Defined.

(** C2, as the code has it. In every recorded match whose rating change
    is not NaN, the loser's rating change is the negative of the winner's:
    the call returns [ra + delta_w] and [rb + delta_l], which are the
    ratings it stores, where [delta_l] is not NaN either and is [delta_w]
    with the sign flipped, or both are zero; [delta_l == -delta_w] and
    [delta_w == -delta_l] hold in Python. *)
Theorem record_match_zero_sum
        (libm_pow : float -> float -> float) (now winner loser : string)
        (k_factor : Z) (st st' : session_state) (new_ra new_rb delta_w : float) :
  winner <> loser ->
  record_match libm_pow now winner loser k_factor st
  = (st', Ok (new_ra, new_rb, delta_w)) ->
  F64.is_nan delta_w = false ->
  let ra := rating (player_or_new winner (players st)) in
  let rb := rating (player_or_new loser (players st)) in
  exists delta_l : float,
    rating_deltas libm_pow ra rb k_factor = Ok (delta_w, delta_l)
    /\ F64.is_nan delta_l = false
    /\ negative_of delta_l delta_w
    /\ F64.eqb delta_l (F64.opp delta_w) = true
    /\ F64.eqb delta_w (F64.opp delta_l) = true
    /\ new_ra = F64.add ra delta_w
    /\ new_rb = F64.add rb delta_l
    /\ option_map rating (lookup winner (players st')) = Some new_ra
    /\ option_map rating (lookup loser (players st')) = Some new_rb.
Proof.
  intros Hne E Hnan ra rb.
  rewrite record_match_eq in E by assumption. fold ra rb in E.
  destruct (rating_deltas libm_pow ra rb k_factor) as [[dw dl]|e] eqn:D;
    [|discriminate].
  injection E as <- <- <- <-. exists dl.
  assert (N : negative_of dl dw).
  { rewrite rating_deltas_eq in D. unfold rbind in D.
    destruct (float_truediv (F64.sub rb ra) F64.f400); [|discriminate].
    destruct (pow_ten libm_pow a); [|discriminate].
    destruct (float_truediv F64.one (F64.add F64.one a0)); [|discriminate].
    destruct (float_of_int k_factor); [|discriminate].
    injection D as <- <-. apply mul_sub_zero. }
  destruct (negative_of_not_nan dl dw N Hnan) as [Nl El].
  pose proof (negative_of_eqb dl dw N) as Ew. rewrite Hnan in Ew.
  repeat split; auto.
  - cbn [players]. rewrite after_match_lookup, lookup_created, !String.eqb_refl by assumption.
    reflexivity.
  - cbn [players]. rewrite after_match_lookup, lookup_created, !String.eqb_refl by assumption.
    assert (F : String.eqb winner loser = false) by now apply String.eqb_neq.
    rewrite F, orb_true_r. reflexivity.
Qed.

Lemma record_match_zero_sum_witness :
  "Ann"%string <> "Bob"%string
  /\ F64.is_nan (F64.of_Z 16) = false
  /\ F64.eqb (F64.of_Z (-16)) (F64.opp (F64.of_Z 16)) = true.
Proof.
  assert (H : "Ann"%string <> "Bob"%string) by discriminate.
  assert (N : F64.is_nan (F64.of_Z 16) = false) by reflexivity.
  refine (conj H (conj N _)).
  destruct (record_match_zero_sum libm_pow_sample "t" "Ann" "Bob" 32 initial_state
              (fst (record_match libm_pow_sample "t" "Ann" "Bob" 32 initial_state))
              (F64.of_Z 1216) (F64.of_Z 1184) (F64.of_Z 16) H eq_refl N)
    as (dl & D & _ & _ & E & _).
  vm_compute in D. injection D as <-. exact E.
Defined.

(** C2, as the claim has it, fails on a rating change that is NaN.  After
    the first fourteen matches of the session above the players "A" and
    "I" are both at [inf]; in their match the exponent is [inf - inf], the
    two rating changes are NaN, and [delta_l == -delta_w] is false, as
    every comparison with NaN is. *)
Lemma record_match_zero_sum_counterexample :
  let st := run libm_pow_sample (firstn 14 overflowing_session) initial_state in
  "A"%string <> "I"%string /\ 0 < k_max
  /\ rating (player_or_new "A" (players st)) = F64.inf
  /\ rating (player_or_new "I" (players st)) = F64.inf
  /\ exists (st' : session_state) (new_ra new_rb delta_w delta_l : float),
       record_match libm_pow_sample "day 4" "A" "I" k_max st
       = (st', Ok (new_ra, new_rb, delta_w))
       /\ rating_deltas libm_pow_sample F64.inf F64.inf k_max = Ok (delta_w, delta_l)
       /\ delta_w = S754_nan /\ delta_l = S754_nan
       /\ F64.eqb delta_l (F64.opp delta_w) = false
       /\ F64.eqb delta_w (F64.opp delta_l) = false.
Proof.
  intros st.
  split; [discriminate|]. split; [reflexivity|].
  split; [vm_compute; reflexivity|]. split; [vm_compute; reflexivity|].
  exists (fst (record_match libm_pow_sample "day 4" "A" "I" k_max st)).
  exists S754_nan, S754_nan, S754_nan, S754_nan.
  split; [vm_compute; reflexivity|].
  split; [vm_compute; reflexivity|].
  repeat split.
Qed.

(** C3. Starting from an empty ledger, after any sequence of recorded
    matches between two different names, every player of the registry has
    [games = wins + losses], and the three counters are not negative. *)
Theorem counters_invariant
        (libm_pow : float -> float -> float) (calls : list call)
        (st : session_state) (name : string) (p : player) :
  players st = [] ->
  Forall (fun c => c_winner c <> c_loser c) calls ->
  In (name, p) (players (run libm_pow calls st)) ->
  games p = wins p + losses p /\ 0 <= wins p /\ 0 <= losses p /\ 0 <= games p.
Proof.
  intros Hempty Hcalls Hin.
  assert (Hok : registry_ok (players st)).
  { rewrite Hempty. split; [constructor | discriminate]. }
  destruct (run_registry_ok libm_pow calls st Hcalls Hok) as [ND H].
  apply (H name). now apply In_lookup.
Qed.

Lemma counters_invariant_witness :
  let calls := [mkCall "t1" "Ann" "Bob" 32; mkCall "t2" "Ann" "Bob" 32] in
  let p := mkPlayer (S754_finite false 5143381261042045 (-42)) 0 2 2 in
  players initial_state = []
  /\ Forall (fun c => c_winner c <> c_loser c) calls
  /\ In ("Bob"%string, p) (players (run libm_pow_sample calls initial_state))
  /\ games p = wins p + losses p.
Proof.
  intros calls p.
  assert (H1 : players initial_state = []) by reflexivity.
  assert (H2 : Forall (fun c => c_winner c <> c_loser c) calls)
    by (repeat constructor; discriminate).
  assert (H3 : In ("Bob"%string, p) (players (run libm_pow_sample calls initial_state)))
    by (vm_compute; tauto).
  refine (conj H1 (conj H2 (conj H3 _))).
  exact (proj1 (counters_invariant libm_pow_sample calls initial_state "Bob" p H1 H2 H3)).
Defined.

(** C4, as the code has it. When no rating is NaN, two rows [x] and [y]
    of the leaderboard with [x] before [y] satisfy: [x.rating > y.rating],
    or the ratings are equal and [x.wins > y.wins], or ratings and wins
    are equal and [x.losses <= y.losses]. *)
Theorem leaderboard_rows_sorted
        (st : session_state) (rows : list row) (i j : nat) (x y : row) :
  (forall name p, In (name, p) (players st) -> F64.is_nan (rating p) = false) ->
  snd (leaderboard_rows st) = Ok rows ->
  (i < j)%nat -> nth_error rows i = Some x -> nth_error rows j = Some y ->
  F64.ltb (r_rating y) (r_rating x) = true
  \/ (F64.eqb (r_rating x) (r_rating y) = true /\ r_wins y < r_wins x)
  \/ (F64.eqb (r_rating x) (r_rating y) = true /\ r_wins x = r_wins y
      /\ r_losses x <= r_losses y).
Proof.
  intros Hst E Hij Hx Hy.
  rewrite leaderboard_rows_eq in E. cbn [snd] in E. unfold rbind in E.
  destruct (rows_of (players st)) as [rows0|] eqn:R; [|discriminate].
  injection E as <-.
  pose proof (rows_not_nan st rows0 Hst R) as D.
  set (dom := fun r : row => F64.is_nan (r_rating r) = false) in *.
  assert (T : forall a b c, dom a -> dom b -> dom c ->
                            row_lt a b = true -> row_lt b c = true -> row_lt a c = true).
  { intros a b c Da Db Dc. rewrite !row_lt_rank by assumption. apply lex5_lt_trans. }
  assert (As : forall a b, dom a -> dom b -> row_lt a b = true -> row_lt b a = false).
  { intros a b Da Db H. apply row_lt_rank in H; auto.
    destruct (row_lt b a) eqn:F; auto.
    apply row_lt_rank in F; auto. now apply lex5_lt_asym in H. }
  pose proof (sort_reverse_descending row_lt dom T As rows0 D) as S.
  pose proof (StronglySorted_nth_error _ _ S i j x y Hij Hx Hy) as L.
  assert (Dall : Forall dom (sort_reverse row_lt rows0)).
  { apply (Permutation_Forall (Permutation_sym (sort_reverse_perm row_lt rows0))), D. }
  rewrite Forall_forall in Dall.
  apply row_lt_false; auto; apply Dall; eapply nth_error_In; eauto.
Qed.

Lemma leaderboard_rows_sorted_witness :
  let st := run libm_pow_sample [mkCall "t1" "Bob" "Ann" 32; mkCall "t2" "Cid" "Dan" 32]
                initial_state in
  let x := mkRow "Bob" (F64.of_Z 1216) 1 1 0 F64.f100 in
  let y := mkRow "Ann" (F64.of_Z 1184) 1 0 1 F64.zero in
  let rows := [x; mkRow "Cid" (F64.of_Z 1216) 1 1 0 F64.f100;
               y; mkRow "Dan" (F64.of_Z 1184) 1 0 1 F64.zero] in
  (forall name p, In (name, p) (players st) -> F64.is_nan (rating p) = false)
  /\ snd (leaderboard_rows st) = Ok rows
  /\ F64.ltb (r_rating y) (r_rating x) = true.
Proof.
  intros st x y rows.
  assert (H : forall name p, In (name, p) (players st) -> F64.is_nan (rating p) = false).
  { intros name p Hin. vm_compute in Hin.
    repeat (destruct Hin as [Hin|Hin]; [injection Hin as <- <-; reflexivity|]).
    destruct Hin. }
  assert (E : snd (leaderboard_rows st) = Ok rows) by (vm_compute; reflexivity).
  refine (conj H (conj E _)).
  destruct (leaderboard_rows_sorted st rows 0 2 x y H E) as [L|[[F _]|[F _]]];
    try reflexivity; try lia; try exact L; discriminate F.
Defined.

(** C4, as the claim has it, fails on a NaN rating.  At the K-factor
    [k_max] a rating overflows to [inf] in seven matches, and the match of
    two players at [inf] leaves both at NaN ([inf - inf]); the leaderboard
    then starts with a NaN row, which is neither above nor below any
    row. *)
Lemma leaderboard_rows_sorted_counterexample :
  let st := run libm_pow_sample overflowing_session initial_state in
  Forall (fun c => c_winner c <> c_loser c /\ 0 < c_k c) overflowing_session
  /\ exists (rows : list row) (x y : row),
       snd (leaderboard_rows st) = Ok rows
       /\ nth_error rows 0 = Some x /\ nth_error rows 1 = Some y
       /\ r_player x = "A"%string /\ r_rating x = S754_nan
       /\ r_player y = "E"%string
       /\ ~ (F64.ltb (r_rating y) (r_rating x) = true
             \/ (F64.eqb (r_rating x) (r_rating y) = true /\ r_wins y < r_wins x)
             \/ (F64.eqb (r_rating x) (r_rating y) = true /\ r_wins x = r_wins y
                 /\ r_losses x <= r_losses y))
       /\ forall z, ~ ranks_before x z /\ ~ ranks_before z x.
Proof.
  intros st. split.
  - unfold overflowing_session, bracket. simpl.
    repeat (constructor; [split; [discriminate | reflexivity]|]). constructor.
  - assert (E : exists rows, snd (leaderboard_rows st) = Ok rows
                             /\ option_map (fun r => (r_player r, r_rating r)) (nth_error rows 0)
                                = Some ("A"%string, S754_nan)
                             /\ option_map r_player (nth_error rows 1) = Some "E"%string).
    { destruct (snd (leaderboard_rows st)) as [rows|e] eqn:R.
      - exists rows. split; [reflexivity|].
        assert (R' : snd (leaderboard_rows st) = Ok rows) by exact R.
        clear R. revert R'. vm_compute. intros [= <-]. split; reflexivity.
      - exfalso. revert R. vm_compute. discriminate. }
    destruct E as (rows & R & H0 & H1).
    destruct (nth_error rows 0) as [x|] eqn:X; [|discriminate].
    destruct (nth_error rows 1) as [y|] eqn:Y; [|discriminate].
    injection H0 as Px Rx. injection H1 as Py.
    exists rows, x, y. repeat (split; [assumption || reflexivity|]).
    assert (N : F64.is_nan (r_rating x) = true) by now rewrite Rx.
    split; [apply (nan_row_unranked x y N) | intros z; now apply nan_row_unranked].
Qed.

(** C5, as the code has it. A call to [record_match] that returns puts one
    new record at the front of the match sequence, with the time, the two
    names, the K-factor and, as its rating delta, the returned
    [delta_winner] rounded to one decimal; a call that raises leaves the
    sequence as it was. *)
Theorem record_match_prepends
        (libm_pow : float -> float -> float) (now winner loser : string)
        (k_factor : Z) (st : session_state) :
  let r := record_match libm_pow now winner loser k_factor st in
  snd r = snd (update_elo libm_pow winner loser k_factor st)
  /\ matches (fst r) =
     match snd r with
     | Ok (_, _, delta_w) =>
         mkMatch now winner loser (round1 delta_w) k_factor :: matches st
     | Raise _ => matches st
     end.
Proof.
  intros r. unfold r, record_match, bind.
  pose proof (update_elo_matches libm_pow winner loser k_factor st) as Hm.
  destruct (update_elo libm_pow winner loser k_factor st) as [st1 [[[ra rb] dw]|e]];
    cbn [fst snd] in *; [|auto].
  unfold ret. cbn. now rewrite Hm.
Qed.

(** C5, as the claim has it, fails: after Ann beat Bob once at K = 32, a
    second win of Ann's transfers 14.530498471024522 points and the record
    stores 14.5. *)
Lemma record_match_delta_counterexample :
  let st := run libm_pow_sample [mkCall "2024-05-01 10:00" "Ann" "Bob" 32] initial_state in
  exists (st' : session_state) (new_ra new_rb delta_w : float) (m : match_record),
    record_match libm_pow_sample "2024-05-01 10:05" "Ann" "Bob" 32 st
    = (st', Ok (new_ra, new_rb, delta_w))
    /\ matches st' = m :: matches st
    /\ delta_w = S754_finite false 8179943437451700 (-49)
    /\ m_delta m = S754_finite false 8162774324609024 (-49)
    /\ m_delta m <> delta_w.
Proof.
  intros st.
  exists (fst (record_match libm_pow_sample "2024-05-01 10:05" "Ann" "Bob" 32 st)).
  exists (S754_finite false 5411930365607555 (-42)).
  exists (S754_finite false 5143381261042045 (-42)).
  exists (S754_finite false 8179943437451700 (-49)).
  exists (mkMatch "2024-05-01 10:05" "Ann" "Bob"
                  (S754_finite false 8162774324609024 (-49)) 32).
  split; [vm_compute; reflexivity|].
  split; [vm_compute; reflexivity|].
  split; [reflexivity|].
  split; [reflexivity|].
  simpl. discriminate.
Qed.

(** C6. [get_or_create_player] gives a name that is not registered a new
    entry with rating 1200.0 and the three counters at zero, and leaves a
    registered name as it is; [record_match] plays the two entries found
    that way: its result is computed from their ratings, and the winner
    and the loser keep their counters, one game and one win or loss added,
    while the other players stay as they were. *)
Theorem record_match_creates_players
        (libm_pow : float -> float -> float) (now winner loser : string)
        (k_factor : Z) (st : session_state) :
  winner <> loser ->
  let entry := fun name =>
    match lookup name (players st) with
    | Some p => p
    | None => mkPlayer F64.f1200 0 0 0
    end in
  (forall name,
      get_or_create_player name st =
      (match lookup name (players st) with
       | Some _ => st
       | None => with_players (players st ++ [(name, mkPlayer F64.f1200 0 0 0)]) st
       end, Ok tt))
  /\ (let r := record_match libm_pow now winner loser k_factor st in
      match rating_deltas libm_pow (rating (entry winner)) (rating (entry loser)) k_factor with
      | Ok (delta_w, delta_l) =>
          let new_ra := F64.add (rating (entry winner)) delta_w in
          let new_rb := F64.add (rating (entry loser)) delta_l in
          snd r = Ok (new_ra, new_rb, delta_w)
          /\ lookup winner (players (fst r)) =
             Some (mkPlayer new_ra (wins (entry winner) + 1) (losses (entry winner))
                            (games (entry winner) + 1))
          /\ lookup loser (players (fst r)) =
             Some (mkPlayer new_rb (wins (entry loser)) (losses (entry loser) + 1)
                            (games (entry loser) + 1))
          /\ (forall name, name <> winner -> name <> loser ->
              lookup name (players (fst r)) = lookup name (players st))
      | Raise e =>
          snd r = Raise e
          /\ (forall name,
                 lookup name (players (fst r)) =
                 if String.eqb winner name || String.eqb loser name
                 then Some (entry name) else lookup name (players st))
      end).
Proof.
  intros Hne entry. split.
  - intros name. rewrite get_or_create_player_eq. unfold create, mem.
    destruct (lookup name (players st)) eqn:L.
    + now rewrite with_players_id.
    + now rewrite store_absent.
  - intros r. unfold r. rewrite record_match_eq by assumption.
    change (player_or_new winner (players st)) with (entry winner).
    change (player_or_new loser (players st)) with (entry loser).
    assert (F : String.eqb winner loser = false) by now apply String.eqb_neq.
    destruct (rating_deltas _ _ _ _) as [[dw dl]|e]; cbn [fst snd players].
    + split; [reflexivity|]. split; [|split].
      * rewrite after_match_lookup, lookup_created, !String.eqb_refl by assumption.
        reflexivity.
      * rewrite after_match_lookup, lookup_created, !String.eqb_refl, F, orb_true_r
          by assumption.
        reflexivity.
      * intros name Hw Hl.
        rewrite after_match_lookup, lookup_created by assumption.
        apply not_eq_sym, String.eqb_neq in Hw, Hl. now rewrite Hw, Hl.
    + split; [reflexivity|]. intros name. apply lookup_created.
Qed.

Lemma record_match_creates_players_witness :
  "Cid"%string <> "Dan"%string /\
  let st := run libm_pow_sample [mkCall "t1" "Ann" "Bob" 32] initial_state in
  let r := record_match libm_pow_sample "t2" "Cid" "Dan" 32 st in
  lookup "Bob"%string (players (fst r)) = lookup "Bob"%string (players st).
Proof.
  assert (H : "Cid"%string <> "Dan"%string) by discriminate.
  split; [exact H|]. intros st r.
  pose proof (proj2 (record_match_creates_players libm_pow_sample "t2" "Cid" "Dan" 32 st H))
    as P.
  cbv zeta in P.
  destruct (rating_deltas _ _ _ _) as [[dw dl]|e].
  - apply P; discriminate.
  - destruct P as [_ P]. now rewrite P.
Defined.

(** C7. [reset] empties the player registry and the match sequence and
    keeps the rest of the session; a second [reset] changes nothing; after
    it the leaderboard is empty, and the next match registers its two
    players at rating 1200.0 and plays them from there. *)
Theorem reset_clears
        (libm_pow : float -> float -> float) (now winner loser : string)
        (k_factor : Z) (st : session_state) :
  winner <> loser ->
  let st0 := fst (reset st) in
  reset st = (mkState [] [] (default_k st) (authed st) (auth_user st), Ok tt)
  /\ reset st0 = (st0, Ok tt)
  /\ leaderboard_rows st0 = (st0, Ok [])
  /\ get_or_create_player winner st0
     = (with_players [(winner, mkPlayer F64.f1200 0 0 0)] st0, Ok tt)
  /\ record_match libm_pow now winner loser k_factor st0 =
     match float_of_int k_factor with
     | Ok k =>
         let delta_w := F64.mul k F64.half in
         let new_ra := F64.add F64.f1200 delta_w in
         let new_rb := F64.add F64.f1200 (F64.mul k (F64.opp F64.half)) in
         (mkState [(winner, mkPlayer new_ra 1 0 1); (loser, mkPlayer new_rb 0 1 1)]
                  [mkMatch now winner loser (round1 delta_w) k_factor]
                  (default_k st) (authed st) (auth_user st),
          Ok (new_ra, new_rb, delta_w))
     | Raise e =>
         (with_players [(winner, mkPlayer F64.f1200 0 0 0);
                        (loser, mkPlayer F64.f1200 0 0 0)] st0,
          Raise e)
     end.
Proof.
  intros Hne st0.
  assert (F : String.eqb winner loser = false) by now apply String.eqb_neq.
  assert (F' : String.eqb loser winner = false) by now apply String.eqb_neq, not_eq_sym.
  repeat split.
  rewrite record_match_eq by assumption.
  unfold st0, reset, player_or_new. cbn [fst players with_players with_matches lookup].
  change (rating new_player) with F64.f1200.
  rewrite rating_deltas_new_players. unfold rbind.
  unfold create, mem. cbn [lookup store]. rewrite F'. cbn [lookup store].
  destruct (float_of_int k_factor) as [k|e]; [|reflexivity].
  unfold after_match, modify.
  repeat (cbn [lookup store]; rewrite ?String.eqb_refl, ?F, ?F').
  reflexivity.
Qed.

Lemma reset_clears_witness :
  "Ann"%string <> "Bob"%string /\
  let st := run libm_pow_sample [mkCall "t1" "Ann" "Bob" 32; mkCall "t2" "Ann" "Bob" 32]
                initial_state in
  snd (record_match libm_pow_sample "t3" "Ann" "Bob" 32 (fst (reset st)))
  = Ok (F64.of_Z 1216, F64.of_Z 1184, F64.of_Z 16).
Proof.
  assert (H : "Ann"%string <> "Bob"%string) by discriminate.
  split; [exact H|]. intros st.
  pose proof (reset_clears libm_pow_sample "t3" "Ann" "Bob" 32 st H) as (_ & _ & _ & _ & E).
  rewrite E. reflexivity.
Defined.

(** C8. The leaderboard never divides by zero: [wins / games] is evaluated
    only for a player with [games > 0], and its one failure is an overflow
    of the quotient.  Each row belongs to a player of the registry and
    shows that player's counters; its win rate is
    [round(wins / games * 100.0, 1)] when [games > 0] and [0.0]
    otherwise. *)
Theorem leaderboard_win_rate (st : session_state) :
  match snd (leaderboard_rows st) with
  | Ok rows =>
      Forall
        (fun r =>
           exists info,
             In (r_player r, info) (players st)
             /\ r_games r = games info /\ r_wins r = wins info
             /\ if 0 <? games info
                then exists q, int_truediv (wins info) (games info) = Ok q
                               /\ r_win_pct r = round1 (F64.mul q F64.f100)
                else r_win_pct r = F64.zero)
        rows
  | Raise e => e = OverflowError
  end
  /\ forall a b, int_truediv a b = Raise ZeroDivisionError <-> b = 0.
Proof.
  split; [|apply int_truediv_zero_division].
  rewrite leaderboard_rows_eq. cbn [snd]. unfold rbind.
  pose proof (rows_of_no_zero_division (players st)) as NZ.
  destruct (rows_of (players st)) as [rows|e] eqn:E.
  - apply Forall_forall. intros r Hr.
    apply (Permutation_in _ (sort_reverse_perm row_lt rows)) in Hr.
    destruct (rows_of_In _ _ _ E Hr) as (info & Hin & R).
    exists info. split; auto.
    rewrite row_of_eq in R. unfold rbind in R.
    destruct (0 <? games info).
    + destruct (int_truediv (wins info) (games info)) as [q|]; [|discriminate].
      injection R as <-. simpl. eauto.
    + injection R as <-. simpl. auto.
  - clear NZ. revert e E.
    induction (players st) as [|[name info] items IH]; simpl; [discriminate|].
    intros e. unfold rbind.
    destruct (row_of name info) as [r|e'] eqn:R.
    + destruct (rows_of items) as [rs|e'']; [discriminate|].
      intros [= <-]. now apply IH.
    + intros [= <-]. rewrite row_of_eq in R. unfold rbind in R.
      destruct (Z.ltb_spec 0 (games info)) as [G|G]; [|discriminate].
      unfold int_truediv in R.
      destruct (games info); [lia| |lia].
      destruct (wins info); [discriminate| |];
        destruct (F64.is_inf _); try discriminate; now injection R as <-.
Qed.

(** C9. [leaderboard_rows] only reads: it returns the session state it was
    given, registry and match sequence included, and a second call right
    after the first returns the same rows. *)
Theorem leaderboard_rows_pure (st : session_state) :
  fst (leaderboard_rows st) = st
  /\ players (fst (leaderboard_rows st)) = players st
  /\ matches (fst (leaderboard_rows st)) = matches st
  /\ leaderboard_rows (fst (leaderboard_rows st)) = leaderboard_rows st.
Proof.
  assert (E : fst (leaderboard_rows st) = st).
  { unfold leaderboard_rows. now destruct (rows_of (players st)). }
  now rewrite E.
Qed.

(** C10, as the code has it. When the two ratings are finite floats, the
    K-factor is positive and the C library's [pow] gives floats that are
    neither negative nor NaN, a call that returns has
    [0 <= delta_w <= k_factor] and [-k_factor <= delta_l <= 0], where
    [k_factor] stands for its conversion to a float; the winner's new
    rating is not below the old one and the loser's is not above.  None
    of the four bounds is strict: see the counterexample. *)
Theorem record_match_delta_bounds
        (libm_pow : float -> float -> float) (now winner loser : string)
        (k_factor : Z) (st st' : session_state) (new_ra new_rb delta_w : float) :
  (forall y, F64.is_nonneg (libm_pow F64.ten y) = true) ->
  winner <> loser -> 0 < k_factor ->
  let ra := rating (player_or_new winner (players st)) in
  let rb := rating (player_or_new loser (players st)) in
  F64.is_finite ra = true -> F64.valid ra = true ->
  F64.is_finite rb = true -> F64.valid rb = true ->
  record_match libm_pow now winner loser k_factor st
  = (st', Ok (new_ra, new_rb, delta_w)) ->
  exists k delta_l : float,
    float_of_int k_factor = Ok k
    /\ rating_deltas libm_pow ra rb k_factor = Ok (delta_w, delta_l)
    /\ F64.leb F64.zero delta_w = true /\ F64.leb delta_w k = true
    /\ F64.leb (F64.opp k) delta_l = true /\ F64.leb delta_l F64.zero = true
    /\ F64.leb ra new_ra = true /\ F64.leb new_rb rb = true.
Proof.
  intros Hpow Hne Hk ra rb Fa Va Fb Vb E.
  rewrite record_match_eq in E by assumption. fold ra rb in E.
  destruct (rating_deltas libm_pow ra rb k_factor) as [[dw dl]|e] eqn:D; [|discriminate].
  assert (Ea : new_ra = F64.add ra dw) by congruence.
  assert (Eb : new_rb = F64.add rb dl) by congruence.
  assert (Ew : delta_w = dw) by congruence.
  subst new_ra new_rb delta_w. clear E.
  destruct (rating_deltas_at_most libm_pow Hpow _ _ _ _ _ Fa Fb Hk D)
    as (mk & ek & K & Ck & U & N).
  exists (S754_finite false mk ek), dl.
  destruct (at_most_leb _ _ _ Ck U) as [L1 L2].
  destruct (negative_of_range _ _ _ _ Ck U N) as [L3 L4].
  repeat (split; [assumption || reflexivity|]). split.
  - now apply (add_nonneg_leb ra dw (F2R (Zpos mk) ek)).
  - apply (add_nonpos_leb rb dl (F2R (Zpos mk) ek)); auto.
    destruct N as [->|[Z _]]; [right|now left].
    now replace (F64.opp (F64.opp dw)) with dw by (destruct dw; simpl; now rewrite ?negb_involutive).
Qed.

Lemma record_match_delta_bounds_witness :
  let r := record_match libm_pow_sample "2024-05-01 10:00" "Ann" "Bob" 32 initial_state in
  "Ann"%string <> "Bob"%string /\ 0 < 32
  /\ snd r = Ok (F64.of_Z 1216, F64.of_Z 1184, F64.of_Z 16)
  /\ F64.leb F64.zero (F64.of_Z 16) = true
  /\ F64.leb (F64.of_Z 16) (F64.of_Z 32) = true.
Proof.
  intros r.
  assert (H1 : "Ann"%string <> "Bob"%string) by discriminate.
  assert (H2 : 0 < 32) by lia.
  assert (H3 : r = (fst r, Ok (F64.of_Z 1216, F64.of_Z 1184, F64.of_Z 16)))
    by (vm_compute; reflexivity).
  destruct (record_match_delta_bounds libm_pow_sample "2024-05-01 10:00" "Ann" "Bob" 32
              initial_state (fst r) (F64.of_Z 1216) (F64.of_Z 1184) (F64.of_Z 16)
              libm_pow_sample_nonneg H1 H2 eq_refl eq_refl eq_refl eq_refl H3)
    as (k & dl & K & _ & L1 & L2 & _).
  injection K as <-.
  refine (conj H1 (conj H2 (conj _ (conj L1 L2)))).
  now rewrite H3.
Defined.

(** C10, as the claim has it, fails in both directions at K = 10000.
    After Ann beat Bob once the ratings are 6200.0 and -3800.0.  If Ann
    wins again, her expected score rounds to 1.0, [delta_w] is 0.0 and no
    rating moves; if Bob wins, his expected score is 1e-25, [1 - 1e-25]
    rounds to 1.0 and [delta_w] is the whole K-factor. *)
Lemma record_match_delta_bounds_counterexample :
  let st := run libm_pow_sample [mkCall "2024-05-01 10:00" "Ann" "Bob" 10000]
                initial_state in
  "Ann"%string <> "Bob"%string /\ 0 < 10000
  /\ option_map rating (lookup "Ann"%string (players st)) = Some (F64.of_Z 6200)
  /\ option_map rating (lookup "Bob"%string (players st)) = Some (F64.of_Z (-3800))
  /\ snd (record_match libm_pow_sample "2024-05-01 10:05" "Ann" "Bob" 10000 st)
     = Ok (F64.of_Z 6200, F64.of_Z (-3800), F64.zero)
  /\ F64.ltb F64.zero F64.zero = false
  /\ snd (record_match libm_pow_sample "2024-05-01 10:05" "Bob" "Ann" 10000 st)
     = Ok (F64.of_Z 6200, F64.of_Z (-3800), F64.of_Z 10000)
  /\ F64.ltb (F64.of_Z 10000) (F64.of_Z 10000) = false.
Proof.
  intros st.
  repeat (split; [first [discriminate | lia | vm_compute; reflexivity]|]).
  reflexivity.
Qed.

(** * Further properties of the rating engine *)

(** X1. When the C library's [pow] gives floats that are neither negative
    nor NaN, [expected_score] on two finite ratings returns a float
    between [0.0] and [1.0], both included, or raises [OverflowError]
    because [pow] overflowed; it never raises [ZeroDivisionError]. *)
Theorem expected_score_is_probability
        (libm_pow : float -> float -> float) (rating_a rating_b : float) :
  (forall y, F64.is_nonneg (libm_pow F64.ten y) = true) ->
  F64.is_finite rating_a = true -> F64.is_finite rating_b = true ->
  match expected_score libm_pow rating_a rating_b with
  | Ok e => F64.leb F64.zero e = true /\ F64.leb e F64.one = true
  | Raise e =>
      e = OverflowError
      /\ F64.is_inf (libm_pow F64.ten (F64.div (F64.sub rating_b rating_a) F64.f400)) = true
  end.
Proof.
  intros Hpow Fa Fb.
  pose proof (expected_score_range libm_pow Hpow rating_a rating_b) as R.
  destruct (expected_score libm_pow rating_a rating_b) as [e|e] eqn:E.
  - apply (at_most_leb e 4503599627370496 (-52) canonical_one).
    rewrite F2R_one. now apply R.
  - clear R. revert E. unfold expected_score, rbind.
    change (float_truediv (F64.sub rating_b rating_a) F64.f400)
      with (Ok (F64.div (F64.sub rating_b rating_a) F64.f400)). cbv iota beta.
    destruct (pow_ten libm_pow _) as [p|e'] eqn:P.
    + rewrite (expected_score_divides libm_pow Hpow _ _ P). discriminate.
    + intros [= <-]. apply pow_ten_raises in P. destruct P as (-> & _ & P). auto.
Qed.

Lemma expected_score_is_probability_witness :
  expected_score libm_pow_sample (F64.of_Z 6200) (F64.of_Z (-3800)) = Ok F64.one
  /\ F64.leb F64.one F64.one = true.
Proof.
  pose proof (expected_score_is_probability libm_pow_sample (F64.of_Z 6200) (F64.of_Z (-3800))
                libm_pow_sample_nonneg eq_refl eq_refl) as H.
  assert (E : expected_score libm_pow_sample (F64.of_Z 6200) (F64.of_Z (-3800)) = Ok F64.one)
    by (vm_compute; reflexivity).
  rewrite E in H. split; [reflexivity | exact (proj2 H)].
Defined.

(** X2. A match between two players of the same finite rating moves
    [k_factor * 0.5] points, whatever the C library's [pow]: the exponent
    is [0.0] and [pow] is not called. *)
Theorem record_match_equal_ratings
        (libm_pow : float -> float -> float) (now winner loser : string)
        (k_factor : Z) (st : session_state) :
  winner <> loser ->
  let ra := rating (player_or_new winner (players st)) in
  let rb := rating (player_or_new loser (players st)) in
  F64.is_finite ra = true -> rb = ra ->
  snd (record_match libm_pow now winner loser k_factor st) =
  try k <- float_of_int k_factor ;
  Ok (F64.add ra (F64.mul k F64.half),
      F64.add ra (F64.mul k (F64.opp F64.half)),
      F64.mul k F64.half).
Proof.
  intros Hne ra rb Fa E. rewrite record_match_eq by assumption. fold ra rb.
  rewrite E, (rating_deltas_same_rating libm_pow ra k_factor Fa). unfold rbind.
  now destruct (float_of_int k_factor).
Qed.

Lemma record_match_equal_ratings_witness :
  let st := run libm_pow_sample [mkCall "t1" "Ann" "Bob" 32; mkCall "t2" "Cid" "Dan" 32]
                initial_state in
  "Ann"%string <> "Cid"%string
  /\ snd (record_match libm_pow_sample "t3" "Ann" "Cid" 24 st)
     = Ok (F64.of_Z 1228, F64.of_Z 1204, F64.of_Z 12).
Proof.
  intros st.
  assert (H : "Ann"%string <> "Cid"%string) by discriminate.
  split; [exact H|].
  rewrite (record_match_equal_ratings libm_pow_sample "t3" "Ann" "Cid" 24 st H eq_refl eq_refl).
  reflexivity.
Defined.

(** X3. [update_elo] does not check that its two names differ.  Called
    with one name for both, on a player of finite rating, it returns as
    for two players of that rating and leaves the player with the
    loser's new rating, [rating - k_factor * 0.5], one more win, one more
    loss and two more games; the other players are untouched. *)
Theorem update_elo_same_name
        (libm_pow : float -> float -> float) (name : string) (k_factor : Z)
        (st : session_state) (k : float) :
  let p := player_or_new name (players st) in
  F64.is_finite (rating p) = true ->
  float_of_int k_factor = Ok k ->
  let r := update_elo libm_pow name name k_factor st in
  let new_ra := F64.add (rating p) (F64.mul k F64.half) in
  let new_rb := F64.add (rating p) (F64.mul k (F64.opp F64.half)) in
  snd r = Ok (new_ra, new_rb, F64.mul k F64.half)
  /\ lookup name (players (fst r))
     = Some (mkPlayer new_rb (wins p + 1) (losses p + 1) (games p + 2))
  /\ forall other, other <> name ->
       lookup other (players (fst r)) = lookup other (players st).
Proof.
  intros p Fp K r new_ra new_rb. unfold r.
  destruct (update_elo_eq libm_pow name name k_factor st) as (pw & pl & Lw & Ll & E).
  rewrite create_twice in Lw, Ll, E.
  assert (Lp : lookup name (create name (players st)) = Some p).
  { rewrite lookup_create, String.eqb_refl. unfold p, player_or_new.
    now destruct (lookup name (players st)). }
  assert (pw = p) by congruence. assert (pl = p) by congruence. subst pw pl.
  rewrite E, (rating_deltas_same_rating libm_pow (rating p) k_factor Fp), K.
  unfold rbind. cbn [fst snd players with_players]. fold new_ra new_rb.
  split; [reflexivity|]. unfold after_match. split.
  - rewrite !lookup_modify, String.eqb_refl, Lp.
    unfold option_map, incr_games, incr_losses, incr_wins, set_rating.
    cbn [rating wins losses games]. do 2 f_equal. lia.
  - intros other Hne. apply not_eq_sym, String.eqb_neq in Hne.
    rewrite !lookup_modify, Hne, lookup_create, Hne.
    now destruct (lookup other (players st)).
Qed.

Lemma update_elo_same_name_witness :
  let r := update_elo libm_pow_sample "Ann" "Ann" 32 initial_state in
  snd r = Ok (F64.of_Z 1216, F64.of_Z 1184, F64.of_Z 16)
  /\ lookup "Ann"%string (players (fst r)) = Some (mkPlayer (F64.of_Z 1184) 1 1 2).
Proof.
  intros r.
  destruct (update_elo_same_name libm_pow_sample "Ann" 32 initial_state (F64.of_Z 32)
              eq_refl eq_refl) as (E & L & _).
  split; [exact E | exact L].
Defined.

(** X4. When the C library's [pow] gives floats that are neither negative
    nor NaN, [update_elo] raises nothing but [OverflowError]: [pow]
    overflowed, or the K-factor is beyond the floats.  The failed call
    has registered the two names it did not find, as new players, and has
    changed no rating, no counter and no match. *)
Theorem update_elo_fails_on_overflow_only
        (libm_pow : float -> float -> float) (winner loser : string) (k_factor : Z)
        (st : session_state) (e : exn) :
  (forall y, F64.is_nonneg (libm_pow F64.ten y) = true) ->
  snd (update_elo libm_pow winner loser k_factor st) = Raise e ->
  let ra := rating (player_or_new winner (players st)) in
  let rb := rating (player_or_new loser (players st)) in
  let st' := fst (update_elo libm_pow winner loser k_factor st) in
  e = OverflowError
  /\ (F64.is_inf (libm_pow F64.ten (F64.div (F64.sub rb ra) F64.f400)) = true
      \/ float_of_int k_factor = Raise OverflowError)
  /\ matches st' = matches st
  /\ forall name,
       lookup name (players st') =
       if String.eqb winner name || String.eqb loser name
       then Some (player_or_new name (players st))
       else lookup name (players st).
Proof.
  intros Hpow. 
  destruct (update_elo_eq libm_pow winner loser k_factor st) as (pw & pl & Lw & Ll & E).
  rewrite lookup_created, String.eqb_refl in Lw. cbn [orb] in Lw.
  rewrite lookup_created, String.eqb_refl, orb_true_r in Ll.
  injection Lw as <-. injection Ll as <-.
  rewrite E. clear E.
  destruct (rating_deltas _ _ _ _) as [[dw dl]|e'] eqn:D; [discriminate|].
  intros [= <-]. cbn [fst players matches with_players].
  destruct (rating_deltas_raises libm_pow Hpow _ _ _ _ D) as (-> & C).
  split; [reflexivity|]. split.
  - destruct C as [C|C]; [now left|right]. unfold float_of_int. now rewrite C.
  - split; [reflexivity|]. intros name. apply lookup_created.
Qed.

Lemma update_elo_fails_on_overflow_only_witness :
  let r := update_elo libm_pow_sample "Ann" "Bob" (2 ^ 1024) initial_state in
  snd r = Raise OverflowError
  /\ lookup "Ann"%string (players (fst r)) = Some (mkPlayer F64.f1200 0 0 0).
Proof.
  intros r.
  assert (E : snd r = Raise OverflowError) by (vm_compute; reflexivity).
  split; [exact E|].
  destruct (update_elo_fails_on_overflow_only libm_pow_sample "Ann" "Bob" (2 ^ 1024)
              initial_state OverflowError libm_pow_sample_nonneg E) as (_ & _ & _ & L).
  exact (L "Ann"%string).
Defined.

(** X5. Starting from an empty ledger, after any sequence of recorded
    matches between two different names, the counters are the log read
    back: a player's wins are the logged matches with that winner, the
    losses the logged matches with that loser, and every logged match is
    between two players of the registry. *)
Theorem run_counters_match_log
        (libm_pow : float -> float -> float) (calls : list call)
        (st : session_state) (name : string) (p : player) :
  players st = [] -> matches st = [] ->
  Forall (fun c => c_winner c <> c_loser c) calls ->
  let st' := run libm_pow calls st in
  In (name, p) (players st') ->
  wins p = won_by name (matches st')
  /\ losses p = lost_by name (matches st')
  /\ games p = won_by name (matches st') + lost_by name (matches st')
  /\ Forall (fun m => mem (m_winner m) (players st') = true
                      /\ mem (m_loser m) (players st') = true) (matches st').
Proof.
  intros Hp Hm Hcalls st' Hin.
  destruct (run_ledger_ok libm_pow calls st Hcalls (ledger_ok_empty st Hp Hm))
    as ([ND Hk] & Hl & Hc).
  fold st' in ND, Hk, Hl, Hc.
  apply In_lookup in Hin; [|exact ND].
  destruct (Hc name p Hin) as [Hw Hlo]. destruct (Hk name p Hin) as (Hg & _).
  repeat split; auto; try lia.
  eapply Forall_impl; [|exact Hl]. now intros m (_ & ? & ?).
Qed.

Lemma run_counters_match_log_witness :
  let calls := [mkCall "t1" "Ann" "Bob" 32; mkCall "t2" "Cid" "Dan" 32;
                mkCall "t3" "Cid" "Ann" 32] in
  let st' := run libm_pow_sample calls initial_state in
  let p := mkPlayer (F64.of_Z 1200) 1 1 2 in
  Forall (fun c => c_winner c <> c_loser c) calls
  /\ In ("Ann"%string, p) (players st')
  /\ won_by "Ann" (matches st') = 1
  /\ lost_by "Ann" (matches st') = 1.
Proof.
  intros calls st' p.
  assert (H : Forall (fun c => c_winner c <> c_loser c) calls)
    by (repeat constructor; discriminate).
  assert (Hin : In ("Ann"%string, p) (players st')) by (vm_compute; tauto).
  destruct (run_counters_match_log libm_pow_sample calls initial_state "Ann" p
              eq_refl eq_refl H Hin) as (Hw & Hl & _).
  refine (conj H (conj Hin (conj _ _))).
  - exact (eq_sym Hw).
  - exact (eq_sym Hl).
Defined.

(** X6. Ratings stay in range.  When the C library's [pow] gives floats
    that are neither negative nor NaN, after [n] recorded matches from an
    empty ledger, each at a K-factor from 1 to [kmax], every rating is a
    finite float between [-(1200 + kmax * n)] and [1200 + kmax * n], as
    long as that bound is below [2^53]; so no rating is NaN or infinite.
    With the slider of the page [kmax] is 64. *)
Theorem run_ratings_in_range
        (libm_pow : float -> float -> float) (calls : list call) (kmax : Z)
        (st : session_state) (name : string) (p : player) :
  (forall y, F64.is_nonneg (libm_pow F64.ten y) = true) ->
  players st = [] ->
  Forall (fun c => c_winner c <> c_loser c /\ 0 < c_k c <= kmax) calls ->
  let bound := 1200 + kmax * Z.of_nat (List.length calls) in
  bound < 2 ^ 53 ->
  In (name, p) (players (run libm_pow calls st)) ->
  F64.is_finite (rating p) = true
  /\ F64.leb (F64.opp (F64.of_Z bound)) (rating p) = true
  /\ F64.leb (rating p) (F64.of_Z bound) = true.
Proof.
  intros Hpow Hp Hcalls bound Hb Hin.
  assert (Hk : 0 <= kmax).
  { destruct Hcalls as [|c calls [_ Hc] _]; [|lia].
    simpl in Hin. rewrite Hp in Hin. destruct Hin. }
  assert (W0 : ratings_within 1200 (players st)).
  { rewrite Hp. intros n q L. discriminate L. }
  pose proof (run_within libm_pow Hpow calls kmax 1200 st Hcalls ltac:(lia) Hk Hb W0) as W.
  fold bound in W.
  assert (Hne : Forall (fun c => c_winner c <> c_loser c) calls)
    by (eapply Forall_impl; [|exact Hcalls]; now intros c [? _]).
  assert (Hok : registry_ok (players st)).
  { rewrite Hp. split; [constructor | discriminate]. }
  destruct (run_registry_ok libm_pow calls st Hne Hok) as [ND _].
  apply In_lookup in Hin; [|exact ND].
  specialize (W name p Hin).
  split; [exact (within_finite _ _ W)|].
  assert (Hpos : 0 < bound) by (unfold bound; nia).
  destruct (of_Z_exact bound ltac:(lia)) as (m & e & C & V & E).
  rewrite E. rewrite <- V in W. exact (within_leb _ m e C W).
Qed.

Lemma run_ratings_in_range_witness :
  let calls := [mkCall "t1" "Ann" "Bob" 32; mkCall "t2" "Ann" "Bob" 64] in
  let p := mkPlayer (S754_finite false 5475836173712647 (-42)) 2 0 2 in
  In ("Ann"%string, p) (players (run libm_pow_sample calls initial_state))
  /\ F64.leb (rating p) (F64.of_Z 1328) = true.
Proof.
  intros calls p.
  assert (H1 : Forall (fun c => c_winner c <> c_loser c /\ 0 < c_k c <= 64) calls)
    by (repeat constructor; try discriminate; lia).
  assert (H2 : In ("Ann"%string, p) (players (run libm_pow_sample calls initial_state)))
    by (vm_compute; tauto).
  split; [exact H2|].
  exact (proj2 (proj2 (run_ratings_in_range libm_pow_sample calls 64 initial_state "Ann" p
                         libm_pow_sample_nonneg eq_refl H1 eq_refl H2))).
Defined.

(** X7. The leaderboard lists every player of the registry exactly once:
    the names of its rows are the names of the registry in some order, so
    it is empty only when nobody is registered; and each row shows its
    player's rating rounded to one decimal and the player's losses. *)
Theorem leaderboard_rows_lists_all (st : session_state) (rows : list row) :
  snd (leaderboard_rows st) = Ok rows ->
  Permutation (map r_player rows) (map fst (players st))
  /\ List.length rows = List.length (players st)
  /\ (rows = [] <-> players st = [])
  /\ Forall (fun r => exists info,
                 In (r_player r, info) (players st)
                 /\ r_rating r = round1 (rating info)
                 /\ r_losses r = losses info) rows.
Proof.
  rewrite leaderboard_rows_eq. cbn [snd]. unfold rbind.
  destruct (rows_of (players st)) as [rows0|] eqn:E; [|discriminate].
  intros [= <-].
  pose proof (sort_reverse_perm row_lt rows0) as P.
  pose proof (rows_of_players _ _ E) as N.
  assert (L : List.length (sort_reverse row_lt rows0) = List.length (players st)).
  { rewrite (Permutation_length P), <- (length_map r_player), N. apply length_map. }
  split; [|split; [exact L|split]].
  - rewrite <- N. now apply Permutation_map.
  - split; intros H; rewrite H in L; simpl in L.
    + destruct (players st); [reflexivity | discriminate].
    + destruct (sort_reverse row_lt rows0); [reflexivity | discriminate].
  - apply Forall_forall. intros r Hr. apply (Permutation_in _ P) in Hr.
    destruct (rows_of_In _ _ _ E Hr) as (info & Hin & R).
    exists info. split; [exact Hin|].
    apply row_of_player in R. destruct R as (_ & Hrt & _ & _ & Hl). now split.
Qed.

Lemma leaderboard_rows_lists_all_witness :
  let st := run libm_pow_sample [mkCall "t1" "Bob" "Ann" 32; mkCall "t2" "Cid" "Dan" 32]
                initial_state in
  let rows := [mkRow "Bob" (F64.of_Z 1216) 1 1 0 F64.f100;
               mkRow "Cid" (F64.of_Z 1216) 1 1 0 F64.f100;
               mkRow "Ann" (F64.of_Z 1184) 1 0 1 F64.zero;
               mkRow "Dan" (F64.of_Z 1184) 1 0 1 F64.zero] in
  snd (leaderboard_rows st) = Ok rows
  /\ Permutation ["Bob"; "Cid"; "Ann"; "Dan"]%string (map fst (players st)).
Proof.
  intros st rows.
  assert (E : snd (leaderboard_rows st) = Ok rows) by (vm_compute; reflexivity).
  split; [exact E|].
  exact (proj1 (leaderboard_rows_lists_all st rows E)).
Defined.

(** X8. The sort of the leaderboard is stable.  When no rating is NaN,
    the rows that show the same rating, wins and losses as a row [x]
    stand in the leaderboard in the order in which the loop over the
    registry made them, which is the order of registration. *)
Theorem leaderboard_rows_keeps_ties
        (st : session_state) (made rows : list row) (x : row) :
  (forall name p, In (name, p) (players st) -> F64.is_nan (rating p) = false) ->
  rows_of (players st) = Ok made ->
  snd (leaderboard_rows st) = Ok rows ->
  map r_player made = map fst (players st)
  /\ filter (same_key x) rows = filter (same_key x) made.
Proof.
  intros Hst E. rewrite leaderboard_rows_eq. cbn [snd]. rewrite E. unfold rbind.
  intros [= <-]. split; [now apply rows_of_players|].
  pose proof (rows_not_nan st made Hst E) as D.
  set (dom := fun r : row => F64.is_nan (r_rating r) = false) in *.
  assert (Ds : Forall dom (sort_reverse row_lt made)).
  { apply (Permutation_Forall (Permutation_sym (sort_reverse_perm row_lt made))), D. }
  destruct (F64.is_nan (r_rating x)) eqn:Nx.
  - assert (Z : forall l : list row, filter (same_key x) l = []).
    { intros l. apply filter_none, Forall_forall. intros y _. unfold same_key.
      destruct (r_rating x); try discriminate. now destruct (r_rating y). }
    now rewrite !Z.
  - assert (T : forall l : list row,
               Forall dom l -> filter (same_key x) l = filter (tied row_lt x) l).
    { intros l Dl. apply filter_ext_in. intros y Hy. symmetry.
      apply tied_same_key; [exact Nx|]. rewrite Forall_forall in Dl. now apply Dl. }
    rewrite (T _ Ds), (T _ D).
    apply (sort_reverse_tied row_lt dom); auto.
    + intros a b c Da Db Dc. rewrite !row_lt_rank by assumption. apply lex5_lt_trans.
    + intros a b Da Db H. apply row_lt_rank in H; auto.
      destruct (row_lt b a) eqn:F; auto.
      apply row_lt_rank in F; auto. now apply lex5_lt_asym in H.
    + intros a b c Da Db Dc H1 H2. apply row_lt_rank; auto.
      apply row_lt_rank in H1; auto.
      apply (lex5_lt_total _ (row_rank b)); auto.
      intros F. apply row_lt_rank in F; auto. congruence.
Qed.

Lemma leaderboard_rows_keeps_ties_witness :
  let st := run libm_pow_sample [mkCall "t1" "Bob" "Ann" 32; mkCall "t2" "Cid" "Dan" 32]
                initial_state in
  let bob := mkRow "Bob" (F64.of_Z 1216) 1 1 0 F64.f100 in
  let cid := mkRow "Cid" (F64.of_Z 1216) 1 1 0 F64.f100 in
  let ann := mkRow "Ann" (F64.of_Z 1184) 1 0 1 F64.zero in
  let dan := mkRow "Dan" (F64.of_Z 1184) 1 0 1 F64.zero in
  rows_of (players st) = Ok [bob; ann; cid; dan]
  /\ snd (leaderboard_rows st) = Ok [bob; cid; ann; dan]
  /\ filter (same_key ann) [bob; cid; ann; dan] = [ann; dan].
Proof.
  intros st bob cid ann dan.
  assert (H : forall name p, In (name, p) (players st) -> F64.is_nan (rating p) = false).
  { intros name p Hin. vm_compute in Hin.
    repeat (destruct Hin as [Hin|Hin]; [injection Hin as <- <-; reflexivity|]).
    destruct Hin. }
  assert (E : rows_of (players st) = Ok [bob; ann; cid; dan]) by (vm_compute; reflexivity).
  assert (R : snd (leaderboard_rows st) = Ok [bob; cid; ann; dan])
    by (vm_compute; reflexivity).
  refine (conj E (conj R _)).
  rewrite (proj2 (leaderboard_rows_keeps_ties st _ _ ann H E R)).
  vm_compute. reflexivity.
Defined.

(** X9. When no player has more wins than games, nor negative wins, the
    leaderboard is returned, not raised, and every "Win %" of it is
    between [0.0] and [100.0]. *)
Theorem leaderboard_win_pct_range (st : session_state) :
  (forall name p, In (name, p) (players st) -> 0 <= wins p <= games p) ->
  exists rows,
    snd (leaderboard_rows st) = Ok rows
    /\ Forall (fun r => F64.leb F64.zero (r_win_pct r) = true
                        /\ F64.leb (r_win_pct r) F64.f100 = true) rows.
Proof.
  intros H. rewrite leaderboard_rows_eq. cbn [snd].
  destruct (rows_of_win_pct (players st) H) as (rows0 & -> & R).
  unfold rbind. eexists. split; [reflexivity|].
  apply (Permutation_Forall (Permutation_sym (sort_reverse_perm row_lt rows0))), R.
Qed.

Lemma leaderboard_win_pct_range_witness :
  let st := run libm_pow_sample [mkCall "t1" "Ann" "Bob" 32; mkCall "t2" "Cid" "Dan" 32;
                                 mkCall "t3" "Cid" "Ann" 32]
                initial_state in
  (forall name p, In (name, p) (players st) -> 0 <= wins p <= games p)
  /\ exists rows, snd (leaderboard_rows st) = Ok rows
                  /\ nth_error (map r_win_pct rows) 1 = Some (F64.of_Z 50).
Proof.
  intros st.
  assert (H : forall name p, In (name, p) (players st) -> 0 <= wins p <= games p).
  { intros name p Hin. vm_compute in Hin.
    repeat (destruct Hin as [Hin|Hin]; [injection Hin as <- <-; simpl; lia|]).
    destruct Hin. }
  split; [exact H|].
  destruct (leaderboard_win_pct_range st H) as (rows & E & _).
  exists rows. split; [exact E|].
  assert (E' : snd (leaderboard_rows st) = Ok rows) by exact E.
  clear E. revert E'. vm_compute. intros [= <-]. reflexivity.
Defined.

(** * Further properties of the application *)

(** X10. [load_credentials] never returns an empty dict, and no user name
    occurs twice in it.  When the secrets hold a dict that is not empty,
    the environment is not looked at and a name given twice keeps its last
    password; when the secrets give nothing and one of [AUTH_USER] and
    [AUTH_PASS] is unset or empty, the only user is the demo user
    ["admin"] with the password ["admin"]. *)
Theorem load_credentials_never_empty (env : environment) :
  load_credentials env <> []
  /\ NoDup (map fst (load_credentials env))
  /\ (forall items, secrets env = SecretsDict items -> items <> [] ->
      forall name, Dict.get name (load_credentials env) = last_value name items)
  /\ ((forall items, secrets env = SecretsDict items -> items = []) ->
      truthy_env (AUTH_USER env) && truthy_env (AUTH_PASS env) = false ->
      load_credentials env = [("admin"%string, "admin"%string)]).
Proof.
  split; [apply load_credentials_not_nil|]. split; [|split].
  - unfold load_credentials.
    destruct (secrets env) as [| | |[|item items]];
      try (destruct (truthy_env _ && truthy_env _); repeat constructor; simpl; tauto).
    apply dict_of_items_keys.
  - intros items E Hne name. unfold load_credentials. rewrite E.
    destruct items as [|item items]; [congruence|]. apply dict_get_of_items.
  - intros Hs He. unfold load_credentials. rewrite He.
    destruct (secrets env) as [| | |[|item items]]; try reflexivity.
    specialize (Hs _ eq_refl). discriminate.
Qed.

(** X11. [render_login] signs in exactly when the form was submitted and
    the password typed is, character for character, that of the last user
    whose name equals the stripped name typed up to [lower]; it then sets
    [authed] and stores the stripped name as typed in [auth_user].
    Otherwise the session state is untouched. *)
Theorem render_login_accepts
        (strip lower : string -> string) (users : credentials) (form : login_form)
        (st : session_state) :
  let username := strip (username_input form) in
  let known :=
    submitted form = true
    /\ exists l1 k l2,
         users = l1 ++ (k, password_input form) :: l2
         /\ lower k = lower username
         /\ Forall (fun kv => lower (fst kv) <> lower username) l2 in
  (known ->
   render_login strip lower users form st
   = (mkState (players st) (matches st) (default_k st) true username, true))
  /\ (~ known -> render_login strip lower users form st = (st, false)).
Proof.
  intros username known. unfold render_login. fold username.
  pose proof (accepts_iff lower users username (password_input form)) as A.
  split.
  - intros [-> K]. apply A in K. now rewrite K.
  - intros N. destruct (submitted form); [|reflexivity].
    destruct (accepts lower users username (password_input form)); [|reflexivity].
    elim N. split; [reflexivity | now apply A].
Qed.

(** X12. With nothing usable in the secrets and [AUTH_USER] or [AUTH_PASS]
    unset or empty, a visitor who is not signed in and submits a name that
    equals ["admin"] up to [strip] and [lower], with the password
    ["admin"], is signed in by the script run, which ends in a rerun. *)
Theorem script_demo_sign_in
        (strip lower : string -> string) (libm_pow : float -> float -> float)
        (env : environment) (w : widgets) (s : raw_session) :
  (forall items, secrets env = SecretsDict items -> items = []) ->
  truthy_env (AUTH_USER env) && truthy_env (AUTH_PASS env) = false ->
  authed (initialize_state s) = false ->
  submitted (w_login w) = true ->
  lower (strip (username_input (w_login w))) = lower "admin"%string ->
  password_input (w_login w) = "admin"%string ->
  script strip lower libm_pow env w s
  = (sign_in (strip (username_input (w_login w))) (initialize_state s), Rerun).
Proof.
  intros Hs He Ha Hsub Hu Hp. unfold script. rewrite Ha. cbn [negb].
  assert (U : load_credentials env = demo_users).
  { unfold load_credentials. rewrite He.
    destruct (secrets env) as [| | |[|item items]]; try reflexivity.
    specialize (Hs _ eq_refl). discriminate. }
  rewrite U. unfold render_login. rewrite Hsub.
  assert (A : accepts lower demo_users (strip (username_input (w_login w)))
                      (password_input (w_login w)) = true).
  { apply accepts_iff. exists [], "admin"%string, []. rewrite Hp. repeat split; auto. }
  now rewrite A.
Qed.

Lemma script_demo_sign_in_witness :
  let env := mkEnv SecretsRaise (Some "root"%string) None in
  let w := mkWidgets (mkLogin " Admin " "admin" true) 32 false false
                     EmptyString EmptyString "Player A" false "2024-05-01 10:00" in
  script ascii_strip ascii_lower libm_pow_sample env w new_session
  = (mkState [] [] 32 true "Admin", Rerun).
Proof.
  intros env w.
  apply (script_demo_sign_in ascii_strip ascii_lower libm_pow_sample env w new_session);
    try reflexivity.
  intros items E. discriminate E.
Defined.

(** X13. A script run that starts without a sign-in leaves the players, the
    matches and the K-factor as they were, whatever the widgets return: it
    ends at [st.stop()] with the session state untouched, or in a rerun
    after [render_login] accepted the submitted name and password. *)
Theorem script_needs_sign_in
        (strip lower : string -> string) (libm_pow : float -> float -> float)
        (env : environment) (w : widgets) (s : raw_session) :
  authed (initialize_state s) = false ->
  let st := initialize_state s in
  let r := script strip lower libm_pow env w s in
  players (fst r) = players st
  /\ matches (fst r) = matches st
  /\ default_k (fst r) = default_k st
  /\ (r = (st, Stopped)
      \/ (snd r = Rerun
          /\ authed (fst r) = true
          /\ submitted (w_login w) = true
          /\ accepts lower (load_credentials env)
                     (strip (username_input (w_login w)))
                     (password_input (w_login w)) = true)).
Proof.
  intros Ha st r. unfold r, script. fold st. fold st in Ha. rewrite Ha. cbn [negb].
  unfold render_login. destruct (submitted (w_login w)); [|repeat split; auto].
  destruct (accepts _ _ _ _) eqn:A; repeat split; auto.
Qed.

Lemma script_needs_sign_in_witness :
  let env := mkEnv SecretsAbsent (Some "ann"%string) (Some "pw"%string) in
  let w := mkWidgets (mkLogin "ann" "admin" true) 64 true false
                     "Ann" "Bob" "Player A" true "2024-05-01 10:00" in
  authed (initialize_state new_session) = false
  /\ script ascii_strip ascii_lower libm_pow_sample env w new_session
     = (initial_state, Stopped).
Proof.
  intros env w.
  assert (H : authed (initialize_state new_session) = false) by reflexivity.
  split; [exact H|].
  destruct (script_needs_sign_in ascii_strip ascii_lower libm_pow_sample env w new_session H)
    as (_ & _ & _ & [E|(_ & A & _)]).
  - exact E.
  - discriminate A.
Defined.

(** X14. Signing out keeps the ledger.  A run of a signed-in session in
    which "Log out" is pressed ends in the "Log out" block, with [authed]
    false and [auth_user] empty, whether the block ends at [st.rerun()] or
    at the call before it; the run records no match even if "Record
    Match" was pressed too, and leaves the players and the matches as
    they were unless "Reset all data" was pressed as well.  The next run,
    whatever its widgets return, finds no sign-in and leaves the players,
    the matches and the K-factor as this run left them. *)
Theorem script_log_out
        (strip lower : string -> string) (libm_pow : float -> float -> float)
        (env : environment) (w : widgets) (s : raw_session) :
  authed (initialize_state s) = true ->
  w_logout w = true ->
  let st := initialize_state s in
  let st' := mkState (if w_reset w then [] else players st)
                     (if w_reset w then [] else matches st)
                     (w_k_factor w) false EmptyString in
  script strip lower libm_pow env w s = (st', SignedOut)
  /\ forall env' w',
       let r := script strip lower libm_pow env' w' (stored st') in
       players (fst r) = players st' /\ matches (fst r) = matches st'
       /\ default_k (fst r) = default_k st'
       /\ (snd r = Stopped \/ snd r = Rerun).
Proof.
  intros Ha Hl st st'. split.
  - unfold script. fold st. fold st in Ha. rewrite Ha, Hl. cbn [negb].
    unfold st'. now destruct (w_reset w).
  - intros env' w' r. unfold r, script. rewrite initialize_stored.
    change (authed st') with false. cbn [negb].
    pose proof (render_login_ledger strip lower (load_credentials env') (w_login w') st')
      as (Hp & Hm & Hk).
    destruct (render_login strip lower (load_credentials env') (w_login w') st')
      as [st2 [|]]; cbn [fst snd] in *; auto.
Qed.

Lemma script_log_out_witness :
  let st := fst (record_match libm_pow_sample "2024-05-01 10:00" "Ann" "Bob" 32
                   (mkState [] [] 32 true "Admin")) in
  let w := mkWidgets (mkLogin EmptyString EmptyString false) 16 false true
                     "Cid" "Dan" "Player A" true "2024-05-01 10:05" in
  script ascii_strip ascii_lower libm_pow_sample (mkEnv SecretsAbsent None None) w (stored st)
  = (mkState (players st) (matches st) 16 false EmptyString, SignedOut).
Proof.
  intros st w.
  apply (script_log_out ascii_strip ascii_lower libm_pow_sample
           (mkEnv SecretsAbsent None None) w (stored st)); reflexivity.
Defined.

(** X15. The names offered in the form of a match are the registered
    names sorted in the order of strings, strictly upwards when no name
    is registered twice.  "Player A" is filled with the first of them and
    "Player B" with the second, which is another name; with one player
    only "Player A" is filled, and with none both are empty. *)
Theorem default_players_sorted (st : session_state) :
  NoDup (map fst (players st)) ->
  let names := existing_players st in
  Permutation names (map fst (players st))
  /\ StronglySorted (fun a b => String.ltb a b = true) names
  /\ match names with
     | [] => default_player_a st = EmptyString /\ default_player_b st = EmptyString
     | [a] => default_player_a st = a /\ default_player_b st = EmptyString
     | a :: b :: _ =>
         default_player_a st = a /\ default_player_b st = b /\ String.ltb a b = true
     end.
Proof.
  intros ND names.
  pose proof (existing_players_perm st) as P. fold names in P.
  assert (S : StronglySorted (fun a b => String.ltb a b = true) names).
  { apply ascending_strict; [|apply existing_players_ascending].
    apply (Permutation_NoDup (Permutation_sym P)), ND. }
  split; [exact P|]. split; [exact S|].
  unfold default_player_a, default_player_b. fold names.
  destruct names as [|a [|b l]]; auto.
  repeat split. inversion S as [|? ? _ Ha]; subst. now inversion Ha.
Qed.

Lemma default_players_sorted_witness :
  let st := run libm_pow_sample [mkCall "t1" "Cid" "Bob" 32; mkCall "t2" "Ann" "Dan" 32]
                initial_state in
  map fst (players st) = ["Cid"; "Bob"; "Ann"; "Dan"]%string
  /\ existing_players st = ["Ann"; "Bob"; "Cid"; "Dan"]%string
  /\ default_player_a st = "Ann"%string /\ default_player_b st = "Bob"%string.
Proof.
  intros st.
  assert (N : map fst (players st) = ["Cid"; "Bob"; "Ann"; "Dan"]%string)
    by (vm_compute; reflexivity).
  assert (ND : NoDup (map fst (players st))).
  { rewrite N. repeat constructor; simpl; intuition discriminate. }
  assert (E : existing_players st = ["Ann"; "Bob"; "Cid"; "Dan"]%string)
    by (vm_compute; reflexivity).
  destruct (default_players_sorted st ND) as (_ & _ & D).
  rewrite E in D. destruct D as (Da & Db & _). auto.
Defined.

(** X16. In a browser session, whatever the widgets return in each run and
    whatever the credentials: no name is registered twice and none is
    empty; every player's wins and losses are the numbers of logged
    matches that player won and lost, and the games are their sum; and
    every logged match is between two different registered players. *)
Theorem browse_keeps_ledger
        (strip lower : string -> string) (libm_pow : float -> float -> float)
        (events : list (environment * widgets)) :
  let st := initialize_state (browse strip lower libm_pow events new_session) in
  NoDup (map fst (players st))
  /\ (forall name p, In (name, p) (players st) ->
      name <> EmptyString
      /\ wins p = won_by name (matches st)
      /\ losses p = lost_by name (matches st)
      /\ games p = wins p + losses p)
  /\ Forall (fun m => m_winner m <> m_loser m
                      /\ mem (m_winner m) (players st) = true
                      /\ mem (m_loser m) (players st) = true)
            (matches st).
Proof.
  intros st.
  destruct (browse_ledger_ok strip lower libm_pow events) as [(Hr & Hm & Hc) Hn].
  fold st in Hr, Hm, Hc, Hn. destruct Hr as [ND Hk]. split; [exact ND|]. split.
  - intros name p Hin. apply In_lookup in Hin; [|exact ND].
    destruct (Hc name p Hin) as [Hw Hl]. destruct (Hk name p Hin) as (Hg & _).
    repeat split; auto.
    apply Hn. unfold mem. now rewrite Hin.
  - exact Hm.
Qed.

(** X17. Reloading the page changes nothing: in a browser session that is
    signed in, a script run in which no button is pressed completes, the
    leaderboard included, and leaves the session state as it found it, the
    K-factor of the slider apart. *)
Theorem script_reload
        (strip lower : string -> string) (libm_pow : float -> float -> float)
        (events : list (environment * widgets)) (env : environment) (w : widgets) :
  let s := browse strip lower libm_pow events new_session in
  authed (initialize_state s) = true ->
  w_reset w = false -> w_logout w = false -> w_submit w = false ->
  script strip lower libm_pow env w s
  = (with_default_k (w_k_factor w) (initialize_state s), Completed).
Proof.
  intros s Ha Hr Hl Hs.
  destruct (browse_ledger_ok strip lower libm_pow events) as [L _]. fold s in L.
  unfold script. rewrite Ha, Hr, Hl. cbn [negb]. unfold record_block. rewrite Hs.
  cbn [andb].
  destruct (script_leaderboard (with_default_k (w_k_factor w) (initialize_state s)))
    as [rows E].
  - now apply (ledger_ok_ext (initialize_state s)).
  - now rewrite E.
Qed.

Lemma script_reload_witness :
  let env := mkEnv SecretsAbsent None None in
  let idle := mkLogin EmptyString EmptyString false in
  let events :=
    [(env, mkWidgets (mkLogin "admin" "admin" true) 32 false false
                     EmptyString EmptyString "Player A" false "2024-05-01 09:59");
     (env, mkWidgets idle 32 false false "Ann" " Bob" "Player A" true "2024-05-01 10:00")] in
  let w := mkWidgets idle 24 false false "Ann" "Bob" "Player A" false "2024-05-01 10:05" in
  script ascii_strip ascii_lower libm_pow_sample env w
         (browse ascii_strip ascii_lower libm_pow_sample events new_session)
  = (mkState [("Ann"%string, mkPlayer (F64.of_Z 1216) 1 0 1);
              ("Bob"%string, mkPlayer (F64.of_Z 1184) 0 1 1)]
             [mkMatch "2024-05-01 10:00" "Ann" "Bob" (F64.of_Z 16) 32]
             24 true "admin",
     Completed).
Proof.
  intros env idle events w.
  apply (script_reload ascii_strip ascii_lower libm_pow_sample events env w); reflexivity.
Defined.

(** X18. When the C library's [pow] gives floats that are neither negative
    nor NaN, the rating engine fails a script run of a browser session
    with no exception but [OverflowError], and only where "Record Match"
    was pressed in a signed-in run in which "Log out" was not: the
    leaderboard of a browser session never raises, and the sign-in and
    the reset raise nothing.  The "Log out" block is apart: a run that
    reaches it ends there, see [SignedOut]. *)
Theorem script_fails_on_overflow_only
        (strip lower : string -> string) (libm_pow : float -> float -> float)
        (events : list (environment * widgets)) (env : environment) (w : widgets)
        (e : exn) :
  (forall y, F64.is_nonneg (libm_pow F64.ten y) = true) ->
  let s := browse strip lower libm_pow events new_session in
  snd (script strip lower libm_pow env w s) = Failed e ->
  e = OverflowError
  /\ authed (initialize_state s) = true
  /\ w_logout w = false
  /\ w_submit w = true
  /\ can_submit (strip (w_player_a w)) (strip (w_player_b w)) = true.
Proof.
  intros Hpow s.
  destruct (browse_ledger_ok strip lower libm_pow events) as [L N]. fold s in L, N.
  unfold script. destruct (authed (initialize_state s)); cbn [negb].
  - set (st1 := with_default_k (w_k_factor w) (initialize_state s)).
    set (st2 := if w_reset w then fst (reset st1) else st1).
    assert (H2 : ledger_ok st2 /\ names_ok st2).
    { unfold st2. destruct (w_reset w).
      - split; [now apply ledger_ok_empty|]. intros name. discriminate.
      - split; [now apply (ledger_ok_ext (initialize_state s))
               | now apply (names_ok_ext (initialize_state s))]. }
    destruct H2 as [L2 N2].
    destruct (w_logout w); [discriminate|].
    pose proof (record_block_ok strip libm_pow w (w_k_factor w) st2 L2 N2) as [L3 _].
    unfold record_block in *.
    destruct (w_submit w && can_submit _ _) eqn:C.
    + apply andb_true_iff in C. destruct C as [-> ->].
      pose proof (record_match_raises libm_pow Hpow (w_now w) (win_name strip w)
                    (lose_name strip w) (w_k_factor w) st2) as R.
      destruct (record_match libm_pow _ _ _ _ st2) as [st3 [r|e']]; cbn [fst snd] in *.
      * destruct (script_leaderboard st3 L3) as [rows ->]. discriminate.
      * intros [= <-]. repeat split; auto.
    + cbn [fst] in L3. destruct (script_leaderboard st2 L3) as [rows ->]. discriminate.
  - destruct (render_login _ _ _ _ _) as [st' [|]]; discriminate.
Qed.

Lemma script_fails_on_overflow_only_witness :
  let env := mkEnv SecretsAbsent None None in
  let idle := mkLogin EmptyString EmptyString false in
  let events :=
    [(env, mkWidgets (mkLogin "admin" "admin" true) 32 false false
                     EmptyString EmptyString "Player A" false "2024-05-01 09:59")] in
  let w := mkWidgets idle (2 ^ 1024) false false "Ann" "Bob" "Player A" true
                     "2024-05-01 10:00" in
  snd (script ascii_strip ascii_lower libm_pow_sample env w
         (browse ascii_strip ascii_lower libm_pow_sample events new_session))
  = Failed OverflowError
  /\ w_submit w = true.
Proof.
  intros env idle events w.
  assert (E : snd (script ascii_strip ascii_lower libm_pow_sample env w
                     (browse ascii_strip ascii_lower libm_pow_sample events new_session))
              = Failed OverflowError) by (vm_compute; reflexivity).
  split; [exact E|].
  exact (proj1 (proj2 (proj2 (proj2
    (script_fails_on_overflow_only ascii_strip ascii_lower libm_pow_sample events env w
       OverflowError libm_pow_sample_nonneg E))))).
Defined.

(** X19. With the K-factor of the slider, from 8 to 64, and a C library
    [pow] that gives floats that are neither negative nor NaN, a browser
    session of fewer than [2^46] script runs never holds a rating that is
    NaN or infinite, and its leaderboard is returned in order: of two
    rows the earlier has the higher rating, or the same rating and more
    wins, or the same rating and wins and no more losses. *)
Theorem browse_leaderboard_in_order
        (strip lower : string -> string) (libm_pow : float -> float -> float)
        (events : list (environment * widgets)) :
  (forall y, F64.is_nonneg (libm_pow F64.ten y) = true) ->
  Forall (fun ev => 8 <= w_k_factor (snd ev) <= 64) events ->
  Z.of_nat (List.length events) < 2 ^ 46 ->
  let st := initialize_state (browse strip lower libm_pow events new_session) in
  (forall name p, In (name, p) (players st) -> F64.is_finite (rating p) = true)
  /\ exists rows,
       snd (leaderboard_rows st) = Ok rows
       /\ forall i j x y,
            (i < j)%nat -> nth_error rows i = Some x -> nth_error rows j = Some y ->
            F64.ltb (r_rating y) (r_rating x) = true
            \/ (F64.eqb (r_rating x) (r_rating y) = true /\ r_wins y < r_wins x)
            \/ (F64.eqb (r_rating x) (r_rating y) = true /\ r_wins x = r_wins y
                /\ r_losses x <= r_losses y).
Proof.
  intros Hpow Hev Hn st.
  destruct (browse_ledger_ok strip lower libm_pow events) as [([ND Hk] & _) _].
  fold st in ND, Hk.
  assert (Hev' : Forall (fun ev => 0 < w_k_factor (snd ev) <= 64) events)
    by (eapply Forall_impl; [|exact Hev]; intros ev ?; simpl in *; lia).
  assert (W0 : ratings_within 1200 (players (initialize_state new_session)))
    by (intros n q L; discriminate L).
  pose proof (browse_within strip lower libm_pow Hpow events 64 1200 new_session Hev'
                ltac:(lia) ltac:(lia) ltac:(lia) W0) as W.
  fold st in W.
  assert (F : forall name p, In (name, p) (players st) -> F64.is_finite (rating p) = true).
  { intros name p Hin. apply In_lookup in Hin; [|exact ND].
    exact (within_finite _ _ (W name p Hin)). }
  split; [exact F|].
  destruct (leaderboard_rows_total st (conj ND Hk)) as [rows E].
  exists rows. split; [exact E|].
  assert (N : forall name p, In (name, p) (players st) -> F64.is_nan (rating p) = false).
  { intros name p Hin. specialize (F name p Hin). now destruct (rating p). }
  pose proof (leaderboard_rows_in_order st rows N E) as S.
  intros i j x y Hij Hx Hy.
  exact (StronglySorted_nth_error _ _ S i j x y Hij Hx Hy).
Qed.

Lemma browse_leaderboard_in_order_witness :
  let env := mkEnv SecretsAbsent None None in
  let idle := mkLogin EmptyString EmptyString false in
  let events :=
    [(env, mkWidgets (mkLogin "admin" "admin" true) 32 false false
                     EmptyString EmptyString "Player A" false "2024-05-01 09:59");
     (env, mkWidgets idle 32 false false "Ann" "Bob" "Player B" true "2024-05-01 10:00")] in
  let st := initialize_state
              (browse ascii_strip ascii_lower libm_pow_sample events new_session) in
  Forall (fun ev => 8 <= w_k_factor (snd ev) <= 64) events
  /\ snd (leaderboard_rows st)
     = Ok [mkRow "Bob" (F64.of_Z 1216) 1 1 0 F64.f100;
           mkRow "Ann" (F64.of_Z 1184) 1 0 1 F64.zero].
Proof.
  intros env idle events st.
  assert (H : Forall (fun ev => 8 <= w_k_factor (snd ev) <= 64) events)
    by (repeat constructor; simpl; lia).
  split; [exact H|].
  destruct (browse_leaderboard_in_order ascii_strip ascii_lower libm_pow_sample events
              libm_pow_sample_nonneg H eq_refl) as (_ & rows & E & _).
  fold st in E. rewrite E. revert E. vm_compute. intros [= <-]. reflexivity.
Defined.

(** X20. In a browser session with at least two registered players the
    form of a match can be submitted as it is filled in: the two names
    offered pass [can_submit].  [strip] is taken to leave a stripped
    string as it is. *)
Theorem browse_default_form
        (strip lower : string -> string) (libm_pow : float -> float -> float)
        (events : list (environment * widgets)) :
  (forall s, strip (strip s) = strip s) ->
  let st := initialize_state (browse strip lower libm_pow events new_session) in
  (2 <= List.length (players st))%nat ->
  can_submit (strip (default_player_a st)) (strip (default_player_b st)) = true.
Proof.
  intros Hs st Hlen.
  destruct (browse_ledger_ok strip lower libm_pow events) as [([ND _] & _) Hn].
  fold st in ND, Hn.
  assert (Hst : names_stripped strip st).
  { apply browse_names_stripped; [exact Hs|]. intros name. discriminate. }
  pose proof (existing_players_perm st) as P.
  assert (NDs : NoDup (existing_players st))
    by (apply (Permutation_NoDup (Permutation_sym P)), ND).
  assert (L : List.length (existing_players st) = List.length (players st))
    by (rewrite (Permutation_length P); apply length_map).
  unfold default_player_a, default_player_b.
  remember (existing_players st) as names eqn:En. clear En.
  destruct names as [|a [|b l]]; cbn [List.length] in L; try lia.
  assert (Ma : mem a (players st) = true)
    by (apply In_mem, (Permutation_in _ P); simpl; auto).
  assert (Mb : mem b (players st) = true)
    by (apply In_mem, (Permutation_in _ P); simpl; auto).
  rewrite (Hst a Ma), (Hst b Mb). unfold can_submit.
  assert (a <> b).
  { inversion NDs as [|? ? Hx _]; subst. intros ->. apply Hx. now left. }
  rewrite (proj2 (String.eqb_neq a EmptyString) (Hn a Ma)).
  rewrite (proj2 (String.eqb_neq b EmptyString) (Hn b Mb)).
  now rewrite (proj2 (String.eqb_neq a b) H).
Qed.

Lemma browse_default_form_witness :
  let env := mkEnv SecretsAbsent None None in
  let idle := mkLogin EmptyString EmptyString false in
  let events :=
    [(env, mkWidgets (mkLogin "admin" "admin" true) 32 false false
                     EmptyString EmptyString "Player A" false "2024-05-01 09:59");
     (env, mkWidgets idle 32 false false " Bob " "Ann" "Player A" true "2024-05-01 10:00")] in
  let st := initialize_state
              (browse ascii_strip ascii_lower libm_pow_sample events new_session) in
  map fst (players st) = ["Bob"; "Ann"]%string
  /\ default_player_a st = "Ann"%string /\ default_player_b st = "Bob"%string
  /\ can_submit (ascii_strip (default_player_a st)) (ascii_strip (default_player_b st))
     = true.
Proof.
  intros env idle events st.
  assert (N : map fst (players st) = ["Bob"; "Ann"]%string) by (vm_compute; reflexivity).
  assert (L : (2 <= List.length (players st))%nat).
  { rewrite <- (length_map fst), N. simpl. lia. }
  pose proof (browse_default_form ascii_strip ascii_lower libm_pow_sample events
                ascii_strip_twice L) as C.
  refine (conj N (conj _ (conj _ C))); vm_compute; reflexivity.
Defined.
